(** * mk: a shallow embedding of the expander, the recipe texts, the rule
    model and its assignments, the lexer, the graph walker with its mkfile
    reader, and the scheduler.

    Go strings are byte strings and are modelled by [string]; Go's [int]
    indices are [Z] (the values that occur are far below the word size);
    a slice expression or an index outside its bounds panics, which the
    embedding makes explicit in the type [result]; loops that the source
    does not bound are run on fuel. *)

From Stdlib Require Import ZArith String Ascii List Bool Lia DecimalString.
From stdpp Require Import base gmap strings.
Import ListNotations.

Local Open Scope string_scope.
Local Open Scope Z_scope.

(** ** Outcomes of running Go code *)

Inductive result (A : Type) : Type :=
| Ok (a : A)      (* the function returned [a] *)
| Panic           (* a run-time panic (index or slice out of range, ...) *)
| Exit            (* the process was ended by mkError, that is os.Exit(1) *)
| OutOfFuel.      (* the model's fuel ran out before the function returned *)
Arguments Ok {A} a.
Arguments Panic {A}.
Arguments Exit {A}.
Arguments OutOfFuel {A}.

Definition bind {A B} (m : result A) (k : A -> result B) : result B :=
  match m with
  | Ok a => k a
  | Panic => Panic
  | Exit => Exit
  | OutOfFuel => OutOfFuel
  end.

Notation "'let*' x := m 'in' k" := (bind m (fun x => k))
  (at level 10, x name, m at level 100, k at level 200).
Notation "'let*' ' p := m 'in' k" := (bind m (fun x => let 'p := x in k))
  (at level 10, p pattern, m at level 100, k at level 200).

(** ** Go's string primitives *)

Module GoStr.

Definition rune := Z.

(** utf8.RuneError, U+FFFD. *)
Definition RuneError : rune := 65533.

Definition byte_val (c : ascii) : Z := Z.of_nat (nat_of_ascii c).

(** The code point of an ASCII character literal such as ['%']. *)
Definition chr (c : ascii) : rune := byte_val c.

Definition len (s : string) : Z := Z.of_nat (String.length s).

Fixpoint drop (n : nat) (s : string) : string :=
  match n, s with
  | O, _ => s
  | S n', String _ s' => drop n' s'
  | S _, EmptyString => EmptyString
  end.

Fixpoint take (n : nat) (s : string) : string :=
  match n, s with
  | O, _ => EmptyString
  | S n', String c s' => String c (take n' s')
  | S _, EmptyString => EmptyString
  end.

(** [s[i:j]]: panics unless [0 <= i <= j <= len(s)]. *)
Definition slice (s : string) (i j : Z) : result string :=
  if (0 <=? i) && (i <=? j) && (j <=? len s)
  then Ok (take (Z.to_nat (j - i)) (drop (Z.to_nat i) s))
  else Panic.

(** [s[i:]] *)
Definition slice_from (s : string) (i : Z) : result string := slice s i (len s).

(** [s[:j]] *)
Definition slice_to (s : string) (j : Z) : result string := slice s 0 j.

(** [s[i]]: panics unless [0 <= i < len(s)]. *)
Definition at_index (s : string) (i : Z) : result ascii :=
  if (0 <=? i) && (i <? len s)
  then match drop (Z.to_nat i) s with
       | String c _ => Ok c
       | EmptyString => Panic
       end
  else Panic.

Fixpoint contains_byte (chars : string) (c : ascii) : bool :=
  match chars with
  | EmptyString => false
  | String d chars' => if Ascii.eqb c d then true else contains_byte chars' c
  end.

(** Offset of the first byte of [s] satisfying [p], or -1. *)
Fixpoint index_where (p : ascii -> bool) (s : string) : Z :=
  match s with
  | EmptyString => -1
  | String c s' =>
      if p c then 0
      else let k := index_where p s' in if k <? 0 then -1 else k + 1
  end.

(** strings.IndexAny for a set [chars] of ASCII characters: an ASCII byte
    never occurs inside the encoding of another rune, so the first rune of
    [s] that is in [chars] is the first such byte. *)
Definition IndexAny (s chars : string) : Z := index_where (contains_byte chars) s.

(** strings.IndexByte, and strings.IndexRune for an ASCII rune. *)
Definition IndexByte (s : string) (c : ascii) : Z := index_where (Ascii.eqb c) s.

Fixpoint has_prefix (p s : string) : bool :=
  match p, s with
  | EmptyString, _ => true
  | String a p', String b s' => Ascii.eqb a b && has_prefix p' s'
  | String _ _, EmptyString => false
  end.

(** strings.HasPrefix *)
Definition HasPrefix (s p : string) : bool := has_prefix p s.

(** strings.HasSuffix *)
Definition HasSuffix (s p : string) : bool :=
  (String.length p <=? String.length s)%nat
  && String.eqb (drop (String.length s - String.length p) s) p.

(** strings.Index *)
Fixpoint Index (s sub : string) : Z :=
  if has_prefix sub s then 0
  else match s with
       | EmptyString => -1
       | String _ s' => let k := Index s' sub in if k <? 0 then -1 else k + 1
       end.

(** strings.Cut *)
Definition Cut (s sep : string) : string * string * bool :=
  let i := Index s sep in
  if i <? 0 then (s, "", false)
  else (take (Z.to_nat i) s,
        drop (Z.to_nat i + String.length sep) s, true).

(** strings.Join *)
Fixpoint Join (l : list string) (sep : string) : string :=
  match l with
  | [] => ""
  | [x] => x
  | x :: l' => x +:+ sep +:+ Join l' sep
  end.

(** *** UTF-8 decoding *)

Definition is_cont (b : Z) : bool := (128 <=? b) && (b <=? 191).

Definition in_range (lo hi b : Z) : bool := (lo <=? b) && (b <=? hi).

Definition low6 (b : Z) : Z := Z.land b 63.

(** utf8.DecodeRuneInString: the first rune of [s] and its width in bytes;
    [(RuneError, 0)] for the empty string and [(RuneError, 1)] for an
    invalid encoding. *)
Definition DecodeRuneInString (s : string) : rune * Z :=
  match s with
  | EmptyString => (RuneError, 0)
  | String c0 s1 =>
      let b0 := byte_val c0 in
      if b0 <? 128 then (b0, 1)
      else if in_range 194 223 b0 then
        match s1 with
        | String c1 _ =>
            let b1 := byte_val c1 in
            if is_cont b1
            then (Z.lor (Z.shiftl (Z.land b0 31) 6) (low6 b1), 2)
            else (RuneError, 1)
        | _ => (RuneError, 1)
        end
      else if in_range 224 239 b0 then
        match s1 with
        | String c1 (String c2 _) =>
            let b1 := byte_val c1 in
            let b2 := byte_val c2 in
            let lo := if b0 =? 224 then 160 else 128 in
            let hi := if b0 =? 237 then 159 else 191 in
            if in_range lo hi b1 && is_cont b2
            then (Z.lor (Z.shiftl (Z.land b0 15) 12)
                    (Z.lor (Z.shiftl (low6 b1) 6) (low6 b2)), 3)
            else (RuneError, 1)
        | _ => (RuneError, 1)
        end
      else if in_range 240 244 b0 then
        match s1 with
        | String c1 (String c2 (String c3 _)) =>
            let b1 := byte_val c1 in
            let b2 := byte_val c2 in
            let b3 := byte_val c3 in
            let lo := if b0 =? 240 then 144 else 128 in
            let hi := if b0 =? 244 then 143 else 191 in
            if in_range lo hi b1 && is_cont b2 && is_cont b3
            then (Z.lor (Z.shiftl (Z.land b0 7) 18)
                    (Z.lor (Z.shiftl (low6 b1) 12)
                       (Z.lor (Z.shiftl (low6 b2) 6) (low6 b3))), 4)
            else (RuneError, 1)
        | _ => (RuneError, 1)
        end
      else (RuneError, 1)
  end.

(** The runes of a string as a [for i, c := range s] loop visits them: each
    with the bytes that encode it. *)
Fixpoint runes_fuel (fuel : nat) (s : string) : list (rune * string) :=
  match fuel, s with
  | O, _ => []
  | _, EmptyString => []
  | S fuel', _ =>
      let '(c, w) := DecodeRuneInString s in
      (c, take (Z.to_nat w) s) :: runes_fuel fuel' (drop (Z.to_nat w) s)
  end.

Definition runes (s : string) : list (rune * string) :=
  runes_fuel (String.length s) s.

(** unicode.IsSpace: the Latin-1 spaces and the code points with the
    White_Space property. *)
Definition IsSpace (r : rune) : bool :=
  in_range 9 13 r || (r =? 32) || (r =? 133) || (r =? 160) || (r =? 5760)
  || in_range 8192 8202 r || (r =? 8232) || (r =? 8233) || (r =? 8239)
  || (r =? 8287) || (r =? 12288).

End GoStr.
Import GoStr.

(** Characters that have no literal of their own. *)
Definition dquote : ascii := ascii_of_nat 34.
Definition tab : ascii := ascii_of_nat 9.
Definition newline : ascii := ascii_of_nat 10.
Definition formfeed : ascii := ascii_of_nat 12.
Definition cr : ascii := ascii_of_nat 13.

Definition str1 (c : ascii) : string := String c EmptyString.

Module GoText.

(** strings.Fields: the maximal runs of runes that are not white space. *)
Fixpoint fields_go (rs : list (rune * string)) (cur : option string)
  : list string :=
  match rs with
  | [] => match cur with Some w => [w] | None => [] end
  | (r, bs) :: rs' =>
      if IsSpace r
      then match cur with
           | Some w => w :: fields_go rs' None
           | None => fields_go rs' None
           end
      else fields_go rs'
             (Some (match cur with Some w => w +:+ bs | None => bs end))
  end.

Definition Fields (s : string) : list string := fields_go (runes s) None.

Fixpoint drop_spaces (rs : list (rune * string)) : list (rune * string) :=
  match rs with
  | (r, bs) :: rs' => if IsSpace r then drop_spaces rs' else rs
  | [] => []
  end.

Definition bytes_of (rs : list (rune * string)) : string :=
  fold_right (fun rb acc => snd rb +:+ acc) "" rs.

(** strings.TrimSpace *)
Definition TrimSpace (s : string) : string :=
  bytes_of (rev (drop_spaces (rev (drop_spaces (runes s))))).

(** What the Unicode tables say beyond ASCII is taken from the host. *)
Record Unicode := {
  letter_hi : rune -> bool;   (* unicode.IsLetter on code points >= 128 *)
  digit_hi : rune -> bool     (* unicode.IsDigit on code points >= 128 *)
}.

Definition IsLetter (U : Unicode) (r : rune) : bool :=
  if r <? 128 then in_range 65 90 r || in_range 97 122 r else letter_hi U r.

Definition IsDigit (U : Unicode) (r : rune) : bool :=
  if r <? 128 then in_range 48 57 r else digit_hi U r.

End GoText.
Import GoText.

(** ** The expander (expand.go) and isValidVarName (rules.go) *)

Module Expand.

Definition Vars := gmap string (list string).

(** The expander's surroundings: the process environment, the regexp
    library applied to the pattern built from a namelist's [a] and [b], the
    two flags read by expandShell, and the subshell run by a backtick
    span. *)
Record World := {
  unicode : Unicode;
  (* os.LookupEnv *)
  LookupEnv : string -> option string;
  (* whether regexp.MustCompile accepts the pattern that quotes a and b
     around one group matching any run of characters *)
  quoted_compiles : string -> string -> bool;
  (* FindStringSubmatch of that pattern on a value: submatch 1, if any *)
  quoted_submatch : string -> string -> string -> option string;
  defaultShell : string;
  dontDropArgs : bool;
  (* shell, arguments, variables, standard input; the words lexed from the
     command's output, or None when the command could not be run *)
  subshell : string -> list string -> Vars -> string -> option (list string)
}.

Section WithWorld.

Context (W : World).

(** isValidVarName: every rune is a letter, a digit or an underscore. *)
Definition isValidVarName (v : string) : bool :=
  forallb (fun rb => let c := fst rb in
                     IsLetter (unicode W) c || IsDigit (unicode W) c
                     || (c =? chr "_"))
          (runes v).

(** *** The namelist pattern

    expandSigil_namelist_pattern is, from the start of the text: white
    space, a non-empty run without colon (group 1), white space, a colon,
    white space, a run without percent sign (group 2), a percent sign, a run
    without equals sign (group 3), white space, an equals sign, white space,
    a run without percent sign (group 4), a percent sign, a run without
    percent sign (group 5), white space. It is matched the way the regexp
    library does: each repetition takes as much as it can and gives back
    only when what follows fails. Every character the pattern names is
    ASCII, so matching bytes and matching runes agree. *)

Definition re_space (c : ascii) : bool :=
  contains_byte (String tab (String newline (String formfeed (String cr " ")))) c.

Definition isnot (d : ascii) (c : ascii) : bool := negb (Ascii.eqb c d).

(** A greedy repetition of a character class followed by [k]. *)
Fixpoint re_star {R} (p : ascii -> bool) (s : string)
  (k : string -> string -> option R) : option R :=
  match s with
  | String c s' =>
      if p c
      then match re_star p s' (fun m r => k (String c m) r) with
           | Some x => Some x
           | None => k "" s
           end
      else k "" s
  | EmptyString => k "" s
  end.

Definition re_plus {R} (p : ascii -> bool) (s : string)
  (k : string -> string -> option R) : option R :=
  match s with
  | String c s' => if p c then re_star p s' (fun m r => k (String c m) r) else None
  | EmptyString => None
  end.

Definition re_char {R} (d : ascii) (s : string) (k : string -> option R)
  : option R :=
  match s with
  | String c s' => if Ascii.eqb c d then k s' else None
  | EmptyString => None
  end.

(** Submatches 1 to 5 of expandSigil_namelist_pattern on [s]. *)
Definition namelist_match (s : string)
  : option (string * string * string * string * string) :=
  re_star re_space s (fun _ s =>
  re_plus (isnot ":") s (fun m1 s =>
  re_star re_space s (fun _ s =>
  re_char ":" s (fun s =>
  re_star re_space s (fun _ s =>
  re_star (isnot "%") s (fun m2 s =>
  re_char "%" s (fun s =>
  re_star (isnot "=") s (fun m3 s =>
  re_star re_space s (fun _ s =>
  re_char "=" s (fun s =>
  re_star re_space s (fun _ s =>
  re_star (isnot "%") s (fun m4 s =>
  re_char "%" s (fun s =>
  re_star (isnot "%") s (fun m5 s =>
  re_star re_space s (fun _ _ =>
  Some (m1, m2, m3, m4, m5)))))))))))))))).

(** *** Escapes and quotes *)

(** The encoding of U+FFFD. *)
Definition replacement : string :=
  String (ascii_of_nat 239) (String (ascii_of_nat 191) (str1 (ascii_of_nat 189))).

(** [string(c)] for the rune [c] of width [w] just decoded from [input]:
    the bytes read, or the replacement character when they were invalid. *)
Definition rune_string (c : rune) (w : Z) (input : string) : string :=
  if c =? RuneError then replacement else take (Z.to_nat w) input.

(** Expand following a backslash. *)
Definition expandEscape (input : string) : string * Z :=
  let '(c, w) := DecodeRuneInString input in
  if (c =? chr tab) || (c =? chr " ") then (rune_string c w input, w)
  else if c =? chr newline then ("", w)
  else ("\" +:+ rune_string c w input, w).

(** Expand a single quoted string starting after the quote. *)
Definition expandSingleQuoted (input : string) : result (string * Z) :=
  let j := Index input "'" in
  if j <? 0 then Ok (input, len input)
  else let* s := slice_to input j in Ok (s, j + 1).

(** The scan of expandDoubleQuoted for the first quote that is not
    escaped: its offset, or None when the loop is left without one. Every
    round moves [i] forward, so [len(input) + 1] rounds are enough. *)
Fixpoint dq_scan (rounds : nat) (input : string) (i : Z)
  : result (option Z) :=
  match rounds with
  | O => OutOfFuel
  | S rounds' =>
      let* rest := slice_from input i in
      let j := IndexAny rest (String dquote "\") in
      if j <? 0 then Ok None
      else
        let j := j + i in
        let* rest := slice_from input j in
        let '(c, w) := DecodeRuneInString rest in
        let i := j + w in
        if c =? chr dquote then Ok (Some j)
        else if c =? chr "\" then
          if i <? len input then
            let* rest := slice_from input i in
            let '(_, w) := DecodeRuneInString rest in
            dq_scan rounds' input (i + w)
          else Ok None
        else dq_scan rounds' input i
  end.

(** Expand a double quoted string starting after the quote; [expand] is the
    expander the contents are given to. *)
Definition expandDoubleQuoted
  (expand : string -> bool -> result (list string))
  (input : string) (expandBackticks : bool) : result (string * Z) :=
  let* found := dq_scan (S (String.length input)) input 0 in
  match found with
  | Some j =>
      let* inner := slice_to input j in
      let* words := expand inner expandBackticks in
      Ok (Join words " ", j + 1)
  | None => Ok (input, len input)
  end.

(** *** Sigils *)

Section Sigil.

Context (vars : Vars).

(** The bare-variable scan of expandSigil: the offset of the first rune
    that cannot continue an identifier. *)
Fixpoint ident_scan (rounds : nat) (input : string) (j : Z) : result Z :=
  match rounds with
  | O => OutOfFuel
  | S rounds' =>
      if j <? len input then
        let* rest := slice_from input j in
        let '(c, w) := DecodeRuneInString rest in
        if negb (IsLetter (unicode W) c || (c =? chr "_")
                 || ((j >? 0) && IsDigit (unicode W) c))
        then Ok j
        else ident_scan rounds' input (j + w)
      else Ok j
  end.

(** The lookup shared by the bracketed and the bare form. *)
Definition lookup_sigil (input varname : string) (offset : Z)
  : result (list string * Z) :=
  if isValidVarName varname then
    match vars !! varname with
    | Some varvals => Ok (varvals, offset)
    | None =>
        match LookupEnv W varname with
        | Some varval => Ok ([varval], offset)
        | None => let* s := slice_to input offset in Ok (["$" +:+ s], offset)
        end
    end
  else
    match LookupEnv W varname with
    | Some varval => Ok ([varval], offset)
    | None => Ok (["$" +:+ input], len input)
    end.

(** Expand something starting after a dollar sign. *)
Definition expandSigil
  (expand : string -> bool -> result (list string))
  (input : string) : result (list string * Z) :=
  let '(c, w) := DecodeRuneInString input in
  if c =? chr "$" then Ok (["$"], 2)
  else if c =? chr "{" then
    let* rest := slice_from input w in
    let j := IndexByte rest "}" in
    if j <? 0 then Ok (["$" +:+ input], len input)
    else
      let* varname := slice input w (w + j) in
      let offset := w + j + 1 in
      match namelist_match varname with
      | Some (m1, a, b, c, d) =>
          if isValidVarName m1 then
            match vars !! m1 with
            | None => Ok ([], offset)
            | Some values =>
                if quoted_compiles W a b then
                  let* expanded_values :=
                    fold_left
                      (fun acc value =>
                         let* vs := acc in
                         match quoted_submatch W a b value with
                         | Some stem =>
                             let* ws := expand (c +:+ stem +:+ d) false in
                             Ok (vs ++ ws)%list
                         | None => Ok (vs ++ [value])%list
                         end)
                      values (Ok []) in
                  Ok (expanded_values, offset)
                else Panic
            end
          else lookup_sigil input varname offset
      | None => lookup_sigil input varname offset
      end
  else
    let* j := ident_scan (S (String.length input)) input 0 in
    if j >? 0 then
      let* varname := slice input 0 j in
      lookup_sigil input varname j
    else
      let offset := j + 1 in
      let* s := slice_to input offset in
      Ok (["$" +:+ s], offset).

End Sigil.

(** *** Backticks *)

(** Expand the shell command into cmd, args. *)
Definition expandShell (shcmd : string) (args : list string)
  : result (string * list string) :=
  match Fields shcmd with
  | [] => Panic                       (* fields[0] of an empty slice *)
  | shell :: shellargs =>
      if (0 <? Z.of_nat (length shellargs)) && (0 <? Z.of_nat (length args))
      then Ok (shell, (shellargs ++ args)%list)
      else if (0 <? Z.of_nat (length shellargs)) && dontDropArgs W
      then Ok (shell, (shellargs ++ args)%list)
      else Ok (shell, args)
  end.

(** Expand a backtick quoted string, by executing the contents. *)
Definition expandBackQuoted (vars : Vars) (input : string)
  : result (list string * Z) :=
  let j := Index input "`" in
  if j <? 0 then Ok ([input], len input)
  else
    let shcmd :=
      match vars !! "shell" with
      | Some (sh :: _) => sh
      | _ => defaultShell W
      end in
    let* '(shell, shellargs) := expandShell shcmd [] in
    let* stdin := slice_to input j in
    match subshell W shell shellargs vars stdin with
    | None => Ok ([], 0)
    | Some parts => Ok (parts, j + 1)
    end.

(** *** expand *)

(** The characters expand stops at. *)
Definition specials : string := String dquote "'`$\".

(** The end of expand: the accumulator, when not empty, is the last word. *)
Definition finish (parts : list string) (expanded : string) : list string :=
  if len expanded >? 0 then (parts ++ [expanded])%list else parts.

(** What a list-valued expansion does to the words so far and to the
    accumulator, for a sigil. *)
Definition splice_sigil (parts : list string) (expanded : string)
  (outparts : list string) : list string * string :=
  match outparts with
  | [] => (parts, expanded)
  | o0 :: rest =>
      let firstpart := expanded +:+ o0 in
      match rest with
      | [] => (parts, firstpart)
      | _ :: _ =>
          ((parts ++ [firstpart] ++ List.removelast rest)%list, List.last rest "")
      end
  end.

(** The same for a backtick span, which writes the prefixed first word back
    into the list before taking the last one. *)
Definition splice_backquote (parts : list string) (expanded : string)
  (outparts : list string) : list string * string :=
  match outparts with
  | [] => (parts, expanded)
  | o0 :: rest =>
      let outparts' := (expanded +:+ o0) :: rest in
      ((parts ++ List.removelast outparts')%list, List.last outparts' "")
  end.

(** The loop of expand, with the words [parts] and the accumulator
    [expanded] it has built so far. *)
Fixpoint expand_loop (vars : Vars) (fuel : nat) (input : string)
  (parts : list string) (expanded : string) (expandBackticks : bool)
  : result (list string) :=
  match fuel with
  | O => OutOfFuel
  | S fuel' =>
      if len input >? 0 then
        let j := IndexAny input specials in
        if j <? 0 then Ok (finish parts (expanded +:+ input))
        else
          let* pre := slice_to input j in
          let expanded := expanded +:+ pre in
          let* c := at_index input j in
          let* input := slice_from input (j + 1) in
          let again := fun s b => expand_loop vars fuel' s [] "" b in
          let* '(parts, expanded, off) :=
            if Ascii.eqb c "\" then
              let '(out, off) := expandEscape input in
              Ok (parts, expanded +:+ out, off)
            else if Ascii.eqb c dquote then
              let* '(out, off) :=
                expandDoubleQuoted again input expandBackticks in
              Ok (parts, expanded +:+ out, off)
            else if Ascii.eqb c "'" then
              let* '(out, off) := expandSingleQuoted input in
              Ok (parts, expanded +:+ out, off)
            else if Ascii.eqb c "`" then
              if expandBackticks then
                let* '(outparts, off) := expandBackQuoted vars input in
                let '(parts, expanded) :=
                  splice_backquote parts expanded outparts in
                Ok (parts, expanded, off)
              else Ok (parts, expanded +:+ input, len input)
            else if Ascii.eqb c "$" then
              let* '(outparts, off) := expandSigil vars again input in
              let '(parts, expanded) := splice_sigil parts expanded outparts in
              Ok (parts, expanded, off)
            else Ok (parts, expanded, 0) in
          let* input := slice_from input off in
          expand_loop vars fuel' input parts expanded expandBackticks
      else Ok (finish parts expanded)
  end.

(** Expand a word. This includes substituting variables and handling
    quotes. *)
Definition expand (fuel : nat) (input : string) (vars : Vars)
  (expandBackticks : bool) : result (list string) :=
  expand_loop vars fuel input [] "" expandBackticks.

(** *** Recipes *)

(** The loop of expandRecipeSigils with the text [expanded] written so
    far. *)
Fixpoint expandRecipeSigils_loop (vars : Vars) (fuel : nat) (input : string)
  (expanded : string) : result string :=
  match fuel with
  | O => OutOfFuel
  | S fuel' =>
      if len input >? 0 then
        let off := IndexAny input "$\" in
        if off <? 0 then Ok (expanded +:+ input)
        else
          let* pre := slice_to input off in
          let expanded := expanded +:+ pre in
          let* input := slice_from input off in
          let '(c, w) := DecodeRuneInString input in
          if c =? chr "$" then
            let* input := slice_from input w in
            let* '(ex, k) :=
              expandSigil vars (fun s b => expand_loop vars fuel' s [] "" b)
                          input in
            let* input := slice_from input k in
            expandRecipeSigils_loop vars fuel' input (expanded +:+ Join ex " ")
          else if c =? chr "\" then
            let* input := slice_from input w in
            let '(c, w) := DecodeRuneInString input in
            let expanded :=
              if c =? chr "$" then expanded +:+ "$"
              else expanded +:+ "\" +:+ rune_string c w input in
            let* input := slice_from input w in
            expandRecipeSigils_loop vars fuel' input expanded
          else expandRecipeSigils_loop vars fuel' input expanded
      else Ok expanded
  end.

(** Find and expand all sigils in a recipe, producing a flat string. *)
Definition expandRecipeSigils (fuel : nat) (input : string) (vars : Vars)
  : result string :=
  expandRecipeSigils_loop vars fuel input "".

(** *** Suffixes *)

(** The loop of expandSuffixes at index [i] with the bytes [expanded]
    written so far. *)
Fixpoint expandSuffixes_loop (fuel : nat) (input stem : string) (i : Z)
  (expanded : string) : result string :=
  match fuel with
  | O => OutOfFuel
  | S fuel' =>
      if i <? len input then
        let* rest := slice_from input i in
        let j := IndexAny rest "\%" in
        if j <? 0 then Ok (expanded +:+ rest)
        else
          let* at_j := slice_from input j in
          let '(c, w) := DecodeRuneInString at_j in
          let* seg := slice input i j in
          let expanded := expanded +:+ seg in
          if c =? chr "%" then
            expandSuffixes_loop fuel' input stem (j + w) (expanded +:+ stem)
          else
            let j := j + w in
            let* at_j := slice_from input j in
            let '(c, w) := DecodeRuneInString at_j in
            if c =? chr "%" then
              expandSuffixes_loop fuel' input stem (j + w) (expanded +:+ "%")
            else expandSuffixes_loop fuel' input stem i expanded
      else Ok expanded
  end.

(** Expand all unescaped percent signs. *)
Definition expandSuffixes (fuel : nat) (input stem : string) : result string :=
  expandSuffixes_loop fuel input stem 0 "".

End WithWorld.

End Expand.

(** ** Recipes (recipe.go) *)

Module Recipe.

(** What the calls of ReadString on a reader over [s] answer, one after the
    other, for the delimiter newline: every line with its newline, and at
    last the rest without one, which comes with io.EOF and may be empty. *)
Fixpoint read_lines (s : string) : list string :=
  match s with
  | EmptyString => [""]
  | String c s' =>
      if Ascii.eqb c newline then str1 newline :: read_lines s'
      else match read_lines s' with
           | l :: ls => String c l :: ls
           | [] => [str1 c]
           end
  end.

(** The inner loop of stripIndentation: the column reached over the runes
    [rs] of a line, starting from [col]. *)
Fixpoint indent_col (rs : list (rune * string)) (mincol col : Z) : Z :=
  match rs with
  | [] => col
  | (c, _) :: rs' =>
      if mincol <=? col then col
      else if negb (IsSpace c) then col
      else indent_col rs' mincol (col + 1)
  end.

(** Try to unindent a recipe, so that it begins at column 0. *)
Definition stripIndentation (s : string) (mincol : Z) : result string :=
  fold_left
    (fun acc line =>
       let* output := acc in
       let col := indent_col (runes line) mincol 0 in
       let* rest := slice_from line col in
       Ok (output +:+ rest))
    (read_lines s) (Ok "").

(** strings.Repeat of a blank; a negative count panics. *)
Definition blanks (n : Z) : result string :=
  if n <? 0 then Panic
  else Ok (fold_right (fun _ acc => String " " acc) ""
                      (List.repeat tt (Z.to_nat n))).

(** The loop of printIndented over the lines still to be read; the answer
    is what is written to [out]. *)
Fixpoint printIndented_lines (indentation : string) (lines : list string)
  (firstline : bool) : string :=
  match lines with
  | [] => ""
  | line :: lines' =>
      (if 0 <? len line
       then (if negb firstline then indentation else "") +:+ line
       else "")
      +:+ printIndented_lines indentation lines' false
  end.

(** Indent each line of a recipe. *)
Definition printIndented (s : string) (ind : Z) : result string :=
  let* indentation := blanks ind in
  Ok (printIndented_lines indentation (read_lines s) true).

End Recipe.

(** ** Rules and rule sets (rules.go) *)

Module Rules.

Record attribSet := {
  delFailed : bool;        (* delete targets when the recipe fails *)
  nonstop : bool;          (* don't stop if the recipe fails *)
  forcedTimestamp : bool;  (* update timestamp whether the recipe does or not *)
  nonvirtual : bool;       (* a meta-rule that will only match files *)
  quiet : bool;            (* don't print the recipe *)
  regex : bool;            (* regular expression meta-rule *)
  update : bool;           (* treat the targets as if they were updated *)
  virtual : bool;          (* rule is virtual (does not match files) *)
  exclusive : bool         (* don't execute concurrently with any other rule *)
}.

Definition no_attribs : attribSet :=
  {| delFailed := false; nonstop := false; forcedTimestamp := false;
     nonvirtual := false; quiet := false; regex := false; update := false;
     virtual := false; exclusive := false |}.

(** A target pattern; the compiled regular expression is kept as its
    source text. *)
Record pattern := {
  issuffix : bool;
  spat : string;
  rpat : option string
}.

Record rule := {
  targets : list pattern;
  attributes : attribSet;
  prereqs : list string;
  shell : list string;
  recipe : string;
  command : list string;
  ismeta : bool;
  file : string;
  line : Z
}.

Definition empty_rule : rule :=
  {| targets := []; attributes := no_attribs; prereqs := []; shell := [];
     recipe := ""; command := []; ismeta := false; file := ""; line := 0 |}.

Fixpoint strings_eqb (a b : list string) : bool :=
  match a, b with
  | [], [] => true
  | x :: a', y :: b' => String.eqb x y && strings_eqb a' b'
  | _, _ => false
  end.

(** Equivalent recipes. *)
Definition equivRecipe (r r2 : rule) : bool :=
  if negb (String.eqb (recipe r) (recipe r2)) then false
  else if negb (length (shell r) =? length (shell r2))%nat then false
  else strings_eqb (shell r) (shell r2).

Definition set_attributes (r : rule) (a : attribSet) : rule :=
  {| targets := targets r; attributes := a; prereqs := prereqs r;
     shell := shell r; recipe := recipe r; command := command r;
     ismeta := ismeta r; file := file r; line := line r |}.

Definition set_shell (r : rule) (sh : list string) : rule :=
  {| targets := targets r; attributes := attributes r; prereqs := prereqs r;
     shell := sh; recipe := recipe r; command := command r;
     ismeta := ismeta r; file := file r; line := line r |}.

Definition set_command (r : rule) (cmd : list string) : rule :=
  {| targets := targets r; attributes := attributes r; prereqs := prereqs r;
     shell := shell r; recipe := recipe r; command := cmd;
     ismeta := ismeta r; file := file r; line := line r |}.

(** How the loop over one attribute word ends. *)
Inductive attribStep :=
| attribNext (r : rule)       (* the word is used up *)
| attribDone (r : rule)       (* P or S took the rest: return nil *)
| attribError (r : rule) (found : rune). (* return an attribError *)

(** The switch of parseAttribs on the rune [c]; [a] is the attribute set so
    far. None stands for the cases P, S and default. *)
Definition set_attrib (a : attribSet) (c : rune) : option attribSet :=
  if c =? chr "D" then
    Some {| delFailed := true; nonstop := nonstop a;
            forcedTimestamp := forcedTimestamp a; nonvirtual := nonvirtual a;
            quiet := quiet a; regex := regex a; update := update a;
            virtual := virtual a; exclusive := exclusive a |}
  else if c =? chr "E" then
    Some {| delFailed := delFailed a; nonstop := true;
            forcedTimestamp := forcedTimestamp a; nonvirtual := nonvirtual a;
            quiet := quiet a; regex := regex a; update := update a;
            virtual := virtual a; exclusive := exclusive a |}
  else if c =? chr "N" then
    Some {| delFailed := delFailed a; nonstop := nonstop a;
            forcedTimestamp := true; nonvirtual := nonvirtual a;
            quiet := quiet a; regex := regex a; update := update a;
            virtual := virtual a; exclusive := exclusive a |}
  else if c =? chr "n" then
    Some {| delFailed := delFailed a; nonstop := nonstop a;
            forcedTimestamp := forcedTimestamp a; nonvirtual := true;
            quiet := quiet a; regex := regex a; update := update a;
            virtual := virtual a; exclusive := exclusive a |}
  else if c =? chr "Q" then
    Some {| delFailed := delFailed a; nonstop := nonstop a;
            forcedTimestamp := forcedTimestamp a; nonvirtual := nonvirtual a;
            quiet := true; regex := regex a; update := update a;
            virtual := virtual a; exclusive := exclusive a |}
  else if c =? chr "R" then
    Some {| delFailed := delFailed a; nonstop := nonstop a;
            forcedTimestamp := forcedTimestamp a; nonvirtual := nonvirtual a;
            quiet := quiet a; regex := true; update := update a;
            virtual := virtual a; exclusive := exclusive a |}
  else if c =? chr "U" then
    Some {| delFailed := delFailed a; nonstop := nonstop a;
            forcedTimestamp := forcedTimestamp a; nonvirtual := nonvirtual a;
            quiet := quiet a; regex := regex a; update := true;
            virtual := virtual a; exclusive := exclusive a |}
  else if c =? chr "V" then
    Some {| delFailed := delFailed a; nonstop := nonstop a;
            forcedTimestamp := forcedTimestamp a; nonvirtual := nonvirtual a;
            quiet := quiet a; regex := regex a; update := update a;
            virtual := true; exclusive := exclusive a |}
  else if c =? chr "X" then
    Some {| delFailed := delFailed a; nonstop := nonstop a;
            forcedTimestamp := forcedTimestamp a; nonvirtual := nonvirtual a;
            quiet := quiet a; regex := regex a; update := update a;
            virtual := virtual a; exclusive := true |}
  else None.

(** The inner loop of parseAttribs over the runes of one word; [later] are
    the words after it. *)
Fixpoint parseAttribs_word (r : rule) (rs : list (rune * string))
  (later : list string) : attribStep :=
  match rs with
  | [] => attribNext r
  | (c, _) :: rs' =>
      match set_attrib (attributes r) c with
      | Some a => parseAttribs_word (set_attributes r a) rs' later
      | None =>
          let tail := bytes_of rs' in
          let extra := if 0 <? len tail then [tail] else [] in
          if c =? chr "P" then
            attribDone (set_command r (command r ++ extra ++ later)%list)
          else if c =? chr "S" then
            attribDone (set_shell r (shell r ++ extra ++ later)%list)
          else attribError r c
      end
  end.

(** Read attributes for an array of strings, updating the rule. The rule is
    returned with the error, if any, since the caller keeps using it. *)
Fixpoint parseAttribs (r : rule) (inputs : list string)
  : rule * option rune :=
  match inputs with
  | [] => (r, None)
  | input :: later =>
      match parseAttribs_word r (runes input) later with
      | attribNext r' => parseAttribs r' later
      | attribDone r' => (r', None)
      | attribError r' c => (r', Some c)
      end
  end.

Record ruleSet := {
  vars : gmap string (list string);
  rules : list rule;
  targetrules : gmap string (list Z)
}.

(** Add a rule to the rule set. *)
Definition add (rs : ruleSet) (r : rule) : ruleSet :=
  let rules' := (rules rs ++ [r])%list in
  let k := Z.of_nat (length rules') - 1 in
  {| vars := vars rs;
     rules := rules';
     targetrules :=
       fold_left
         (fun m p =>
            match rpat p with
            | None => <[spat p := (default [] (m !! spat p) ++ [k])%list]> m
            | Some _ => m
            end)
         (targets r) (targetrules rs) |}.

End Rules.

(** ** The scheduler (mk.go) *)

Module Mk.

Import Rules.

(** Modelled from the spec: the status of a node, one of Ready, Started,
    Done, Nop and Failed; the type is declared in a file that is not among
    the sources. *)
Inductive nodeStatus :=
| nodeStatusReady
| nodeStatusStarted
| nodeStatusNop
| nodeStatusDone
| nodeStatusFailed.

Definition nodeStatus_eqb (a b : nodeStatus) : bool :=
  match a, b with
  | nodeStatusReady, nodeStatusReady
  | nodeStatusStarted, nodeStatusStarted
  | nodeStatusNop, nodeStatusNop
  | nodeStatusDone, nodeStatusDone
  | nodeStatusFailed, nodeStatusFailed => true
  | _, _ => false
  end.

(** Modelled from the spec: an edge binds one rule application, the rule
    and the prerequisite node it leads to; either may be missing. Nodes are
    referred to by name. *)
Record edge := {
  v : option string;
  r : option rule
}.

(** Modelled from the spec: a node has a name, an exists flag, a
    modification time, a status and its edges; mkNode also reads a rule
    from it. The mutex and the listeners have no place in a sequential
    run. *)
Record node := {
  name : string;
  node_r : option rule;
  node_exists : bool;
  t : Z;
  status : nodeStatus;
  prereqs : list edge
}.

Definition set_status (u : node) (s : nodeStatus) : node :=
  {| name := name u; node_r := node_r u; node_exists := node_exists u;
     t := t u; status := s; prereqs := prereqs u |}.

(** The state a build runs in: the nodes of the graph, the files with their
    modification times, and the targets whose recipe was handed to
    dorecipe, latest first. *)
Record state := {
  nodes : gmap string node;
  files : gmap string Z;
  made : list string
}.

Definition set_node (s : state) (k : string) (u : node) : state :=
  {| nodes := <[k := u]> (nodes s); files := files s; made := made s |}.

(** The flags and the recipe runner. *)
Record Driver := {
  rebuildall : bool;
  rebuildtargets : gmap string bool;
  (* running the recipe of a target: success, and the files afterwards *)
  run : string -> rule -> gmap string Z -> bool * gmap string Z
}.

Section WithDriver.

Context (D : Driver).

(** Modelled from the spec: updateTimestamp stats the target and records
    whether it exists and its modification time (the epoch when it does
    not); the method is defined in a file that is not among the sources. *)
Definition updateTimestamp (s : state) (u : node) : node :=
  match files s !! name u with
  | Some mt =>
      {| name := name u; node_r := node_r u; node_exists := true;
         t := mt; status := status u; prereqs := prereqs u |}
  | None =>
      {| name := name u; node_r := node_r u; node_exists := false;
         t := 0; status := status u; prereqs := prereqs u |}
  end.

(** dorecipe (recipe.go), as far as the scheduler sees it: a dry run
    succeeds without running anything. *)
Definition dorecipe (s : state) (u : node) (rl : rule) (dryrun : bool)
  : bool * state :=
  if dryrun
  then (true, {| nodes := nodes s; files := files s;
                 made := name u :: made s |})
  else let '(ok, files') := run D (name u) rl (files s) in
       (ok, {| nodes := nodes s; files := files';
               made := name u :: made s |}).

(** The edge with a rule that the loop of mkNode keeps (the last one), and
    the prerequisite nodes of all edges. *)
Definition select_edge (es : list edge) : option rule :=
  fold_left (fun e x => match r x with Some rl => Some rl | None => e end)
            es None.

Definition prereq_names (es : list edge) : list string :=
  omap v es.

Definition virtual_rule (o : option rule) : bool :=
  match o with Some rl => virtual (attributes rl) | None => false end.

(** The test of mkNode on a target that is not virtual, after
    updateTimestamp: [u] is the node, [ps] its prerequisite nodes. *)
Definition uptodate_files (u : node) (required : bool) (ps : list node)
  : bool :=
  if negb (node_exists u) && required then false
  else if node_exists u || required then
    forallb (fun p => negb ((t u <? t p)
                            || nodeStatus_eqb (status p) nodeStatusDone)) ps
  else if required then false
  else true.

(** Build a node's prereqs. Block until completed. In a sequential run the
    prerequisites that are Ready or Nop are built one after the other by
    [mk], and one that is Started is waited for without end. *)
Definition mkNodePrereqs
  (mk : state -> string -> bool -> bool -> result state)
  (s : state) (ps : list string) (dryrun required : bool)
  : result (nodeStatus * state) :=
  fold_left
    (fun acc p =>
       let* '(st, s) := acc in
       match nodes s !! p with
       | None => Panic
       | Some pn =>
           match status pn with
           | nodeStatusReady | nodeStatusNop =>
               let* s' := mk s p dryrun required in
               match nodes s' !! p with
               | Some pn' =>
                   Ok (if nodeStatus_eqb (status pn') nodeStatusFailed
                       then nodeStatusFailed else st, s')
               | None => Panic
               end
           | nodeStatusStarted => OutOfFuel
           | _ => Ok (st, s)
           end
       end)
    ps (Ok (nodeStatusDone, s)).

(** The deferred function of mkNode: store the final status. *)
Definition finished (s : state) (k : string) (finalstatus : nodeStatus)
  : result state :=
  match nodes s !! k with
  | Some u => Ok (set_node s k (set_status u finalstatus))
  | None => Panic
  end.

Definition lookup_nodes (s : state) (ps : list string) : result (list node) :=
  fold_right
    (fun p acc =>
       let* l := acc in
       match nodes s !! p with Some pn => Ok (pn :: l) | None => Panic end)
    (Ok []) ps.

(** Build a target in the graph: the node named [k]. *)
Fixpoint mkNode (fuel : nat) (s : state) (k : string)
  (dryrun required : bool) : result state :=
  match fuel with
  | O => OutOfFuel
  | S fuel' =>
      match nodes s !! k with
      | None => Panic
      | Some u =>
          if negb (nodeStatus_eqb (status u) nodeStatusReady)
             && negb (nodeStatus_eqb (status u) nodeStatusNop)
          then Ok s
          else
            let s := set_node s k (set_status u nodeStatusStarted) in
            let finalstatus := nodeStatusDone in
            match prereqs u with
            | [] =>
                if negb (virtual_rule (node_r u)) && negb (node_exists u)
                then Exit
                else finished s k nodeStatusNop
            | _ :: _ =>
                match select_edge (prereqs u) with
                | None => Exit
                | Some rl =>
                    let ps := prereq_names (prereqs u) in
                    let prereqsRequired :=
                      required
                      && (virtual (attributes rl) || negb (node_exists u)) in
                    let* '(_, s) :=
                      mkNodePrereqs (mkNode fuel') s ps dryrun
                                    prereqsRequired in
                    let* '(s, uptodate) :=
                      if negb (virtual (attributes rl)) then
                        match nodes s !! k with
                        | None => Panic
                        | Some u =>
                            let u := updateTimestamp s u in
                            let s := set_node s k u in
                            let* pns := lookup_nodes s ps in
                            Ok (s, uptodate_files u required pns)
                        end
                      else Ok (s, false) in
                    let isrebuildtarget :=
                      match rebuildtargets D !! name u with
                      | Some _ => true
                      | None => false
                      end in
                    let uptodate :=
                      if isrebuildtarget || rebuildall D then false
                      else uptodate in
                    let* '(_, s) :=
                      if negb uptodate
                      then mkNodePrereqs (mkNode fuel') s ps dryrun true
                      else Ok (nodeStatusDone, s) in
                    if negb uptodate
                       && negb (nodeStatus_eqb finalstatus nodeStatusFailed)
                       && (0 <? len (recipe rl))
                    then
                      match nodes s !! k with
                      | None => Panic
                      | Some u =>
                          let '(ok, s) := dorecipe s u rl dryrun in
                          let finalstatus :=
                            if ok then finalstatus else nodeStatusFailed in
                          let s := set_node s k (updateTimestamp s u) in
                          finished s k finalstatus
                      end
                    else if negb (nodeStatus_eqb finalstatus nodeStatusFailed)
                    then finished s k nodeStatusNop
                    else finished s k finalstatus
                end
            end
      end
  end.

End WithDriver.

End Mk.

(** ** The lexer (lex.go) over the reader (reader.go) *)

Module Lex.

Inductive tokenType :=
| tokenError
| tokenNewline
| tokenWord
| tokenPipeInclude
| tokenRedirInclude
| tokenColon
| tokenAssign
| tokenRecipe.

(** A token; its value is kept as the runes it was built from. *)
Record token := {
  typ : tokenType;
  val : list rune;
  tok_line : Z;
  tok_col : Z
}.

(** The states of the lexer, one for each state function. *)
Inductive lexerState :=
| lexTopLevel
| lexColon
| lexAssign
| lexComment
| lexInclude
| lexDoubleQuotedWord
| lexBackQuotedWord
| lexSingleQuotedWord
| lexRecipe
| lexBareWord
| lexBracketExpansion.

(** The lexer with the reader it embeds. Of the reader the embedding keeps
    the runes that it has still to deliver, [input], in place of the byte
    buffer they are decoded from. *)
Record lexer := {
  input : list rune;
  value : list rune;     (* token beginning *)
  pos : Z;               (* position within input *)
  line : Z;              (* line within input *)
  col : Z;               (* column within input *)
  indented : bool;       (* true if the only whitespace so far on this line *)
  output : list token;
  startcol : Z;
  errmsg : string;
  barewords : bool
}.

(** Return true if the string contains whitespace only. *)
Definition onlyWhitespace (s : list rune) : bool :=
  negb (existsb IsSpace s).

(** strings.ContainsRune for a set of ASCII characters. *)
Definition ContainsRune (set : string) (c : rune) : bool :=
  existsb (fun rb => fst rb =? c) (runes set).

Definition nonBareRunes : string :=
  " " +:+ String tab (String newline (String cr "\=:#'")) +:+ String dquote "$".

Section WithEof.

(** The rune that the reader answers at the end of its input; the constant
    is declared in neither lex.go nor reader.go. *)
Context (eof : rune).

(** Return the nth character without advancing. *)
Definition peekN (l : lexer) (n : nat) : rune := nth n (input l) eof.

Definition peek (l : lexer) : rune := peekN l 0.

(** Consume the next character in the lexer input. *)
Definition next (l : lexer) : lexer :=
  match input l with
  | [] => l
  | c :: rest =>
      let nl := c =? chr newline in
      {| input := rest;
         value := (value l ++ [c])%list;
         pos := pos l + 1;
         line := if nl then line l + 1 else line l;
         col := if nl then 0 else col l + 1;
         indented := if nl then true
                     else if negb (ContainsRune (" " +:+ str1 tab) c) then false
                     else indented l;
         output := output l; startcol := startcol l; errmsg := errmsg l;
         barewords := barewords l |}
  end.

(** Skip the next character in the lexer input. *)
Definition skip (l : lexer) : lexer :=
  let l := next l in
  {| input := input l; value := []; pos := pos l; line := line l;
     col := col l; indented := indented l; output := output l;
     startcol := col l; errmsg := errmsg l; barewords := barewords l |}.

Definition emit (l : lexer) (ty : tokenType) : lexer :=
  {| input := input l; value := []; pos := pos l; line := line l;
     col := col l; indented := indented l;
     output := (output l ++ [{| typ := ty; val := value l;
                                tok_line := line l;
                                tok_col := startcol l |}])%list;
     startcol := 0; errmsg := errmsg l; barewords := barewords l |}.

Definition lexerror (l : lexer) (what : string) : lexer :=
  let l := {| input := input l; value := value l; pos := pos l;
              line := line l; col := col l; indented := indented l;
              output := output l; startcol := startcol l;
              errmsg := if String.eqb (errmsg l) "" then what else errmsg l;
              barewords := barewords l |} in
  emit l tokenError.

Definition set_indented (l : lexer) (b : bool) : lexer :=
  {| input := input l; value := value l; pos := pos l; line := line l;
     col := col l; indented := b; output := output l;
     startcol := startcol l; errmsg := errmsg l; barewords := barewords l |}.

(** A loop [for cond { body }]. *)
Fixpoint while (fuel : nat) (cond : lexer -> bool) (body : lexer -> lexer)
  (l : lexer) : result lexer :=
  match fuel with
  | O => OutOfFuel
  | S fuel' => if cond l then while fuel' cond body (body l) else Ok l
  end.

(** Consume the next rune if it is in the given string. *)
Definition accept (l : lexer) (valid : string) : lexer * bool :=
  if negb (peek l =? RuneError) && ContainsRune valid (peek l)
  then (next l, true) else (l, false).

(** Consume characters from the valid string until the next is not. *)
Definition acceptRun (fuel : nat) (l : lexer) (valid : string) : result lexer :=
  while fuel
    (fun l => negb ((peek l =? RuneError) || negb (ContainsRune valid (peek l))))
    next l.

Definition eof_message (invalid : string) : string :=
  "end of file encountered while looking for one of: " +:+ invalid.

(** Accept until something from the given string is encountered, or the
    end of the file. *)
Definition acceptUntilOrEof (fuel : nat) (l : lexer) (invalid : string)
  : result lexer :=
  while fuel
    (fun l => negb ((peek l =? RuneError) || ContainsRune invalid (peek l)))
    next l.

(** Accept until something from the given string is encountered. *)
Definition acceptUntil (fuel : nat) (l : lexer) (invalid : string)
  : result lexer :=
  let* l := acceptUntilOrEof fuel l invalid in
  if peek l =? RuneError then Ok (lexerror l (eof_message invalid)) else Ok l.

(** Skip characters from the valid string until the next is not. *)
Definition skipRun (fuel : nat) (l : lexer) (valid : string) : result lexer :=
  while fuel (fun l => ContainsRune valid (peek l)) skip l.

(** Skip until something from the given string is encountered. *)
Definition skipUntil (fuel : nat) (l : lexer) (invalid : string)
  : result lexer :=
  let* l :=
    while fuel
      (fun l => negb ((peek l =? RuneError) || ContainsRune invalid (peek l)))
      skip l in
  if peek l =? RuneError then Ok (lexerror l (eof_message invalid)) else Ok l.

(** *** The state functions: the lexer after the call and the next state,
    None for nil. *)

Definition ws_line : string := " " +:+ String tab (str1 cr).
Definition ws_all : string := " " +:+ String tab (String cr (str1 newline)).
Definition ws_recipe : string := " " +:+ String tab (String newline (str1 cr)).

(** The loop at the head of lexTopLevel; the flag tells that it returned
    nil from inside, in barewords mode. *)
Fixpoint topLevel_loop (fuel : nat) (l : lexer) : result (lexer * bool) :=
  match fuel with
  | O => OutOfFuel
  | S fuel' =>
      let* l := skipRun fuel' l ws_line in
      let '(l, stop) :=
        if (peek l =? chr newline) && negb (indented l) then
          let l := next l in
          if barewords l then (l, true) else (emit l tokenNewline, false)
        else (l, false) in
      if stop then Ok (l, true)
      else
        let* l := skipRun fuel' l ws_all in
        if (peek l =? chr "\") && (peekN l 1 =? chr newline)
        then topLevel_loop fuel' (set_indented (next (next l)) false)
        else Ok (l, false)
  end.

Definition run_lexTopLevel (fuel : nat) (l : lexer)
  : result (lexer * option lexerState) :=
  let* '(l, stop) := topLevel_loop fuel l in
  if stop then Ok (l, None)
  else if indented l && (col l >? 0) then Ok (l, Some lexRecipe)
  else
    let c := peek l in
    if c =? RuneError then Ok (l, None)
    else if c =? chr "#" then Ok (l, Some lexComment)
    else if c =? chr "<" then Ok (l, Some lexInclude)
    else if c =? chr ":" then Ok (l, Some lexColon)
    else if c =? chr "=" then Ok (l, Some lexAssign)
    else if c =? chr dquote then Ok (l, Some lexDoubleQuotedWord)
    else if c =? chr "'" then Ok (l, Some lexSingleQuotedWord)
    else if c =? chr "`" then Ok (l, Some lexBackQuotedWord)
    else Ok (l, Some lexBareWord).

(** The loop of lexDoubleQuotedWord. *)
Fixpoint doubleQuoted_loop (fuel : nat) (l : lexer) : result lexer :=
  match fuel with
  | O => OutOfFuel
  | S fuel' =>
      if negb (peek l =? chr dquote) && negb (peek l =? RuneError) then
        let* l := acceptUntil fuel' l (String "\" (str1 dquote)) in
        let '(l, ok) := accept l "\" in
        let l := if ok then fst (accept l (str1 dquote)) else l in
        doubleQuoted_loop fuel' l
      else Ok l
  end.

(** The loop of lexRecipe: lines are accepted until one begins in column 0
    or with something that is not white space. *)
Fixpoint recipe_loop (fuel : nat) (l : lexer) : result lexer :=
  match fuel with
  | O => OutOfFuel
  | S fuel' =>
      let* l := acceptUntilOrEof fuel' l (str1 newline) in
      let* l := acceptRun fuel' l ws_recipe in
      if negb (indented l) || (col l =? 0) then Ok l
      else recipe_loop fuel' l
  end.

Definition run_lexRecipe (fuel : nat) (l : lexer)
  : result (lexer * option lexerState) :=
  let* l := recipe_loop fuel l in
  let l := if negb (onlyWhitespace (value l)) then emit l tokenRecipe else l in
  Ok (l, Some lexTopLevel).

Definition run_lexBareWord (fuel : nat) (l : lexer)
  : result (lexer * option lexerState) :=
  let* l := acceptUntil fuel l nonBareRunes in
  let c := peek l in
  if c =? chr dquote then Ok (l, Some lexDoubleQuotedWord)
  else if c =? chr "'" then Ok (l, Some lexSingleQuotedWord)
  else if c =? chr "`" then Ok (l, Some lexBackQuotedWord)
  else if c =? chr "\" then
    let c1 := peekN l 1 in
    if (c1 =? chr newline) || (c1 =? chr cr) then
      let l := if 0 <? Z.of_nat (length (value l)) then emit l tokenWord else l in
      Ok (skip (skip l), Some lexTopLevel)
    else Ok (next (next l), Some lexBareWord)
  else if c =? chr "$" then
    let c1 := peekN l 1 in
    if c1 =? chr "{" then Ok (l, Some lexBracketExpansion)
    else Ok (next l, Some lexBareWord)
  else
    let l := if 0 <? Z.of_nat (length (value l)) then emit l tokenWord else l in
    Ok (l, Some lexTopLevel).

(** One call of the state function [st]. *)
Definition run_state (fuel : nat) (st : lexerState) (l : lexer)
  : result (lexer * option lexerState) :=
  match st with
  | lexTopLevel => run_lexTopLevel fuel l
  | lexColon => Ok (emit (next l) tokenColon, Some lexTopLevel)
  | lexAssign => Ok (emit (next l) tokenAssign, Some lexTopLevel)
  | lexComment =>
      let* l := skipUntil fuel (skip l) (str1 newline) in
      Ok (l, Some lexTopLevel)
  | lexInclude =>
      let '(l, ok) := accept (next l) "|" in
      Ok (emit l (if ok then tokenPipeInclude else tokenRedirInclude),
          Some lexTopLevel)
  | lexDoubleQuotedWord =>
      let* l := doubleQuoted_loop fuel (next l) in
      let l :=
        if peek l =? RuneError
        then lexerror l "end of file encountered while parsing a quoted string."
        else l in
      Ok (next l, Some lexBareWord)
  | lexBackQuotedWord =>
      let* l := acceptUntil fuel (next l) "`" in
      Ok (next l, Some lexBareWord)
  | lexSingleQuotedWord =>
      let* l := acceptUntil fuel (next l) "'" in
      Ok (next l, Some lexBareWord)
  | lexRecipe => run_lexRecipe fuel l
  | lexBareWord => run_lexBareWord fuel l
  | lexBracketExpansion =>
      let* l := acceptUntil fuel (next (next l)) "}" in
      Ok (next l, Some lexBareWord)
  end.

(** Start a new lexer to lex the runes the reader delivers. *)
Definition lex (rs : list rune) (bw : bool) : lexer * option lexerState :=
  ({| input := rs; value := []; pos := 0; line := 1; col := 0;
      indented := true; output := []; startcol := 0; errmsg := "";
      barewords := bw |}, Some lexTopLevel).

Definition set_output (l : lexer) (out : list token) : lexer :=
  {| input := input l; value := value l; pos := pos l; line := line l;
     col := col l; indented := indented l; output := out;
     startcol := startcol l; errmsg := errmsg l; barewords := barewords l |}.

(** nextToken: run state functions until there is a token or the state is
    nil; the lexer and its state afterwards, and the token, if any. *)
Fixpoint nextToken (fuel : nat) (l : lexer) (st : option lexerState)
  : result (lexer * option lexerState * option token) :=
  match fuel with
  | O => OutOfFuel
  | S fuel' =>
      match st, output l with
      | Some f, [] =>
          let* '(l, st) := run_state fuel' f l in
          nextToken fuel' l st
      | _, [] => Ok (l, st, None)
      | _, tok :: out => Ok (set_output l out, st, Some tok)
      end
  end.

(** The tokens that the first [n] calls of nextToken answer. *)
Fixpoint first_tokens (n fuel : nat) (l : lexer) (st : option lexerState)
  : result (list token) :=
  match n with
  | O => Ok []
  | S n' =>
      let* '(l, st, otok) := nextToken fuel l st in
      match otok with
      | None => Ok []
      | Some tok => let* rest := first_tokens n' fuel l st in Ok (tok :: rest)
      end
  end.

End WithEof.

End Lex.

(** ** Assignments (rules.go) *)

Module Assign.

Import Lex.

(** The loop of executeAssignment over the tokens after the assignee, each
    given by its type and its value: a token that is no word, or that
    follows one that is no word, is glued to the last string. [prev] is the
    type of the token before, None for the first token of the loop. *)
Fixpoint assignment_input (ts : list (tokenType * string))
  (prev : option tokenType) (input : list string) : list string :=
  match ts with
  | [] => input
  | (ty, v) :: ts' =>
      let is_word t := match t with tokenWord => true | _ => false end in
      let glue :=
        negb (is_word ty)
        || match prev with Some p => negb (is_word p) | None => false end in
      let input :=
        if glue then
          match input with
          | [] => [v]
          | _ :: _ => (List.removelast input ++ [List.last input "" +:+ v])%list
          end
        else (input ++ [v])%list in
      assignment_input ts' (Some ty) input
  end.

(** Parse and execute assignment operation: the error, if any, and the
    variables afterwards. *)
Definition executeAssignment (W : Expand.World) (fuel : nat)
  (vars : Expand.Vars) (ts : list (tokenType * string))
  : result (option string * Expand.Vars) :=
  match ts with
  | [] => Panic
  | (_, assignee) :: rhs =>
      if negb (Expand.isValidVarName W assignee) then
        Ok (Some ("target of assignment is not a valid variable name: "
                  +:+ String dquote (assignee +:+ str1 dquote)), vars)
      else
        let input := assignment_input rhs None [] in
        let* vals :=
          fold_left
            (fun acc str =>
               let* vals := acc in
               let* ws := Expand.expand W fuel str vars true in
               Ok (vals ++ ws)%list)
            input (Ok []) in
        Ok (None, <[assignee := vals]> vars)
  end.

End Assign.

(** ** The graph walker (graph.go) and its mkfile reader *)

Module Graph.

(** An error value: nil, or an error with its message. *)
Definition error := option string.

(** fmt's %d *)
Definition itoa (n : Z) : string := NilZero.string_of_int (Z.to_int n).

(** strings.ReplaceAll for a pattern [old] that is not empty, which is the
    only way it is called here; [skip] bytes of a match are still to be
    dropped. *)
Fixpoint replace_go (old new : string) (skip : nat) (s : string) : string :=
  match s with
  | EmptyString => EmptyString
  | String c s' =>
      match skip with
      | S k => replace_go old new k s'
      | O =>
          if has_prefix old s
          then new +:+ replace_go old new (String.length old - 1) s'
          else String c (replace_go old new O s')
      end
  end.

Definition ReplaceAll (s old new : string) : string := replace_go old new O s.

(** errors.Join: nil values are dropped; nil when nothing is left,
    otherwise the messages on separate lines. *)
Definition errors_Join (errs : list error) : error :=
  match omap id errs with
  | [] => None
  | msgs => Some (Join msgs (str1 newline))
  end.

(** The rule attributes, bits of a RuleAttr. *)
Definition RuleDelete : Z := 1.
Definition RuleContinue : Z := 2.
Definition RuleAlwaysUpdate : Z := 4.
Definition RuleMeta : Z := 8.
Definition RuleQuiet : Z := 16.
Definition RuleRegex : Z := 32.
Definition RuleNoValidate : Z := 64.
Definition RuleVirtual : Z := 128.

(** How CompileTarget built the match function of a target. *)
Inductive matcher :=
| matchRegex                       (* a compiled regular expression *)
| matchStem (pre post : string)    (* the pattern cut at a percent sign or an ampersand *)
| matchConstant.

Record Target := {
  pat : string;
  matching : matcher;
  constant : bool
}.

Record Rule := {
  filename : string;
  linenr : Z;
  attrs : Z;
  program : string;
  targets : list Target;
  prereqs : list string;
  recipe : string
}.

Record Graph := {
  vars : gmap string string;
  rules : list Rule;
  pos_filename : string;
  pos_linenr : Z
}.

(** What the walker and the reader take from outside: the Unicode tables,
    the regexp library, the shell, the files that can be opened and the path
    library. *)
Record Host := {
  unicode : Unicode;
  regexp_compiles : string -> option string;    (* the error of regexp.Compile *)
  FindStringSubmatch : string -> string -> option (list string);
  shell : string;
  (* exec.Command(shell, -c, script) run with an environment on the files:
     its error and the files afterwards *)
  sh : string -> string -> gmap string string -> gmap string Z
       -> error * gmap string Z;
  (* the same for a backtick word: the output, or None when Run fails *)
  sh_output : string -> string -> gmap string string -> option string;
  (* os.Open followed by the scanner: the lines, or the error *)
  open_file : string -> list string + string;
  (* the output lines of an included command, or the error of starting it *)
  open_pipe : string -> string -> list string + string;
  path_Join : string -> string -> string;
  path_Dir : string -> string
}.

(** The files and the recipes run so far, latest first. *)
Record sys := {
  files : gmap string Z;
  ran : list string
}.

Section WithHost.

Context (H : Host).

(** The match function of a target: stem, submatches, and whether it
    matched. *)
Definition target_match (t : Target) (input : string)
  : result (string * list string * bool) :=
  match matching t with
  | matchRegex =>
      match FindStringSubmatch H (pat t) input with
      | Some m => Ok ("", m, true)
      | None => Ok ("", [], false)
      end
  | matchStem pre post =>
      if HasPrefix input pre && HasSuffix input post then
        let* stem := slice input (len pre) (len input - len post) in
        Ok (stem, [], true)
      else Ok ("", [], false)
  | matchConstant => Ok ("", [], String.eqb input (pat t))
  end.

Definition CompileTarget (p : string) (isregex : bool)
  : Target * bool * error :=
  if isregex then
    match regexp_compiles H p with
    | Some e =>
        ({| pat := p; matching := matchConstant; constant := false |}, false,
         Some ("invalid regular expression: `" +:+ p +:+ "`: " +:+ e))
    | None => ({| pat := p; matching := matchRegex; constant := false |},
               false, None)
    end
  else
    let '(pre, post, ok) := Cut p "%" in
    if ok then
      ({| pat := p; matching := matchStem pre post; constant := false |},
       false, None)
    else
      let '(pre, post, ok) := Cut p "&" in
      if ok then
        ({| pat := p; matching := matchStem pre post; constant := false |},
         false, None)
      else ({| pat := p; matching := matchConstant; constant := true |},
            true, None).

Definition DefaultTarget (g : Graph) : option Rule :=
  find (fun r => Z.land (attrs r) RuleMeta =? 0) (rules g).

(** The inner loop of FindRule over the targets of one rule. *)
Fixpoint match_targets (ts : list Target) (target : string)
  : result (option (string * list string)) :=
  match ts with
  | [] => Ok None
  | t :: ts' =>
      let* '(stem, subm, ok) := target_match t target in
      if ok then Ok (Some (stem, subm)) else match_targets ts' target
  end.

(** The outer loop of FindRule over the rules from [rs] on. *)
Fixpoint find_in (rs : list Rule) (target : string)
  : result (option (Rule * string * list string)) :=
  match rs with
  | [] => Ok None
  | r :: rs' =>
      let* m := match_targets (targets r) target in
      match m with
      | Some (stem, subm) => Ok (Some (r, stem, subm))
      | None => find_in rs' target
      end
  end.

Definition FindRule (g : Graph) (target : string)
  : result (option (Rule * string * list string)) :=
  find_in (rules g) target.

Definition isOutdated (fs : gmap string Z) (target : string)
  (prereqs : list string) : bool :=
  match fs !! target with
  | None => true
  | Some ttime =>
      existsb (fun p => match fs !! p with
                        | None => true
                        | Some ptime => ttime <? ptime
                        end) prereqs
  end.

(** A prerequisite template with the stem and the submatches filled in. *)
Definition substitute (stem : string) (subm : list string) (tmpl : string)
  : string :=
  let tmpl := if negb (String.eqb stem "") then ReplaceAll tmpl "%" stem
              else tmpl in
  snd (fold_left
         (fun '(i, tmpl) s => (i + 1, ReplaceAll tmpl ("\" +:+ itoa i) s))
         subm (0, tmpl)).

(** The variables a recipe is run with. *)
Definition recipe_vars (g : Graph) (target : string) (prereqs : list string)
  (stem : string) (subm : list string) : gmap string string :=
  let vs := <["prereq" := Join prereqs " "]> (<["target" := target]> (vars g)) in
  let vs := if negb (String.eqb stem "") then <["stem" := stem]> vs else vs in
  snd (fold_left
         (fun '(i, vs) s => (i + 1, <["subm" +:+ itoa i := s]> vs))
         subm (0, vs)).

Definition Contains (l : list string) (x : string) : bool :=
  existsb (String.eqb x) l.

(** BuildRule; [build] is Build, which the prerequisites are given to one
    after the other in the order of the rule. *)
Definition BuildRule
  (build : sys -> list string -> string -> result (error * sys))
  (g : Graph) (s : sys) (r : Rule) (history : list string)
  (target stem : string) (subm : list string) : result (error * sys) :=
  if Contains history target then
    let history := (history ++ [target])%list in
    Ok (Some ("circular dependency: " +:+ Join history "->"), s)
  else
    let history := (history ++ [target])%list in
    let* '(prereqs, errs, s) :=
      fold_left
        (fun acc tmpl =>
           let* '(prereqs, errs, s) := acc in
           let p := substitute stem subm tmpl in
           let* '(err, s) := build s history p in
           Ok ((prereqs ++ [p])%list, (errs ++ [err])%list, s))
        (prereqs r) (Ok ([], [], s)) in
    if 0 <? Z.of_nat (length errs) then Ok (errors_Join errs, s)
    else if negb (isOutdated (files s) target prereqs) then Ok (None, s)
    else if len (recipe r) =? 0 then Ok (None, s)
    else
      let env := recipe_vars g target prereqs stem subm in
      let '(err, files') := sh H (shell H) (recipe r) env (files s) in
      let s := {| files := files'; ran := recipe r :: ran s |} in
      match err with
      | Some e =>
          Ok (Some (filename r +:+ ":" +:+ itoa (linenr r)
                    +:+ ": unable to build: " +:+ e), s)
      | None => Ok (None, s)
      end.

Fixpoint Build (fuel : nat) (g : Graph) (s : sys) (history : list string)
  (target : string) : result (error * sys) :=
  match fuel with
  | O => OutOfFuel
  | S fuel' =>
      let* found := FindRule g target in
      match found with
      | Some (r, stem, subm) =>
          BuildRule (Build fuel' g) g s r history target stem subm
      | None =>
          match files s !! target with
          | Some _ => Ok (None, s)
          | None => Ok (Some ("don't know how to make `" +:+ target +:+ "`"), s)
          end
      end
  end.

(** *** Reading the mkfile *)

Definition Quotes : string := String dquote "'`".

(** findNextUnquoted; the state of the loop is the open quote, if any. The
    characters looked for are ASCII, so the bytes are visited. *)
Fixpoint findNextUnquoted_from (text chrs : string) (inQuote : option ascii)
  (i : Z) : option ascii * Z :=
  match text with
  | EmptyString => (None, -1)
  | String c text' =>
      match inQuote with
      | None =>
          if contains_byte Quotes c
          then findNextUnquoted_from text' chrs (Some c) (i + 1)
          else if contains_byte chrs c then (Some c, i)
          else findNextUnquoted_from text' chrs None (i + 1)
      | Some q =>
          if Ascii.eqb q c
          then findNextUnquoted_from text' chrs None (i + 1)
          else findNextUnquoted_from text' chrs inQuote (i + 1)
      end
  end.

Definition findNextUnquoted (text chrs : string) : option ascii * Z :=
  findNextUnquoted_from text chrs None 0.

(** The number of runes at the head of [rs] that can be part of a name. *)
Fixpoint ident_runes (rs : list (rune * string)) : Z :=
  match rs with
  | (c, _) :: rs' =>
      if negb (IsLetter (unicode H) c) && negb (IsDigit (unicode H) c)
         && negb (c =? chr "_")
      then 0 else 1 + ident_runes rs'
  | [] => 0
  end.

(** parseExpr expands a variable reference starting from text[0]. *)
Definition parseExpr (g : Graph) (text : string) (keep : bool)
  : result (string * Z) :=
  if len text =? 0 then Ok ("$", 0)
  else
    let* c0 := at_index text 0 in
    if Ascii.eqb c0 "{" then
      let fin := IndexByte text "}" in
      if fin =? -1 then Ok ("$", 0)
      else
        let* inner := slice text 1 fin in
        let '(key, expr, _) := Cut inner ":" in
        match vars g !! key with
        | None => if keep then Ok ("", fin + 1) else Ok ("$", 0)
        | Some val =>
            if 0 <? len expr then
              let* expr1 := slice_from expr 1 in
              let '(lhs, rhs, ok) := Cut expr1 "%" in
              if negb ok then
                if keep then Ok ("", fin + 1) else Ok ("$", 0)
              else
                let '(pre, post, _) := Cut lhs "%" in
                if HasPrefix val pre && HasSuffix val post then
                  let* perc := slice val (len pre) (len val - len post) in
                  Ok (ReplaceAll rhs "%" perc, fin + 1)
                else Ok (val, fin + 1)
            else Ok (val, fin + 1)
        end
    else
      let i := ident_runes (runes text) in
      if i =? 0 then Ok ("$", 0)
      else
        let* key := slice_to text i in
        match vars g !! key with
        | None => if keep then Ok ("", i) else Ok ("$", 0)
        | Some val => Ok (val, i)
        end.

(** The loop of expand over the dollar signs of [text]. *)
Fixpoint expand_loop (rounds : nat) (g : Graph) (text : string)
  (keep : bool) (out : string) : result string :=
  match rounds with
  | O => OutOfFuel
  | S rounds' =>
      let idx := IndexByte text "$" in
      if idx =? -1 then Ok (out +:+ text)
      else
        let* pre := slice_to text idx in
        let* rest := slice_from text (idx + 1) in
        let* '(val, n) := parseExpr g rest keep in
        let* text := slice_from text (idx + 1 + n) in
        expand_loop rounds' g text keep (out +:+ pre +:+ val)
  end.

(** expand replaces $var or ${var} with their values from the parser. Every
    round of the loop drops a dollar sign, so the length of the text bounds
    the rounds. *)
Definition expand (g : Graph) (text : string) (keep : bool) : result string :=
  let text := TrimSpace text in
  if len text =? 0 then Ok ""
  else
    let c0 := at_index text 0 in
    let cl := at_index text (len text - 1) in
    match c0, cl with
    | Ok a, Ok b =>
        if (2 <=? len text) && Ascii.eqb a "`" && Ascii.eqb b "`" then
          let* cmd := slice text 1 (len text - 1) in
          match sh_output H (shell H) cmd (vars g) with
          | Some out => Ok out
          | None => Panic
          end
        else expand_loop (S (String.length text)) g text keep ""
    | _, _ => Panic
    end.

Definition set_attrs (r : Rule) (a : Z) : Rule :=
  {| filename := filename r; linenr := linenr r; attrs := a;
     program := program r; targets := targets r; prereqs := prereqs r;
     recipe := recipe r |}.

Definition set_program (r : Rule) (p : string) : Rule :=
  {| filename := filename r; linenr := linenr r; attrs := attrs r;
     program := p; targets := targets r; prereqs := prereqs r;
     recipe := recipe r |}.

Definition set_targets (r : Rule) (ts : list Target) : Rule :=
  {| filename := filename r; linenr := linenr r; attrs := attrs r;
     program := program r; targets := ts; prereqs := prereqs r;
     recipe := recipe r |}.

Definition set_prereqs (r : Rule) (ps : list string) : Rule :=
  {| filename := filename r; linenr := linenr r; attrs := attrs r;
     program := program r; targets := targets r; prereqs := ps;
     recipe := recipe r |}.

Definition set_recipe (r : Rule) (rc : string) : Rule :=
  {| filename := filename r; linenr := linenr r; attrs := attrs r;
     program := program r; targets := targets r; prereqs := prereqs r;
     recipe := rc |}.

(** The attribute that parseAttributes ors into the rule for a letter. *)
Definition attribute_bit (c : ascii) : option Z :=
  if Ascii.eqb c "D" then Some RuleContinue
  else if Ascii.eqb c "E" then Some RuleDelete
  else if Ascii.eqb c "N" then Some RuleAlwaysUpdate
  else if Ascii.eqb c "n" then Some RuleMeta
  else if Ascii.eqb c "Q" then Some RuleQuiet
  else if Ascii.eqb c "R" then Some RuleRegex
  else if Ascii.eqb c "U" then Some RuleNoValidate
  else if Ascii.eqb c "V" then Some RuleVirtual
  else None.

(** fmt's %c of a byte: the encoding of the code point of that value. *)
Definition format_byte (c : ascii) : string :=
  let b := byte_val c in
  if b <? 128 then str1 c
  else String (ascii_of_nat (Z.to_nat (Z.lor 192 (Z.shiftr b 6))))
         (str1 (ascii_of_nat (Z.to_nat (Z.lor 128 (Z.land b 63))))).

(** The loop of parseAttributes; every round shortens the text. *)
Fixpoint parseAttributes_loop (rounds : nat) (r : Rule) (text : string)
  : result (Rule * string * error) :=
  match rounds with
  | O => OutOfFuel
  | S rounds' =>
      if contains_byte text ":" then
        let* c := at_index text 0 in
        match attribute_bit c with
        | Some bit =>
            let* text := slice_from text 1 in
            parseAttributes_loop rounds' (set_attrs r (Z.lor (attrs r) bit)) text
        | None =>
            if Ascii.eqb c "P" then
              let fin := IndexByte text ":" in
              let* prog := slice_to text fin in
              let* text := slice_from text fin in
              parseAttributes_loop rounds' (set_program r prog) text
            else if Ascii.eqb c ":" then
              let* text := slice_from text 1 in
              parseAttributes_loop rounds' r text
            else if Ascii.eqb c " " || Ascii.eqb c tab then Ok (r, text, None)
            else Ok (r, "",
                     Some ("invalid rule-attribute '" +:+ format_byte c +:+ "'"))
        end
      else Ok (r, text, None)
  end.

Definition parseAttributes (r : Rule) (text : string)
  : result (Rule * string * error) :=
  parseAttributes_loop (S (String.length text)) r text.

Definition same_pats (a b : list Target) : bool :=
  (length a =? length b)%nat
  && forallb (fun '(x, y) => String.eqb (pat x) (pat y)) (combine a b).

Definition list_string_eqb (a b : list string) : bool :=
  (length a =? length b)%nat
  && forallb (fun '(x, y) => String.eqb x y) (combine a b).

(** What the scan of parseRule over the existing rules ends with. *)
Inductive scanned :=
| scanMerged (rs : list Rule)     (* a rule was changed or replaced: return nil *)
| scanAmbiguous (msg : string)    (* return the error *)
| scanNoMatch.                    (* the loop ran to its end *)

(** The loop labelled rulescan: [r] is the new rule, [done] the rules
    already passed and [todo] those still to be looked at. *)
Fixpoint rulescan (r : Rule) (done todo : list Rule) : result scanned :=
  match todo with
  | [] => Ok scanNoMatch
  | existing :: todo' =>
      if negb (same_pats (targets r) (targets existing))
      then rulescan r (done ++ [existing])%list todo'
      else
        let hasRecipeA := negb (String.eqb (TrimSpace (recipe existing)) "") in
        let hasRecipeB := negb (String.eqb (TrimSpace (recipe r)) "") in
        let samePrereqs := list_string_eqb (prereqs existing) (prereqs r) in
        if negb hasRecipeA && hasRecipeB then
          Ok (scanMerged
                (done ++ set_prereqs existing
                           (prereqs existing ++ prereqs r)%list :: todo')%list)
        else if hasRecipeA && hasRecipeB && negb samePrereqs then
          match targets r with
          | t0 :: _ =>
              Ok (scanAmbiguous
                    (filename r +:+ ":" +:+ itoa (linenr r)
                     +:+ ": ambiguous recipe for target `" +:+ pat t0
                     +:+ "` with differing prerequisites"))
          | [] => Panic
          end
        else if samePrereqs then Ok (scanMerged (done ++ r :: todo')%list)
        else rulescan r (done ++ [existing])%list todo'
  end.

Definition set_rules (g : Graph) (rs : list Rule) : Graph :=
  {| vars := vars g; rules := rs; pos_filename := pos_filename g;
     pos_linenr := pos_linenr g |}.

(** The two loops of parseRule over the names of the targets and of the
    prerequisites. *)
Fixpoint compile_targets (g : Graph) (r : Rule) (names : list string)
  : result (Rule * error) :=
  match names with
  | [] => Ok (r, None)
  | name :: names' =>
      let* sname := expand g name false in
      if String.eqb sname "" then compile_targets g r names'
      else
        let '(t, isconst, err) :=
          CompileTarget sname (Z.land (attrs r) RuleRegex >? 0) in
        match err with
        | Some e => Ok (r, Some e)
        | None =>
            let r := if negb isconst
                     then set_attrs r (Z.lor (attrs r) RuleMeta) else r in
            compile_targets g (set_targets r (targets r ++ [t])%list) names'
        end
  end.

Fixpoint expand_prereqs (g : Graph) (r : Rule) (names : list string)
  : result Rule :=
  match names with
  | [] => Ok r
  | name :: names' =>
      let* sname := expand g name false in
      if String.eqb sname "" then expand_prereqs g r names'
      else expand_prereqs g (set_prereqs r (prereqs r ++ [sname])%list) names'
  end.

(** parseRule adds or merges rules, or errors on ambiguity. *)
Definition parseRule (g : Graph) (line : string) (idx : Z)
  : result (error * Graph) :=
  let r := {| filename := pos_filename g; linenr := pos_linenr g; attrs := 0;
              program := ""; targets := []; prereqs := []; recipe := "" |} in
  let* targetstr := slice_to line idx in
  let* prereqstr := slice_from line (idx + 1) in
  let* '(r, prereqstr, err) := parseAttributes r prereqstr in
  match err with
  | Some e => Ok (Some e, g)
  | None =>
      let targetstr := TrimSpace targetstr in
      let prereqstr := TrimSpace prereqstr in
      let* '(r, err) := compile_targets g r (Fields targetstr) in
      match err with
      | Some e => Ok (Some e, g)
      | None =>
          let* r := expand_prereqs g r (Fields prereqstr) in
          let* sc := rulescan r [] (rules g) in
          match sc with
          | scanMerged rs => Ok (None, set_rules g rs)
          | scanAmbiguous msg => Ok (Some msg, g)
          | scanNoMatch => Ok (None, set_rules g (rules g ++ [r])%list)
          end
      end
  end.

Definition parseVar (g : Graph) (line : string) (idx : Z)
  : result (error * Graph) :=
  let* l := slice_to line idx in
  let* r := slice_from line (idx + 1) in
  let* name := expand g (TrimSpace l) false in
  let* value := expand g (TrimSpace r) false in
  Ok (None, {| vars := <[name := value]> (vars g); rules := rules g;
               pos_filename := pos_filename g; pos_linenr := pos_linenr g |}).

(** parseInclude; [parsefile] is parseFile on the lines of the included
    stream. *)
Definition parseInclude
  (parsefile : Graph -> list string -> string -> string -> result (error * Graph))
  (g : Graph) (line : string) (idx : Z) (dir : string)
  : result (error * Graph) :=
  let* before := slice_to line idx in
  if negb (forallb (fun rb => IsSpace (fst rb)) (runes before))
  then Ok (Some ("garbage before include: " +:+ TrimSpace before), g)
  else
    let* line := slice_from line (idx + 1) in
    let piped :=
      match line with
      | String c _ => Ascii.eqb c "|"
      | EmptyString => false
      end in
    if piped then
      let* cmd := slice_from line 1 in
      match open_pipe H (shell H) cmd with
      | inr e => Ok (Some e, g)
      | inl lines =>
          let* '(_, g) := parsefile g lines dir "<command>" in
          Ok (None, g)
      end
    else
      let* name := expand g (TrimSpace line) false in
      let name := if negb (HasPrefix name "/") then path_Join H dir name
                  else name in
      match open_file H name with
      | inr e => Ok (Some e, g)
      | inl lines => parsefile g lines (path_Dir H name) name
      end.

(** A change to the last element of a slice. *)
Fixpoint update_last {A} (f : A -> A) (l : list A) : list A :=
  match l with
  | [] => []
  | [x] => [f x]
  | x :: l' => x :: update_last f l'
  end.

Definition append_recipe (r : Rule) (text : string) : Rule :=
  let rc := if 0 <? len (recipe r) then recipe r +:+ str1 newline
            else recipe r in
  set_recipe r (rc +:+ text).

(** parseLine parses a single line of input. *)
Definition parseLine
  (parsefile : Graph -> list string -> string -> string -> result (error * Graph))
  (g : Graph) (line : string) (dir : string) : result (error * Graph) :=
  let idx := snd (findNextUnquoted line "#") in
  let* line := if negb (idx =? -1) then slice_to line idx else Ok line in
  if String.eqb (TrimSpace line) "" then Ok (None, g)
  else
    let* c0 := at_index line 0 in
    if (0 <? Z.of_nat (length (rules g)))
       && (Ascii.eqb c0 " " || Ascii.eqb c0 tab)
    then
      let* text := slice_from line 1 in
      Ok (None,
          set_rules g (update_last (fun r => append_recipe r text) (rules g)))
    else
      let '(ch, idx) := findNextUnquoted line ":<=" in
      match ch with
      | Some c =>
          if Ascii.eqb c ":" then parseRule g line idx
          else if Ascii.eqb c "=" then parseVar g line idx
          else if Ascii.eqb c "<" then parseInclude parsefile g line idx dir
          else Ok (Some "syntax error; expected one of <:=", g)
      | None => Ok (Some "syntax error; expected one of <:=", g)
      end.

Definition set_pos (g : Graph) (fname : string) (n : Z) : Graph :=
  {| vars := vars g; rules := rules g; pos_filename := fname;
     pos_linenr := n |}.

(** The loop of parseFile over the scanned lines, with the continued line
    kept in [buf]. *)
Fixpoint parseFile_lines
  (parsefile : Graph -> list string -> string -> string -> result (error * Graph))
  (g : Graph) (lines : list string) (buf dir fname : string)
  : result (error * Graph) :=
  match lines with
  | [] => Ok (None, g)
  | line :: lines' =>
      let g := set_pos g (pos_filename g) (pos_linenr g + 1) in
      if HasSuffix line "\" then
        let* l := slice_to line (len line - 1) in
        parseFile_lines parsefile g lines' (buf +:+ l) dir fname
      else
        let* '(err, g) := parseLine parsefile g (buf +:+ line) dir in
        match err with
        | Some e =>
            Ok (Some (fname +:+ ":" +:+ itoa (pos_linenr g) +:+ ": " +:+ e), g)
        | None => parseFile_lines parsefile g lines' "" dir fname
        end
  end.

(** parseFile reads and parses the lines of a stream; the fuel bounds the
    depth of the includes. *)
Fixpoint parseFile (fuel : nat) (g : Graph) (lines : list string)
  (dir fname : string) : result (error * Graph) :=
  match fuel with
  | O => OutOfFuel
  | S fuel' =>
      parseFile_lines (parseFile fuel') (set_pos g fname 0) lines "" dir fname
  end.

End WithHost.

End Graph.

(** ** Notions used to state the properties, and sample surroundings *)

Module Path.

Import Graph.

(** The only prerequisite of the rule that FindRule selects for [t], with
    the stem and the submatches filled in; None when no rule is found or the
    rule does not have exactly one prerequisite. *)
Definition link_of (H : Host) (g : Graph) (t : string) : option string :=
  match FindRule H g t with
  | Ok (Some (r, stem, subm)) =>
      match prereqs r with
      | [tmpl] => Some (substitute stem subm tmpl)
      | _ => None
      end
  | _ => None
  end.

(** [chain H g path x]: every name of [path] has the next one as its only
    prerequisite, and the last one has [x]. *)
Fixpoint chain (H : Host) (g : Graph) (path : list string) (x : string)
  : Prop :=
  match path with
  | [] => False
  | [t] => link_of H g t = Some x
  | t :: (t' :: _) as rest => link_of H g t = Some t' /\ chain H g rest x
  end.

(** Whether FindRule selects some rule for [t]. *)
Definition has_rule (H : Host) (g : Graph) (t : string) : Prop :=
  exists found, FindRule H g t = Ok (Some found).

End Path.

(** Notions for the properties of the recipe texts, the rule sets, the
    assignments, the reader, the scheduler and the lexer. *)
Module Notions.

(** The lines of a text put together again. *)
Definition concat_lines (ls : list string) : string :=
  fold_right String.append "" ls.

(** What stripIndentation leaves of one line. *)
Definition stripped (mincol : Z) (line : string) : string :=
  drop (Z.to_nat (Recipe.indent_col (runes line) mincol 0)) line.

(** What printIndented writes for a line that is not the first. *)
Definition indent_line (indentation line : string) : string :=
  if 0 <? len line then indentation +:+ line else "".

(** [n] blanks, as strings.Repeat builds them. *)
Definition spaces (n : nat) : string :=
  fold_right (fun _ acc => String " " acc) "" (List.repeat tt n).

(** A text that is empty or begins with an ASCII character that is not
    white space. *)
Definition starts_unindented (s : string) : bool :=
  match s with
  | EmptyString => true
  | String c _ => (byte_val c <? 128) && negb (IsSpace (byte_val c))
  end.

(** The lists of lines that ReadString can answer: lines that end in their
    only newline, and a last one without newline. *)
Inductive lines_of : list string -> Prop :=
| lines_last last :
    contains_byte last newline = false -> lines_of [last]
| lines_cons b ls :
    contains_byte b newline = false -> lines_of ls ->
    lines_of ((b +:+ str1 newline) :: ls).

(** [a'] has every flag that [a] has. *)
Definition attribs_le (a a' : Rules.attribSet) : Prop :=
  (Rules.delFailed a = true -> Rules.delFailed a' = true)
  /\ (Rules.nonstop a = true -> Rules.nonstop a' = true)
  /\ (Rules.forcedTimestamp a = true -> Rules.forcedTimestamp a' = true)
  /\ (Rules.nonvirtual a = true -> Rules.nonvirtual a' = true)
  /\ (Rules.quiet a = true -> Rules.quiet a' = true)
  /\ (Rules.regex a = true -> Rules.regex a' = true)
  /\ (Rules.update a = true -> Rules.update a' = true)
  /\ (Rules.virtual a = true -> Rules.virtual a' = true)
  /\ (Rules.exclusive a = true -> Rules.exclusive a' = true).

(** [r'] is [r] but for flags switched on and words added to the command
    or the shell. *)
Definition rule_extends (r r' : Rules.rule) : Prop :=
  attribs_le (Rules.attributes r) (Rules.attributes r')
  /\ Rules.targets r' = Rules.targets r
  /\ Rules.prereqs r' = Rules.prereqs r
  /\ Rules.recipe r' = Rules.recipe r
  /\ Rules.ismeta r' = Rules.ismeta r
  /\ Rules.file r' = Rules.file r
  /\ Rules.line r' = Rules.line r
  /\ (exists more, Rules.command r' = (Rules.command r ++ more)%list)
  /\ (exists more, Rules.shell r' = (Rules.shell r ++ more)%list).

(** [x] is among the indexes that the map keeps for the target [t]. *)
Definition indexed (m : gmap string (list Z)) (t : string) (x : Z) : Prop :=
  exists ks, m !! t = Some ks /\ In x ks.

(** The rule at position [k] has the literal target [t]. *)
Definition listed (rs : list Rules.rule) (t : string) (k : nat) : Prop :=
  exists r p, nth_error rs k = Some r /\ In p (Rules.targets r)
              /\ Rules.rpat p = None /\ Rules.spat p = t.

(** The index of a rule set holds the positions of the rules with a literal
    target, and nothing else. *)
Definition index_exact (rs : Rules.ruleSet) : Prop :=
  forall t x, indexed (Rules.targetrules rs) t x
              <-> exists k, x = Z.of_nat k /\ listed (Rules.rules rs) t k.

(** A word that expand has nothing to do on. *)
Definition plain_word (w : string) : Prop :=
  0 < len w /\ IndexAny w Expand.specials = -1.

(** The token of a bare word, as executeAssignment is given it. *)
Definition word_token (w : string) : Lex.tokenType * string :=
  (Lex.tokenWord, w).

(** A text made of blanks and tabs only. *)
Fixpoint blank_only (ws : string) : bool :=
  match ws with
  | EmptyString => true
  | String c ws' => (Ascii.eqb c " " || Ascii.eqb c tab) && blank_only ws'
  end.

(** What a result says about the value it holds, if it holds one. *)
Definition returns {A} (m : result A) (P : A -> Prop) : Prop :=
  match m with Ok a => P a | _ => True end.

(** The statuses that mkNode leaves a node in. *)
Definition final_status (st : Mk.nodeStatus) : bool :=
  match st with
  | Mk.nodeStatusNop | Mk.nodeStatusDone | Mk.nodeStatusFailed => true
  | _ => false
  end.



End Notions.

Module Sample.

Definition ascii_only : Unicode :=
  {| letter_hi := fun _ => false; digit_hi := fun _ => false |}.

(** An empty process environment, no subshell, and a regexp library that
    is never asked. *)
Definition bare_world : Expand.World :=
  {| Expand.unicode := ascii_only;
     Expand.LookupEnv := fun _ => None;
     Expand.quoted_compiles := fun _ _ => true;
     Expand.quoted_submatch := fun _ _ _ => None;
     Expand.defaultShell := "sh -c";
     Expand.dontDropArgs := false;
     Expand.subshell := fun _ _ _ _ => None |}.

Definition x_abc : Expand.Vars := {[ "x" := ["a"; "b"; "c"] ]}.

(** A host whose shell succeeds without touching the files. *)
Definition bare_host : Graph.Host :=
  {| Graph.unicode := ascii_only;
     Graph.regexp_compiles := fun _ => None;
     Graph.FindStringSubmatch := fun _ _ => None;
     Graph.shell := "sh";
     Graph.sh := fun _ _ _ fs => (None, fs);
     Graph.sh_output := fun _ _ _ => None;
     Graph.open_file := fun _ => inr "no such file";
     Graph.open_pipe := fun _ _ => inr "cannot run";
     Graph.path_Join := fun d n => d +:+ "/" +:+ n;
     Graph.path_Dir := fun n => n |}.

Definition empty_graph : Graph.Graph :=
  {| Graph.vars := empty; Graph.rules := []; Graph.pos_filename := "";
     Graph.pos_linenr := 0 |}.

Definition no_files : Graph.sys := {| Graph.files := empty; Graph.ran := [] |}.

Definition rule_of (target : string) (prereqs : list string)
  (recipe : string) (n : Z) : Graph.Rule :=
  {| Graph.filename := "mkfile"; Graph.linenr := n; Graph.attrs := 0;
     Graph.program := "";
     Graph.targets := [{| Graph.pat := target;
                          Graph.matching := Graph.matchConstant;
                          Graph.constant := true |}];
     Graph.prereqs := prereqs; Graph.recipe := recipe |}.

(** The mkfile [a: b], [b: a], each with the recipe [:], and [r: a]. *)
Definition cycle_lines : list string :=
  ["a: b"; String tab ":"; "b: a"; String tab ":"; "r: a"].

Definition cycle_graph : Graph.Graph :=
  {| Graph.vars := empty;
     Graph.rules := [rule_of "a" ["b"] ":" 1; rule_of "b" ["a"] ":" 3;
                     rule_of "r" ["a"] "" 5];
     Graph.pos_filename := "mkfile"; Graph.pos_linenr := 5 |}.

(** A meta-rule defined before a literal rule for foo.o. *)
Definition meta_rule : Graph.Rule :=
  {| Graph.filename := "mkfile"; Graph.linenr := 1;
     Graph.attrs := Graph.RuleMeta; Graph.program := "";
     Graph.targets := [{| Graph.pat := "%.o";
                          Graph.matching := Graph.matchStem "" ".o";
                          Graph.constant := false |}];
     Graph.prereqs := ["%.c"]; Graph.recipe := "cc" |}.

Definition literal_rule : Graph.Rule := rule_of "foo.o" ["foo.h"] "special" 3.

Definition meta_first : Graph.Graph :=
  {| Graph.vars := empty; Graph.rules := [meta_rule; literal_rule];
     Graph.pos_filename := "mkfile"; Graph.pos_linenr := 4 |}.

Definition literal_first : Graph.Graph :=
  {| Graph.vars := empty; Graph.rules := [literal_rule; meta_rule];
     Graph.pos_filename := "mkfile"; Graph.pos_linenr := 4 |}.

(** A target [out] made from [src] by a rule with a recipe; [out] is the
    newer of the two files. *)
Definition out_rule : Rules.rule :=
  {| Rules.targets := [{| Rules.issuffix := false; Rules.spat := "out";
                          Rules.rpat := None |}];
     Rules.attributes := Rules.no_attribs; Rules.prereqs := ["src"];
     Rules.shell := ["sh"]; Rules.recipe := "cp src out";
     Rules.command := []; Rules.ismeta := false; Rules.file := "mkfile";
     Rules.line := 1 |}.

Definition out_node : Mk.node :=
  {| Mk.name := "out"; Mk.node_r := None; Mk.node_exists := true; Mk.t := 20;
     Mk.status := Mk.nodeStatusReady;
     Mk.prereqs := [{| Mk.v := Some "src"; Mk.r := Some out_rule |}] |}.

Definition src_node : Mk.node :=
  {| Mk.name := "src"; Mk.node_r := None; Mk.node_exists := true; Mk.t := 10;
     Mk.status := Mk.nodeStatusReady; Mk.prereqs := [] |}.

Definition fresh_state : Mk.state :=
  {| Mk.nodes := {[ "out" := out_node; "src" := src_node ]};
     Mk.files := {[ "out" := 20; "src" := 10 ]};
     Mk.made := [] |}.

(** No force flag; a recipe that is run fails. *)
Definition plain_driver : Mk.Driver :=
  {| Mk.rebuildall := false; Mk.rebuildtargets := empty;
     Mk.run := fun _ _ fs => (false, fs) |}.

(** The runes of a mkfile whose rule [a:] is followed by an indented line
    made of a form feed, and then by the rule [b:]. *)
Definition formfeed_mkfile : list rune :=
  map fst (runes ("a:" +:+ String newline (String tab (String formfeed
                    (String newline ("b:" +:+ str1 newline)))))).

(** The state [fresh_state] is in when mkNode has looked at the
    prerequisite of [out]. *)
Definition checked_state : Mk.state :=
  {| Mk.nodes := {[ "out" := Mk.set_status out_node Mk.nodeStatusStarted;
                    "src" := Mk.set_status src_node Mk.nodeStatusNop ]};
     Mk.files := {[ "out" := 20; "src" := 10 ]};
     Mk.made := [] |}.

(** One rule, [out: src] with a recipe, and the files when only [src] is
    there. *)
Definition copy_graph : Graph.Graph :=
  {| Graph.vars := empty;
     Graph.rules := [rule_of "out" ["src"] "cp src out" 1];
     Graph.pos_filename := "mkfile"; Graph.pos_linenr := 2 |}.

Definition src_only : Graph.sys :=
  {| Graph.files := {[ "src" := 10 ]}; Graph.ran := [] |}.

(** A rule without prerequisites for [src]. *)
Definition leaf_rule : Graph.Rule := rule_of "src" [] "touch src" 1.

(** [copy_graph] after the rule line [out: src] has been read again. *)
Definition out_retargeted : Graph.Graph :=
  {| Graph.vars := empty; Graph.rules := [rule_of "out" ["src"] "" 2];
     Graph.pos_filename := "mkfile"; Graph.pos_linenr := 2 |}.

(** The nodes of [fresh_state] with [out] older than [src]. *)
Definition stale_state : Mk.state :=
  {| Mk.nodes := Mk.nodes fresh_state;
     Mk.files := {[ "out" := 5; "src" := 10 ]};
     Mk.made := [] |}.

(** The state after a dry run of [out] in [stale_state]. *)
Definition stale_dry_run : Mk.state :=
  {| Mk.nodes :=
       {[ "out" := {| Mk.name := "out"; Mk.node_r := None;
                      Mk.node_exists := true; Mk.t := 5;
                      Mk.status := Mk.nodeStatusDone;
                      Mk.prereqs := Mk.prereqs out_node |};
          "src" := Mk.set_status src_node Mk.nodeStatusNop ]};
     Mk.files := {[ "out" := 5; "src" := 10 ]};
     Mk.made := ["out"] |}.

(** A graph that binds the variable SRC. *)
Definition objs_graph : Graph.Graph :=
  {| Graph.vars := {[ "SRC" := "main.c" ]}; Graph.rules := [];
     Graph.pos_filename := "mkfile"; Graph.pos_linenr := 1 |}.

End Sample.

(** * Properties *)

(** ** Strings *)

Module StrFacts.

(** Lengths, slices and searches on concatenations. *)

Lemma len_nonneg s : 0 <= len s.
Proof. unfold len. lia. Qed.

Lemma len_String c s : len (String c s) = len s + 1.
Proof. unfold len. cbn [String.length]. lia. Qed.

Lemma take_all s : take (String.length s) s = s.
Proof. induction s as [|c s IH]; cbn [String.length take]; [reflexivity|]. rewrite IH. reflexivity. Qed.

Lemma drop_all s : drop (String.length s) s = "".
Proof. induction s as [|c s IH]; cbn [String.length drop]; [reflexivity|exact IH]. Qed.

Lemma take_app a b : take (String.length a) (a +:+ b) = a.
Proof.
  induction a as [|c a IH]; [reflexivity|].
  change (String c a +:+ b) with (String c (a +:+ b)).
  cbn [String.length take]. rewrite IH. reflexivity.
Qed.

Lemma drop_app a b : drop (String.length a) (a +:+ b) = b.
Proof.
  induction a as [|c a IH]; [reflexivity|].
  change (String c a +:+ b) with (String c (a +:+ b)).
  cbn [String.length drop]. exact IH.
Qed.

Lemma length_app a b :
  String.length (a +:+ b) = (String.length a + String.length b)%nat.
Proof.
  induction a as [|c a IH]; [reflexivity|].
  change (String c a +:+ b) with (String c (a +:+ b)).
  cbn [String.length]. rewrite IH. reflexivity.
Qed.

(** The whole of a string is a slice of it. *)
Lemma slice_whole s : slice s 0 (len s) = Ok s.
Proof.
  unfold slice. pose proof (len_nonneg s).
  replace (0 <=? 0) with true by reflexivity.
  replace (0 <=? len s) with true by (symmetry; apply Z.leb_le; lia).
  rewrite Z.leb_refl. cbn [andb].
  rewrite Z.sub_0_r. unfold len. rewrite Nat2Z.id.
  change (Z.to_nat 0) with 0%nat. cbn [drop].
  rewrite take_all. reflexivity.
Qed.

(** Slices at the seam of a concatenation. *)
Lemma slice_prefix a b : slice (a +:+ b) 0 (len a) = Ok a.
Proof.
  unfold slice. pose proof (len_nonneg a). pose proof (len_nonneg b).
  replace (0 <=? 0) with true by reflexivity.
  replace (0 <=? len a) with true by (symmetry; apply Z.leb_le; lia).
  replace (len a <=? len (a +:+ b)) with true.
  2:{ symmetry. apply Z.leb_le. unfold len. rewrite length_app. lia. }
  cbn [andb]. rewrite Z.sub_0_r. unfold len. rewrite Nat2Z.id.
  change (Z.to_nat 0) with 0%nat. cbn [drop].
  rewrite take_app. reflexivity.
Qed.

Lemma slice_from_suffix a b : slice_from (a +:+ b) (len a) = Ok b.
Proof.
  unfold slice_from, slice. pose proof (len_nonneg a). pose proof (len_nonneg b).
  assert (Hl : len (a +:+ b) = len a + len b).
  { unfold len. rewrite length_app. lia. }
  replace (0 <=? len a) with true by (symmetry; apply Z.leb_le; lia).
  replace (len a <=? len (a +:+ b)) with true by (symmetry; apply Z.leb_le; lia).
  rewrite Z.leb_refl. cbn [andb].
  replace (len (a +:+ b) - len a) with (len b) by lia.
  unfold len. rewrite !Nat2Z.id. rewrite drop_app, take_all. reflexivity.
Qed.

Lemma index_where_lower p s : -1 <= index_where p s.
Proof.
  induction s as [|c s IH]; cbn [index_where]; [lia|].
  destruct (p c); [lia|].
  destruct (index_where p s <? 0) eqn:E; lia.
Qed.

(** The first byte with a property is found past a prefix without one. *)
Lemma index_where_app p a c b :
  index_where p a = -1 -> p c = true ->
  index_where p (a +:+ String c b) = len a.
Proof.
  intros Ha Hc. induction a as [|d a IH].
  - change ("" +:+ String c b) with (String c b). cbn [index_where].
    rewrite Hc. reflexivity.
  - change (String d a +:+ String c b) with (String d (a +:+ String c b)).
    cbn [index_where] in Ha |- *.
    destruct (p d); [discriminate|].
    pose proof (index_where_lower p a).
    destruct (index_where p a <? 0) eqn:E.
    + apply Z.ltb_lt in E. rewrite IH by lia.
      pose proof (len_nonneg a).
      replace (len a <? 0) with false by (symmetry; apply Z.ltb_ge; lia).
      rewrite len_String. reflexivity.
    + lia.
Qed.

Lemma slice_middle a b c :
  slice (a +:+ b +:+ c) (len a) (len a + len b) = Ok b.
Proof.
  unfold slice. pose proof (len_nonneg a). pose proof (len_nonneg b).
  pose proof (len_nonneg c).
  assert (Hl : len (a +:+ b +:+ c) = len a + len b + len c).
  { unfold len. rewrite !length_app. lia. }
  replace (0 <=? len a) with true by (symmetry; apply Z.leb_le; lia).
  replace (len a <=? len a + len b) with true by (symmetry; apply Z.leb_le; lia).
  replace (len a + len b <=? len (a +:+ b +:+ c)) with true
    by (symmetry; apply Z.leb_le; lia).
  cbn [andb]. replace (len a + len b - len a) with (len b) by lia.
  unfold len. rewrite !Nat2Z.id. rewrite drop_app, take_app. reflexivity.
Qed.

Lemma append_assoc a b c : (a +:+ b) +:+ c = a +:+ (b +:+ c).
Proof.
  induction a as [|d a IH]; [reflexivity|].
  change (String d a +:+ b) with (String d (a +:+ b)).
  change (String d (a +:+ b) +:+ c) with (String d ((a +:+ b) +:+ c)).
  rewrite IH. reflexivity.
Qed.

Lemma append_nil_r s : s +:+ "" = s.
Proof.
  induction s as [|c s IH]; [reflexivity|].
  change (String c s +:+ "") with (String c (s +:+ "")). rewrite IH. reflexivity.
Qed.

Lemma len_append a b : len (a +:+ b) = len a + len b.
Proof. unfold len. rewrite length_app. lia. Qed.

(** Further facts on slices, prefixes, suffixes and cuts. *)

Lemma at_index_app a c b : at_index (a +:+ String c b) (len a) = Ok c.
Proof.
  unfold at_index. pose proof (len_nonneg a) as Ha. pose proof (len_nonneg b) as Hb.
  replace (0 <=? len a) with true by (symmetry; apply Z.leb_le; lia).
  replace (len a <? len (a +:+ String c b)) with true.
  2:{ symmetry. apply Z.ltb_lt. rewrite len_append, len_String. lia. }
  cbn [andb]. unfold len. rewrite Nat2Z.id, drop_app. reflexivity.
Qed.

Lemma slice_from_end s : slice_from s (len s) = Ok "".
Proof.
  replace s with (s +:+ "") at 1 by apply append_nil_r.
  apply slice_from_suffix.
Qed.

Lemma slice_from_0 s : slice_from s 0 = Ok s.
Proof. unfold slice_from. apply slice_whole. Qed.

Lemma slice_from_1 c s : slice_from (String c s) 1 = Ok s.
Proof. exact (slice_from_suffix (str1 c) s). Qed.

Lemma slice_from_after a c b :
  slice_from (a +:+ String c b) (len a + 1) = Ok b.
Proof.
  replace (a +:+ String c b) with ((a +:+ str1 c) +:+ b)
    by (rewrite append_assoc; reflexivity).
  replace (len a + 1) with (len (a +:+ str1 c))
    by (rewrite len_append; reflexivity).
  apply slice_from_suffix.
Qed.

Lemma slice_to_prefix a b : slice_to (a +:+ b) (len a) = Ok a.
Proof. unfold slice_to. apply slice_prefix. Qed.

Lemma len_pos_gtb s : 0 < len s -> (len s >? 0) = true.
Proof. intros. apply Z.gtb_lt. lia. Qed.

Lemma len_zero s : len s <= 0 -> s = "".
Proof.
  destruct s as [|c s]; [reflexivity|]. rewrite len_String.
  pose proof (len_nonneg s). lia.
Qed.

Lemma take_drop n s : take n s +:+ drop n s = s.
Proof.
  revert s. induction n as [|n IH]; intros s; [reflexivity|].
  destruct s as [|c s]; [reflexivity|]. cbn [take drop].
  change (String c (take n s) +:+ drop n s) with (String c (take n s +:+ drop n s)).
  rewrite IH. reflexivity.
Qed.

Lemma length_drop n s : String.length (drop n s) = (String.length s - n)%nat.
Proof.
  revert s. induction n as [|n IH]; intros s; cbn [drop]; [lia|].
  destruct s as [|c s]; cbn [String.length]; [reflexivity|]. apply IH.
Qed.

Lemma drop_drop n m s : drop n (drop m s) = drop (m + n) s.
Proof.
  revert s. induction m as [|m IH]; intros s; [reflexivity|].
  destruct s as [|c s]; cbn [drop Nat.add].
  - destruct n; reflexivity.
  - apply IH.
Qed.

Lemma append_inj_l a b c : a +:+ b = a +:+ c -> b = c.
Proof.
  induction a as [|d a IH]; [trivial|].
  change (String d a +:+ b) with (String d (a +:+ b)).
  change (String d a +:+ c) with (String d (a +:+ c)).
  intros [= Heq]. apply IH. exact Heq.
Qed.

Lemma slice_from_drop s i :
  0 <= i <= len s -> slice_from s i = Ok (drop (Z.to_nat i) s).
Proof.
  intros [H0 H1]. unfold slice_from, slice.
  replace (0 <=? i) with true by (symmetry; apply Z.leb_le; lia).
  replace (i <=? len s) with true by (symmetry; apply Z.leb_le; lia).
  rewrite Z.leb_refl. cbn [andb].
  replace (Z.to_nat (len s - i)) with (String.length (drop (Z.to_nat i) s)).
  - rewrite take_all. reflexivity.
  - rewrite length_drop. unfold len in *. lia.
Qed.

Lemma contains_byte_app a b c :
  contains_byte (a +:+ b) c = contains_byte a c || contains_byte b c.
Proof.
  induction a as [|d a IH]; [reflexivity|].
  change (String d a +:+ b) with (String d (a +:+ b)). cbn [contains_byte].
  destruct (Ascii.eqb c d); [reflexivity|exact IH].
Qed.

Lemma index_where_none_weaken (p q : ascii -> bool) s :
  (forall c, p c = false -> q c = false) ->
  index_where p s = -1 -> index_where q s = -1.
Proof.
  intros Hpq. induction s as [|c s IH]; cbn [index_where]; [trivial|].
  destruct (p c) eqn:Hp; [discriminate|]. rewrite (Hpq c Hp).
  pose proof (index_where_lower p s).
  destruct (index_where p s <? 0) eqn:E.
  - apply Z.ltb_lt in E. intros _. rewrite IH by lia. reflexivity.
  - lia.
Qed.

Lemma has_prefix_app p x : has_prefix p (p +:+ x) = true.
Proof.
  induction p as [|c p IH]; [reflexivity|].
  change (String c p +:+ x) with (String c (p +:+ x)). cbn [has_prefix].
  rewrite Ascii.eqb_refl. exact IH.
Qed.

Lemma has_prefix_split p s :
  has_prefix p s = true -> s = p +:+ drop (String.length p) s.
Proof.
  revert s. induction p as [|c p IH]; intros s Hp; [reflexivity|].
  destruct s as [|d s]; [discriminate|]. cbn [has_prefix] in Hp.
  apply andb_true_iff in Hp as [Hc Hp]. apply Ascii.eqb_eq in Hc. subst d.
  cbn [String.length drop].
  change (String c p +:+ drop (String.length p) s)
    with (String c (p +:+ drop (String.length p) s)).
  rewrite <- IH by exact Hp. reflexivity.
Qed.

Lemma HasSuffix_app x p : HasSuffix (x +:+ p) p = true.
Proof.
  unfold HasSuffix. rewrite length_app.
  replace (String.length p <=? String.length x + String.length p)%nat with true
    by (symmetry; apply Nat.leb_le; lia).
  replace (String.length x + String.length p - String.length p)%nat
    with (String.length x) by lia.
  rewrite drop_app. rewrite String.eqb_refl. reflexivity.
Qed.

Lemma HasSuffix_split s p :
  HasSuffix s p = true ->
  (String.length p <= String.length s)%nat
  /\ s = take (String.length s - String.length p) s +:+ p.
Proof.
  unfold HasSuffix. intros Hs. apply andb_true_iff in Hs as [Hl He].
  apply Nat.leb_le in Hl. apply String.eqb_eq in He. split; [exact Hl|].
  transitivity (take (String.length s - String.length p) s
                +:+ drop (String.length s - String.length p) s).
  - symmetry. apply take_drop.
  - f_equal. exact He.
Qed.

Lemma Index_char_app body c rest :
  IndexByte body c = -1 ->
  Index (body +:+ String c rest) (str1 c) = len body.
Proof.
  intros Hb. induction body as [|d body IH].
  - change ("" +:+ String c rest) with (String c rest). cbn [Index has_prefix str1].
    unfold str1. cbn [has_prefix]. rewrite Ascii.eqb_refl. reflexivity.
  - change (String d body +:+ String c rest)
      with (String d (body +:+ String c rest)).
    unfold IndexByte in Hb. cbn [index_where] in Hb.
    destruct (Ascii.eqb c d) eqn:Hc; [discriminate|].
    pose proof (index_where_lower (Ascii.eqb c) body) as Hlow.
    destruct (index_where (Ascii.eqb c) body <? 0) eqn:E; [|lia].
    apply Z.ltb_lt in E.
    cbn [Index]. unfold str1 at 1. cbn [has_prefix]. rewrite Hc. cbn [andb].
    rewrite IH by (unfold IndexByte; lia).
    pose proof (len_nonneg body).
    replace (len body <? 0) with false by (symmetry; apply Z.ltb_ge; lia).
    rewrite len_String. reflexivity.
Qed.

Lemma Cut_at pre c post :
  IndexByte pre c = -1 ->
  Cut (pre +:+ String c post) (str1 c) = (pre, post, true).
Proof.
  intros Hpre. unfold Cut. rewrite Index_char_app by exact Hpre.
  pose proof (len_nonneg pre).
  replace (len pre <? 0) with false by (symmetry; apply Z.ltb_ge; lia).
  unfold len. rewrite Nat2Z.id. rewrite take_app.
  change (String.length (str1 c)) with 1%nat.
  replace (pre +:+ String c post) with ((pre +:+ str1 c) +:+ post)
    by (rewrite append_assoc; reflexivity).
  replace (String.length pre + 1)%nat with (String.length (pre +:+ str1 c))
    by (rewrite length_app; reflexivity).
  rewrite drop_app. reflexivity.
Qed.

Lemma Index_char_none s c : IndexByte s c = -1 -> Index s (str1 c) = -1.
Proof.
  induction s as [|d s IH]; [reflexivity|].
  unfold IndexByte. cbn [index_where].
  destruct (Ascii.eqb c d) eqn:Hc; [discriminate|].
  pose proof (index_where_lower (Ascii.eqb c) s) as Hlow.
  destruct (index_where (Ascii.eqb c) s <? 0) eqn:E; [|lia].
  apply Z.ltb_lt in E. intros _.
  cbn [Index]. unfold str1 at 1. cbn [has_prefix]. rewrite Hc. cbn [andb].
  rewrite IH by (unfold IndexByte; lia). reflexivity.
Qed.

Lemma Cut_none s c : IndexByte s c = -1 -> Cut s (str1 c) = (s, "", false).
Proof. intros Hs. unfold Cut. rewrite Index_char_none by exact Hs. reflexivity. Qed.

Lemma HasSuffix_nil s : HasSuffix s "" = true.
Proof.
  unfold HasSuffix. cbn [String.length]. rewrite Nat.sub_0_r, drop_all.
  reflexivity.
Qed.

End StrFacts.

(** ** Runes *)

Module RuneFacts.
Import StrFacts.

(** The width of the first rune of a string that is not empty is at least
    1 and not more than the string has bytes. *)
Lemma decode_width s :
  s <> "" ->
  1 <= snd (DecodeRuneInString s) <= len s.
Proof.
  intros Hne. destruct s as [|c0 s]; [contradiction|].
  unfold DecodeRuneInString.
  destruct (byte_val c0 <? 128); [cbn [snd]; rewrite len_String; pose proof (len_nonneg s); lia|].
  destruct (in_range 194 223 (byte_val c0)).
  { destruct s as [|c1 s]; [cbn [snd]; rewrite len_String; pose proof (len_nonneg ""); lia|].
    destruct (is_cont (byte_val c1)); cbn [snd]; rewrite !len_String;
      pose proof (len_nonneg s); lia. }
  destruct (in_range 224 239 (byte_val c0)).
  { destruct s as [|c1 [|c2 s]]; try (cbn [snd]; rewrite ?len_String; pose proof (len_nonneg ""); lia).
    destruct (in_range _ _ (byte_val c1) && is_cont (byte_val c2)); cbn [snd];
      rewrite !len_String; pose proof (len_nonneg s); lia. }
  destruct (in_range 240 244 (byte_val c0)).
  { destruct s as [|c1 [|c2 [|c3 s]]]; try (cbn [snd]; rewrite ?len_String; pose proof (len_nonneg ""); lia).
    destruct (in_range _ _ (byte_val c1) && is_cont (byte_val c2) && is_cont (byte_val c3));
      cbn [snd]; rewrite !len_String; pose proof (len_nonneg s); lia. }
  cbn [snd]. rewrite len_String. pose proof (len_nonneg s). lia.
Qed.

Lemma bytes_of_runes_fuel fuel s :
  (String.length s <= fuel)%nat -> bytes_of (runes_fuel fuel s) = s.
Proof.
  revert s. induction fuel as [|fuel IH]; intros s Hlen.
  - destruct s; [reflexivity|cbn [String.length] in Hlen; lia].
  - destruct s as [|c s]; [reflexivity|].
    cbn [runes_fuel].
    pose proof (decode_width (String c s)) as Hw.
    destruct (DecodeRuneInString (String c s)) as [r w]. cbn [snd] in Hw.
    specialize (Hw ltac:(discriminate)).
    unfold bytes_of. cbn [fold_right snd]. fold (bytes_of (runes_fuel fuel (drop (Z.to_nat w) (String c s)))).
    rewrite IH.
    + apply take_drop.
    + rewrite length_drop. unfold len in Hw. cbn [String.length] in *. lia.
Qed.

(** The bytes of the runes of a string are the string. *)
Lemma bytes_of_runes s : bytes_of (runes s) = s.
Proof. apply bytes_of_runes_fuel. lia. Qed.

(** A string has at most as many runes as bytes. *)
Lemma runes_fuel_length fuel s :
  (length (runes_fuel fuel s) <= String.length s)%nat.
Proof.
  revert s. induction fuel as [|fuel IH]; intros s; [cbn; lia|].
  destruct s as [|c s]; [cbn; lia|].
  cbn [runes_fuel].
  pose proof (decode_width (String c s)) as Hw.
  destruct (DecodeRuneInString (String c s)) as [r w]. cbn [snd] in Hw.
  specialize (Hw ltac:(discriminate)).
  cbn [length]. specialize (IH (drop (Z.to_nat w) (String c s))).
  rewrite length_drop in IH. unfold len in Hw. cbn [String.length] in *. lia.
Qed.

(** An ASCII byte at the head of a string is a rune of its own. *)
Lemma runes_ascii_cons c tail :
  byte_val c < 128 -> runes (String c tail) = (byte_val c, str1 c) :: runes tail.
Proof.
  intros Hc. unfold runes. cbn [String.length runes_fuel].
  unfold DecodeRuneInString.
  replace (byte_val c <? 128) with true by (symmetry; apply Z.ltb_lt; lia).
  reflexivity.
Qed.

End RuneFacts.

(** ** Recipe texts *)

Module RecipeFacts.
Import Recipe Notions StrFacts RuneFacts.

(** The lines that ReadString answers, put together, are the text. *)
Lemma read_lines_concat s : concat_lines (read_lines s) = s.
Proof.
  induction s as [|c s IH]; [reflexivity|].
  cbn [read_lines]. destruct (Ascii.eqb c newline) eqn:Hc.
  - apply Ascii.eqb_eq in Hc. subst c. cbn [concat_lines fold_right].
    fold (concat_lines (read_lines s)). rewrite IH. reflexivity.
  - destruct (read_lines s) as [|l ls]; cbn [concat_lines fold_right] in *.
    + rewrite <- IH. reflexivity.
    + change (String c l +:+ fold_right String.append "" ls)
        with (String c (l +:+ fold_right String.append "" ls)).
      rewrite IH. reflexivity.
Qed.

Lemma indent_col_bounds rs mincol col :
  col <= indent_col rs mincol col <= col + Z.of_nat (length rs).
Proof.
  revert col. induction rs as [|[c bs] rs IH]; intros col; cbn [indent_col length].
  - lia.
  - destruct (mincol <=? col); [lia|].
    destruct (negb (IsSpace c)); [lia|].
    specialize (IH (col + 1)). lia.
Qed.

Lemma indent_col_zero rs mincol col :
  mincol <= col -> indent_col rs mincol col = col.
Proof.
  intros H. destruct rs as [|[c bs] rs]; cbn [indent_col]; [reflexivity|].
  replace (mincol <=? col) with true by (symmetry; apply Z.leb_le; lia).
  reflexivity.
Qed.

(** The column that the loop counts is a number of runes and so not more
    than the line has bytes: the slice of the line never panics. *)
Lemma strip_line_ok mincol line :
  slice_from line (indent_col (runes line) mincol 0) = Ok (stripped mincol line).
Proof.
  apply slice_from_drop.
  pose proof (indent_col_bounds (runes line) mincol 0).
  pose proof (runes_fuel_length (String.length line) line).
  unfold runes in *. unfold len. lia.
Qed.

Lemma stripIndentation_fold mincol lines acc :
  fold_left
    (fun acc line =>
       let* output := acc in
       let col := indent_col (runes line) mincol 0 in
       let* rest := slice_from line col in
       Ok (output +:+ rest))
    lines (Ok acc)
  = Ok (acc +:+ concat_lines (map (stripped mincol) lines)).
Proof.
  revert acc. induction lines as [|l ls IH]; intros acc; cbn [fold_left map concat_lines fold_right].
  - rewrite append_nil_r. reflexivity.
  - cbn [bind]. rewrite strip_line_ok. cbn [bind]. rewrite IH.
    fold (concat_lines (map (stripped mincol) ls)).
    rewrite append_assoc. reflexivity.
Qed.

Lemma len_concat_stripped mincol lines :
  len (concat_lines (map (stripped mincol) lines)) <= len (concat_lines lines).
Proof.
  induction lines as [|l ls IH]; cbn [map concat_lines fold_right]; [lia|].
  fold (concat_lines (map (stripped mincol) ls)). fold (concat_lines ls).
  rewrite !len_append. unfold stripped at 1. unfold len at 1 3.
  rewrite length_drop. lia.
Qed.

(** X1: stripIndentation returns for every text and every column, and
    what it returns is not longer than the text: the column it counts in
    runes never passes the end of a line counted in bytes. *)
Theorem stripIndentation_returns s mincol :
  exists out, stripIndentation s mincol = Ok out /\ len out <= len s.
Proof.
  unfold stripIndentation. rewrite stripIndentation_fold.
  eexists. split; [reflexivity|].
  change ("" +:+ ?x) with x.
  pose proof (len_concat_stripped mincol (read_lines s)) as H.
  rewrite read_lines_concat in H. exact H.
Qed.

(** With a column that is not positive nothing is stripped. *)
Lemma stripIndentation_no_column s mincol :
  mincol <= 0 -> stripIndentation s mincol = Ok s.
Proof.
  intros Hm. unfold stripIndentation. rewrite stripIndentation_fold.
  change ("" +:+ ?x) with x.
  replace (map (stripped mincol) (read_lines s)) with (read_lines s).
  - rewrite read_lines_concat. reflexivity.
  - induction (read_lines s) as [|l ls IH]; [reflexivity|]. cbn [map].
    rewrite <- IH. unfold stripped. rewrite indent_col_zero by exact Hm. reflexivity.
Qed.

Lemma printIndented_lines_plain lines firstline :
  printIndented_lines "" lines firstline = concat_lines lines.
Proof.
  revert firstline. induction lines as [|l ls IH]; intros fl; [reflexivity|].
  cbn [printIndented_lines concat_lines fold_right]. rewrite IH.
  fold (concat_lines ls).
  destruct (0 <? len l) eqn:E.
  - destruct (negb fl); reflexivity.
  - apply Z.ltb_ge in E. destruct l as [|c l]; [reflexivity|].
    rewrite len_String in E. pose proof (len_nonneg l). lia.
Qed.

(** With the indentation 0 the text is written as it is. *)
Lemma printIndented_no_indent s : printIndented s 0 = Ok s.
Proof.
  unfold printIndented. change (blanks 0) with (Ok ""). cbn [bind].
  rewrite printIndented_lines_plain, read_lines_concat. reflexivity.
Qed.

Lemma read_lines_lines_of s : lines_of (read_lines s).
Proof.
  induction s as [|c s IH]; cbn [read_lines].
  - apply lines_last. reflexivity.
  - destruct (Ascii.eqb c newline) eqn:Hc.
    + apply (lines_cons "" _); [reflexivity|exact IH].
    + inversion IH as [last Hl Heq|b ls Hb Hls Heq].
      * apply lines_last. cbn [contains_byte].
        rewrite Ascii.eqb_sym, Hc. exact Hl.
      * apply (lines_cons (String c b) ls); [|exact Hls].
        cbn [contains_byte]. rewrite Ascii.eqb_sym, Hc. exact Hb.
Qed.

Lemma read_lines_no_newline s :
  contains_byte s newline = false -> read_lines s = [s].
Proof.
  induction s as [|c s IH]; [reflexivity|].
  cbn [contains_byte read_lines]. rewrite Ascii.eqb_sym.
  destruct (Ascii.eqb c newline); [discriminate|].
  intros Hs. rewrite IH by exact Hs. reflexivity.
Qed.

Lemma read_lines_line b rest :
  contains_byte b newline = false ->
  read_lines ((b +:+ str1 newline) +:+ rest)
  = (b +:+ str1 newline) :: read_lines rest.
Proof.
  induction b as [|c b IH].
  - intros _. reflexivity.
  - cbn [contains_byte]. rewrite Ascii.eqb_sym.
    destruct (Ascii.eqb c newline) eqn:Hc; [discriminate|]. intros Hb.
    change ((String c b +:+ str1 newline) +:+ rest)
      with (String c ((b +:+ str1 newline) +:+ rest)).
    cbn [read_lines]. rewrite Hc, IH by exact Hb. reflexivity.
Qed.

Lemma read_lines_of_concat ls :
  lines_of ls -> read_lines (concat_lines ls) = ls.
Proof.
  induction 1 as [last Hl|b ls Hb Hls IH].
  - cbn [concat_lines fold_right]. rewrite append_nil_r.
    apply read_lines_no_newline. exact Hl.
  - cbn [concat_lines fold_right]. fold (concat_lines ls).
    rewrite read_lines_line by exact Hb. rewrite IH. reflexivity.
Qed.

Lemma printIndented_lines_later indentation lines :
  printIndented_lines indentation lines false
  = concat_lines (map (indent_line indentation) lines).
Proof.
  induction lines as [|l ls IH]; [reflexivity|].
  cbn [printIndented_lines map concat_lines fold_right negb].
  rewrite IH. reflexivity.
Qed.

Lemma printIndented_lines_first indentation l ls :
  printIndented_lines indentation (l :: ls) true
  = concat_lines (l :: map (indent_line indentation) ls).
Proof.
  cbn [printIndented_lines negb concat_lines fold_right].
  rewrite printIndented_lines_later. fold (concat_lines (map (indent_line indentation) ls)).
  destruct (0 <? len l) eqn:E; [reflexivity|].
  apply Z.ltb_ge in E. destruct l as [|c l]; [reflexivity|].
  rewrite len_String in E. pose proof (len_nonneg l). lia.
Qed.

Lemma lines_of_indented indentation ls :
  contains_byte indentation newline = false ->
  lines_of ls -> lines_of (map (indent_line indentation) ls).
Proof.
  intros Hi. induction 1 as [last Hl|b ls Hb Hls IH]; cbn [map].
  - apply lines_last. unfold indent_line.
    destruct (0 <? len last); [|reflexivity].
    rewrite contains_byte_app, Hi, Hl. reflexivity.
  - unfold indent_line at 1.
    replace (0 <? len (b +:+ str1 newline)) with true.
    2:{ symmetry. apply Z.ltb_lt. rewrite len_append.
        pose proof (len_nonneg b). change (len (str1 newline)) with 1. lia. }
    rewrite <- append_assoc. apply lines_cons; [|exact IH].
    rewrite contains_byte_app, Hi, Hb. reflexivity.
Qed.

Lemma spaces_S n : spaces (S n) = String " " (spaces n).
Proof. reflexivity. Qed.

Lemma spaces_no_newline n : contains_byte (spaces n) newline = false.
Proof. induction n as [|n IH]; [reflexivity|]. rewrite spaces_S. exact IH. Qed.

Lemma indent_col_spaces n line : forall col,
  indent_col (runes (spaces n +:+ line)) (col + Z.of_nat n) col
  = col + Z.of_nat n.
Proof.
  induction n as [|n IH]; intros col.
  - change (spaces 0 +:+ line) with line.
    rewrite indent_col_zero by lia. lia.
  - rewrite spaces_S.
    change (String " " (spaces n) +:+ line) with (String " " (spaces n +:+ line)).
    rewrite runes_ascii_cons by (vm_compute; reflexivity).
    cbn [indent_col].
    replace (col + Z.of_nat (S n) <=? col) with false
      by (symmetry; apply Z.leb_gt; lia).
    change (IsSpace (byte_val " ")) with true. cbn [negb].
    replace (col + Z.of_nat (S n)) with (col + 1 + Z.of_nat n) by lia.
    apply IH.
Qed.

Lemma length_spaces n : String.length (spaces n) = n.
Proof. induction n as [|n IH]; [reflexivity|]. rewrite spaces_S. cbn [String.length]. rewrite IH. reflexivity. Qed.

Lemma stripped_indent_line n line :
  stripped (Z.of_nat n) (indent_line (spaces n) line) = line.
Proof.
  unfold indent_line. destruct (0 <? len line) eqn:E.
  - unfold stripped.
    pose proof (indent_col_spaces n line 0) as Hc. rewrite Z.add_0_l in Hc.
    rewrite Hc, Nat2Z.id.
    rewrite <- (length_spaces n) at 1. apply drop_app.
  - apply Z.ltb_ge in E. destruct line as [|c l]; [reflexivity|].
    rewrite len_String in E. pose proof (len_nonneg l). lia.
Qed.

Lemma stripped_unindented mincol c l :
  starts_unindented (String c l) = true ->
  stripped mincol (String c l) = String c l.
Proof.
  cbn [starts_unindented]. intros Hs. apply andb_true_iff in Hs as [Ha Hn].
  apply Z.ltb_lt in Ha. unfold stripped.
  rewrite runes_ascii_cons by exact Ha. cbn [indent_col].
  rewrite Hn. destruct (mincol <=? 0); reflexivity.
Qed.

Lemma starts_unindented_first s l ls :
  starts_unindented s = true -> read_lines s = l :: ls ->
  forall mincol, stripped mincol l = l.
Proof.
  intros Hs Hr mincol. destruct s as [|c s].
  - cbn in Hr. injection Hr as <- <-. reflexivity.
  - cbn [read_lines] in Hr.
    assert (Hc : Ascii.eqb c newline = false).
    { cbn [starts_unindented] in Hs. apply andb_true_iff in Hs as [_ Hn].
      destruct (Ascii.eqb c newline) eqn:E; [|reflexivity].
      apply Ascii.eqb_eq in E. subst c. discriminate Hn. }
    rewrite Hc in Hr.
    destruct (read_lines s) as [|l0 ls0]; injection Hr as <- <-;
      apply stripped_unindented; exact Hs.
Qed.

(** X2: stripIndentation undoes printIndented: a text that does not begin
    with white space, printed with an indentation and stripped of the same
    indentation, is the text again. *)
Theorem stripIndentation_undoes_printIndented s ind :
  0 <= ind ->
  starts_unindented s = true ->
  exists printed,
    printIndented s ind = Ok printed
    /\ stripIndentation printed ind = Ok s.
Proof.
  intros Hind Hs. unfold printIndented, blanks.
  replace (ind <? 0) with false by (symmetry; apply Z.ltb_ge; lia).
  cbn [bind]. fold (spaces (Z.to_nat ind)).
  set (n := Z.to_nat ind). eexists. split; [reflexivity|].
  pose proof (read_lines_lines_of s) as Hl.
  pose proof (read_lines_concat s) as Hcat.
  destruct (read_lines s) as [|l ls] eqn:Hr; [inversion Hl|].
  rewrite printIndented_lines_first.
  unfold stripIndentation. rewrite stripIndentation_fold.
  change ("" +:+ ?x) with x.
  assert (Hl' : lines_of (l :: map (indent_line (spaces n)) ls)).
  { inversion Hl as [last Hlast Heq|b ls0 Hb Hls Heq]; subst.
    - apply lines_last. exact Hlast.
    - apply lines_cons; [exact Hb|].
      apply lines_of_indented; [apply spaces_no_newline|exact Hls]. }
  rewrite read_lines_of_concat by exact Hl'.
  cbn [map concat_lines fold_right].
  rewrite (starts_unindented_first s l ls Hs Hr).
  rewrite map_map.
  replace ind with (Z.of_nat n) by (unfold n; lia).
  rewrite (map_ext _ id (stripped_indent_line n)), map_id.
  f_equal. exact Hcat.
Qed.

Lemma stripIndentation_undoes_printIndented_witness :
  exists printed,
    printIndented ("cc -c a.c" +:+ String newline "  ld a.o") 4 = Ok printed
    /\ stripIndentation printed 4
       = Ok ("cc -c a.c" +:+ String newline "  ld a.o").
Proof.
  apply (stripIndentation_undoes_printIndented
           ("cc -c a.c" +:+ String newline "  ld a.o") 4).
  - lia.
  - reflexivity.
Defined.

End RecipeFacts.

(** ** The expander *)

Module ExpandFacts.

Import Expand Sample StrFacts.

Lemma finish_nonempty parts expanded :
  0 < len expanded -> finish parts expanded = (parts ++ [expanded])%list.
Proof.
  intros Hlen. unfold finish.
  destruct (len expanded >? 0) eqn:E; [reflexivity|].
  rewrite Z.gtb_ltb in E. apply Z.ltb_ge in E. lia.
Qed.

(** One round of expand on a text without special characters. *)
Lemma expand_loop_plain W vars fuel input parts expanded bt :
  0 < len input ->
  IndexAny input specials = -1 ->
  expand_loop W vars (S fuel) input parts expanded bt
  = Ok (finish parts (expanded +:+ input)).
Proof.
  intros Hlen Hidx. cbn [expand_loop].
  replace (len input >? 0) with true by (symmetry; apply Z.gtb_lt; lia).
  rewrite Hidx. reflexivity.
Qed.

(** One round of expand that meets a dollar sign at offset [j]. *)
Lemma expand_loop_sigil W vars fuel input parts expanded bt
      j pre rest outparts off rest' :
  IndexAny input specials = j -> 0 <= j ->
  slice_to input j = Ok pre ->
  at_index input j = Ok ("$"%char) ->
  slice_from input (j + 1) = Ok rest ->
  expandSigil W vars (fun s b => expand_loop W vars fuel s [] "" b) rest
  = Ok (outparts, off) ->
  slice_from rest off = Ok rest' ->
  expand_loop W vars (S fuel) input parts expanded bt
  = let '(parts', expanded') := splice_sigil parts (expanded +:+ pre) outparts in
    expand_loop W vars fuel rest' parts' expanded' bt.
Proof.
  intros Hidx Hj Hpre Hat Hrest Hsig Hrest'.
  assert (Hlen : (len input >? 0) = true).
  { unfold at_index in Hat. apply Z.gtb_lt.
    destruct ((0 <=? j) && (j <? len input)) eqn:E; [|discriminate].
    apply andb_true_iff in E as [_ E]. apply Z.ltb_lt in E. lia. }
  cbn [expand_loop]. rewrite Hlen, Hidx.
  replace (j <? 0) with false by (symmetry; apply Z.ltb_ge; lia).
  rewrite Hpre. cbn [bind]. rewrite Hat. cbn [bind]. rewrite Hrest. cbn [bind].
  change (Ascii.eqb "$" "\") with false.
  change (Ascii.eqb "$" dquote) with false.
  change (Ascii.eqb "$" "'") with false.
  change (Ascii.eqb "$" "`") with false.
  change (Ascii.eqb "$" "$") with true.
  cbv iota. rewrite Hsig. cbn [bind].
  destruct (splice_sigil parts (expanded +:+ pre) outparts) as [parts' expanded'].
  cbn [bind]. rewrite Hrest'. reflexivity.
Qed.

(** The escape of a dollar sign answers offset 2 whatever follows it,
    though only the second dollar sign is there to be consumed. *)
Lemma expandSigil_dollar W vars again rest :
  expandSigil W vars again (String "$" rest) = Ok (["$"], 2).
Proof. reflexivity. Qed.

(** A bracketed name that is bound: its values. *)
Lemma expandSigil_braces_x W vars again vals :
  vars !! "x" = Some vals ->
  expandSigil W vars again "{x}post" = Ok (vals, 3).
Proof.
  intros Hx. lazy -[lookup gmap_lookup] in Hx |- *. rewrite Hx. reflexivity.
Qed.

(** One round of the loop of expandSuffixes. *)
Lemma expandSuffixes_loop_eq fuel input stem i expanded :
  expandSuffixes_loop (S fuel) input stem i expanded
  = if i <? len input then
      let* rest := slice_from input i in
      let j := IndexAny rest "\%" in
      if j <? 0 then Ok (expanded +:+ rest)
      else
        let* at_j := slice_from input j in
        let '(c, w) := DecodeRuneInString at_j in
        let* seg := slice input i j in
        let expanded := expanded +:+ seg in
        if c =? chr "%" then
          expandSuffixes_loop fuel input stem (j + w) (expanded +:+ stem)
        else
          let j := j + w in
          let* at_j := slice_from input j in
          let '(c, w) := DecodeRuneInString at_j in
          if c =? chr "%" then
            expandSuffixes_loop fuel input stem (j + w) (expanded +:+ "%")
          else expandSuffixes_loop fuel input stem i expanded
    else Ok expanded.
Proof. reflexivity. Qed.

(** Without a percent sign or a backslash the input is the answer. *)
Lemma expandSuffixes_plain fuel input stem :
  IndexAny input "\%" = -1 ->
  expandSuffixes (S fuel) input stem = Ok input.
Proof.
  intros Hidx. unfold expandSuffixes. cbn [expandSuffixes_loop].
  destruct (0 <? len input) eqn:Hlen.
  - unfold slice_from. rewrite slice_whole. cbn [bind]. rewrite Hidx. reflexivity.
  - apply Z.ltb_ge in Hlen. destruct input as [|c s]; [reflexivity|].
    rewrite len_String in Hlen. pose proof (len_nonneg s). lia.
Qed.

(** The first percent sign of an input, when nothing special stands before
    it, is replaced by the stem; what follows it is passed on when it holds
    nothing special either. *)
Lemma expandSuffixes_one_percent fuel pre post stem :
  IndexAny pre "\%" = -1 ->
  IndexAny post "\%" = -1 ->
  expandSuffixes (S (S fuel)) (pre +:+ String "%" post) stem
  = Ok (pre +:+ stem +:+ post).
Proof.
  intros Hpre Hpost. unfold expandSuffixes.
  set (input := pre +:+ String "%" post).
  assert (Hlen : len input = len pre + len post + 1).
  { unfold input, len. rewrite length_app. cbn [String.length]. lia. }
  pose proof (len_nonneg pre) as Hp0. pose proof (len_nonneg post) as Hq0.
  rewrite expandSuffixes_loop_eq.
  replace (0 <? len input) with true by (symmetry; apply Z.ltb_lt; lia).
  unfold slice_from at 1. rewrite slice_whole. cbn [bind].
  assert (Hidx : IndexAny input "\%" = len pre).
  { unfold input, IndexAny. apply index_where_app; [exact Hpre|reflexivity]. }
  rewrite Hidx.
  replace (len pre <? 0) with false by (symmetry; apply Z.ltb_ge; lia).
  unfold input at 1. rewrite slice_from_suffix. cbn [bind].
  change (DecodeRuneInString (String "%" post)) with (37, 1).
  cbv iota beta.
  unfold input at 1. rewrite slice_prefix. cbn [bind].
  change (37 =? chr "%") with true. cbv iota.
  change ("" +:+ pre) with pre.
  rewrite expandSuffixes_loop_eq.
  destruct (len pre + 1 <? len input) eqn:Hmore.
  - assert (Hsplit : input = (pre +:+ "%") +:+ post).
    { unfold input. rewrite append_assoc. reflexivity. }
    assert (Hl1 : len pre + 1 = len (pre +:+ "%")).
    { unfold len. rewrite length_app. cbn [String.length]. lia. }
    rewrite Hl1. rewrite Hsplit at 1. rewrite slice_from_suffix. cbn [bind].
    rewrite Hpost. change (-1 <? 0) with true. cbv iota.
    rewrite append_assoc. reflexivity.
  - apply Z.ltb_ge in Hmore.
    assert (Hpost0 : post = "").
    { destruct post as [|c q]; [reflexivity|].
      rewrite len_String in Hlen. rewrite len_String in Hq0.
      pose proof (len_nonneg q). lia. }
    rewrite Hpost0. rewrite (append_nil_r stem). reflexivity.
Qed.


(** A word without special characters expands to itself. *)
Lemma expand_plain_word W vars bt fuel input :
  0 < len input ->
  IndexAny input specials = -1 ->
  expand W (S fuel) input vars bt = Ok [input].
Proof.
  intros Hlen Hidx. unfold expand. cbn [expand_loop].
  replace (len input >? 0) with true by (symmetry; apply Z.gtb_lt; lia).
  rewrite Hidx. change (-1 <? 0) with true. cbv iota.
  change ("" +:+ input) with input. rewrite finish_nonempty by exact Hlen.
  reflexivity.
Qed.

Lemma Index_quote_app body rest :
  IndexByte body "'" = -1 ->
  Index (body +:+ String "'" rest) "'" = len body.
Proof.
  intros Hb. induction body as [|c body IH].
  - reflexivity.
  - change (String c body +:+ String "'" rest)
      with (String c (body +:+ String "'" rest)).
    unfold IndexByte in Hb. cbn [index_where] in Hb.
    destruct (Ascii.eqb "'" c) eqn:Hc; [discriminate|].
    pose proof (index_where_lower (Ascii.eqb "'") body) as Hlow.
    destruct (index_where (Ascii.eqb "'") body <? 0) eqn:E; [|lia].
    apply Z.ltb_lt in E.
    cbn [Index has_prefix]. rewrite Hc. cbn [andb].
    rewrite IH by (unfold IndexByte; lia).
    pose proof (len_nonneg body).
    replace (len body <? 0) with false by (symmetry; apply Z.ltb_ge; lia).
    rewrite len_String. reflexivity.
Qed.

(** One round of expand that meets a single quote at offset [j]. *)
Lemma expand_loop_single_quote W vars fuel input parts expanded bt
      j pre rest out off rest' :
  IndexAny input specials = j -> 0 <= j ->
  slice_to input j = Ok pre ->
  at_index input j = Ok ("'"%char) ->
  slice_from input (j + 1) = Ok rest ->
  expandSingleQuoted rest = Ok (out, off) ->
  slice_from rest off = Ok rest' ->
  expand_loop W vars (S fuel) input parts expanded bt
  = expand_loop W vars fuel rest' parts ((expanded +:+ pre) +:+ out) bt.
Proof.
  intros Hidx Hj Hpre Hat Hrest Hq Hrest'.
  assert (Hlen : (len input >? 0) = true).
  { unfold at_index in Hat. apply Z.gtb_lt.
    destruct ((0 <=? j) && (j <? len input)) eqn:E; [|discriminate].
    apply andb_true_iff in E as [_ E]. apply Z.ltb_lt in E. lia. }
  cbn [expand_loop]. rewrite Hlen, Hidx.
  replace (j <? 0) with false by (symmetry; apply Z.ltb_ge; lia).
  rewrite Hpre. cbn [bind]. rewrite Hat. cbn [bind]. rewrite Hrest. cbn [bind].
  change (Ascii.eqb "'" "\") with false.
  change (Ascii.eqb "'" dquote) with false.
  change (Ascii.eqb "'" "'") with true.
  cbv iota. rewrite Hq. cbn [bind]. rewrite Hrest'. reflexivity.
Qed.

(** X7: the expansion law of single quotes: a quoted text is one word and
    is taken as it is, dollar signs included. *)
Lemma expand_single_quoted W vars bt fuel body :
  0 < len body ->
  IndexByte body "'" = -1 ->
  expand W (S (S fuel)) (String "'" (body +:+ "'")) vars bt = Ok [body].
Proof.
  intros Hlen Hq. unfold expand.
  set (rest := body +:+ "'").
  assert (Hrest : len rest = len body + 1).
  { unfold rest, len. rewrite length_app. cbn [String.length]. lia. }
  pose proof (len_nonneg body) as Hb0.
  rewrite (expand_loop_single_quote W vars (S fuel) (String "'" rest) [] "" bt
             0 "" rest body (len body + 1) "").
  - cbn [expand_loop]. change (len "" >? 0) with false. cbv iota.
    change (("" +:+ "") +:+ body) with body.
    rewrite finish_nonempty by exact Hlen. reflexivity.
  - reflexivity.
  - lia.
  - reflexivity.
  - reflexivity.
  - exact (slice_from_suffix (str1 "'") rest).
  - unfold expandSingleQuoted, rest. cbv zeta.
    rewrite !Index_quote_app by exact Hq.
    replace (len body <? 0) with false by (symmetry; apply Z.ltb_ge; lia).
    unfold slice_to. rewrite slice_prefix. reflexivity.
  - rewrite <- Hrest. replace rest with (rest +:+ "") at 1 by apply append_nil_r.
    apply slice_from_suffix.
Qed.


Lemma re_star_none {R} p s (k : string -> string -> option R) :
  (forall m r, s = m +:+ r -> k m r = None) -> re_star p s k = None.
Proof.
  revert k. induction s as [|c s IH]; intros k Hk; cbn [re_star].
  - apply Hk. reflexivity.
  - destruct (p c); [|apply Hk; reflexivity].
    rewrite IH; [apply Hk; reflexivity|].
    intros m r ->. apply Hk. reflexivity.
Qed.

Lemma re_plus_none {R} p s (k : string -> string -> option R) :
  (forall m r, s = m +:+ r -> k m r = None) -> re_plus p s k = None.
Proof.
  intros Hk. destruct s as [|c s]; cbn [re_plus]; [reflexivity|].
  destruct (p c); [|reflexivity].
  apply re_star_none. intros m r ->. apply Hk. reflexivity.
Qed.

Lemma contains_byte_suffix m r c :
  contains_byte (m +:+ r) c = false -> contains_byte r c = false.
Proof.
  induction m as [|d m IH]; [trivial|].
  change (String d m +:+ r) with (String d (m +:+ r)). cbn [contains_byte].
  destruct (Ascii.eqb c d); [discriminate|exact IH].
Qed.

Lemma re_char_absent {R} d s (k : string -> option R) :
  contains_byte s d = false -> re_char d s k = None.
Proof.
  destruct s as [|c s]; cbn [re_char contains_byte]; [reflexivity|].
  rewrite (Ascii.eqb_sym c d). destruct (Ascii.eqb d c); [discriminate|reflexivity].
Qed.

(** A text without a colon is not a namelist. *)
Lemma namelist_match_needs_colon s :
  contains_byte s ":" = false -> namelist_match s = None.
Proof.
  intros Hs. unfold namelist_match.
  apply re_star_none. intros m0 s1 ->. apply contains_byte_suffix in Hs.
  apply re_plus_none. intros m1 s2 ->. apply contains_byte_suffix in Hs.
  apply re_star_none. intros m2 s3 ->. apply contains_byte_suffix in Hs.
  apply re_char_absent. exact Hs.
Qed.

(** The sigil of a bracketed name that is bound nowhere and is not a
    namelist: the text of the sigil, whether or not the name is a valid
    variable name. *)
Lemma expandSigil_unbound_braces W vars again name :
  IndexByte name "}" = -1 ->
  namelist_match name = None ->
  vars !! name = None ->
  LookupEnv W name = None ->
  expandSigil W vars again (String "{" (name +:+ "}"))
  = Ok (["$" +:+ String "{" (name +:+ "}")], len name + 2).
Proof.
  intros Hclose Hnl Hv He. unfold expandSigil.
  change (DecodeRuneInString (String "{" (name +:+ "}"))) with (123, 1).
  cbv iota beta.
  change (123 =? chr "$") with false. change (123 =? chr "{") with true.
  cbv iota.
  assert (H1 : slice_from (String "{" (name +:+ "}")) 1 = Ok (name +:+ "}"))
    by exact (slice_from_suffix (str1 "{") (name +:+ "}")).
  assert (H2 : slice (String "{" (name +:+ "}")) 1 (1 + len name) = Ok name)
    by exact (slice_middle (str1 "{") name "}").
  rewrite H1. cbn [bind].
  assert (Hidx : IndexByte (name +:+ "}") "}" = len name).
  { apply index_where_app; [exact Hclose|reflexivity]. }
  rewrite Hidx. pose proof (len_nonneg name) as Hn.
  replace (len name <? 0) with false by (symmetry; apply Z.ltb_ge; lia).
  rewrite H2. cbn [bind].
  rewrite Hnl. unfold lookup_sigil. rewrite Hv, He.
  set (input := String "{" (name +:+ "}")).
  assert (Hlen : len input = len name + 2).
  { unfold input. rewrite len_String. unfold len. rewrite length_app.
    cbn [String.length]. lia. }
  replace (1 + len name + 1) with (len input) by lia.
  unfold slice_to. rewrite slice_whole. cbn [bind].
  rewrite Hlen. destruct (isValidVarName W name); reflexivity.
Qed.

(** X10: a bracketed name without colon that is bound neither in the
    variables nor in the process environment stays in the output as it
    is. *)
Lemma expand_unbound_braces W vars bt fuel name :
  IndexByte name "}" = -1 ->
  contains_byte name ":" = false ->
  vars !! name = None ->
  LookupEnv W name = None ->
  expand W (S (S fuel)) ("${" +:+ name +:+ "}") vars bt
  = Ok ["${" +:+ name +:+ "}"].
Proof.
  intros Hclose Hcolon Hv He. unfold expand.
  pose proof (namelist_match_needs_colon name Hcolon) as Hnl.
  set (rest := String "{" (name +:+ "}")).
  assert (Hlen : len rest = len name + 2).
  { unfold rest. rewrite len_String. unfold len. rewrite length_app.
    cbn [String.length]. lia. }
  pose proof (len_nonneg name) as Hn.
  change ("${" +:+ name +:+ "}") with (String "$" rest).
  rewrite (expand_loop_sigil W vars (S fuel) (String "$" rest) [] "" bt
             0 "" rest ["$" +:+ rest] (len name + 2) "").
  - cbn [splice_sigil expand_loop]. change (len "" >? 0) with false. cbv iota.
    change (("" +:+ "") +:+ "$" +:+ rest) with (String "$" rest).
    rewrite finish_nonempty; [reflexivity|].
    rewrite len_String. lia.
  - reflexivity.
  - lia.
  - reflexivity.
  - reflexivity.
  - exact (slice_from_suffix (str1 "$") rest).
  - apply expandSigil_unbound_braces; assumption.
  - rewrite <- Hlen. replace rest with (rest +:+ "") at 1 by apply append_nil_r.
    apply slice_from_suffix.
Qed.

(** C5, first half, at the input a$$b: expand answers the single word a$;
    the b after the second dollar sign is consumed with it, where the claim
    has expansion resume at that character and so answer a$b. *)
Theorem expand_dollar_dollar_drops_next W vars bt fuel :
  expand W (S (S fuel)) "a$$b" vars bt = Ok ["a$"].
Proof. reflexivity. Qed.

(** C6 as stated fails: with x bound to a b c and nothing else bound, the
    word pre$xpost expands to itself, because the name read after the dollar
    sign is the longest identifier, xpost. *)
Lemma expand_bare_name_is_maximal :
  x_abc !! "x" = Some ["a"; "b"; "c"]
  /\ expand bare_world 2 "pre$xpost" x_abc true = Ok ["pre$xpost"].
Proof. split; reflexivity. Qed.

(** C6 as amended: in every variable environment that binds x to three
    values, whatever the process environment and the backtick setting, the
    word pre${x}post expands to three words: pre followed by the first value,
    the second value, and the third value followed by post. *)
Theorem expand_bracketed_list_splits_word W vars bt fuel va vb vc :
  vars !! "x" = Some [va; vb; vc] ->
  expand W (S (S fuel)) "pre${x}post" vars bt
  = Ok ["pre" +:+ va; vb; vc +:+ "post"].
Proof.
  intros Hx. unfold expand.
  rewrite (expand_loop_sigil W vars (S fuel) "pre${x}post" [] "" bt
             3 "pre" "{x}post" [va; vb; vc] 3 "post");
    try reflexivity; [|lia|apply expandSigil_braces_x; exact Hx].
  cbn [splice_sigil List.removelast List.last app].
  rewrite expand_loop_plain; [|reflexivity|reflexivity].
  rewrite finish_nonempty; [reflexivity|].
  rewrite len_append. unfold len. cbn. lia.
Qed.

Lemma expand_bracketed_list_splits_word_witness :
  expand bare_world 2 "pre${x}post" x_abc true = Ok ["prea"; "b"; "cpost"].
Proof.
  apply (expand_bracketed_list_splits_word bare_world x_abc true 0 "a" "b" "c").
  reflexivity.
Defined.

(** The examples of the specification: one percent sign, and an escaped
    one. *)
Lemma expandSuffixes_example_percent stem fuel :
  expandSuffixes (S (S fuel)) "a%b" stem = Ok ("a" +:+ stem +:+ "b").
Proof. reflexivity. Qed.

Lemma expandSuffixes_example_escaped stem fuel :
  expandSuffixes (S (S fuel)) "a\%b" stem = Ok "a%b".
Proof. reflexivity. Qed.

(** C7 at the input a%b%c: the offset of the second percent sign is taken
    within input[i:] and then used within input, so the slice input[2:1]
    panics, where the claim has the answer aXbXc for the stem X. *)
Theorem expandSuffixes_second_percent_panics stem fuel :
  expandSuffixes (S (S fuel)) "a%b%c" stem = Panic.
Proof. reflexivity. Qed.

(** The same defect without a panic: the second percent sign of %a% is
    taken for an escaped one and the a is lost. *)
Lemma expandSuffixes_wrong_value stem fuel :
  expandSuffixes (S (S (S fuel))) "%a%" stem = Ok (stem +:+ "%").
Proof.
  transitivity (Ok ((stem +:+ "") +:+ "%")); [reflexivity|].
  rewrite append_nil_r. reflexivity.
Qed.

Lemma expandSuffixes_loop_backslash_stays fuel stem expanded :
  expandSuffixes_loop fuel "\x" stem 0 expanded = OutOfFuel.
Proof.
  revert expanded. induction fuel as [|fuel IH]; intros expanded.
  - reflexivity.
  - cbn [expandSuffixes_loop].
    change (0 <? len "\x") with true. cbv iota.
    change (slice_from "\x" 0) with (Ok "\x"). cbn [bind].
    change (IndexAny "\x" "\%") with 0.
    change (0 <? 0) with false. cbv iota.
    change (slice_from "\x" 0) with (Ok "\x"). cbn [bind].
    change (DecodeRuneInString "\x") with (92, 1).
    cbv iota beta.
    change (slice "\x" 0 0) with (Ok ""). cbn [bind].
    change (92 =? chr "%") with false. cbv iota.
    change (slice_from "\x" (0 + 1)) with (Ok "x"). cbn [bind].
    change (DecodeRuneInString "x") with (120, 1). cbv iota beta.
    change (120 =? chr "%") with false. cbv iota.
    apply IH.
Qed.

(** expandSuffixes does not return on a backslash that is followed by
    anything but a percent sign: the index is not moved. *)
Lemma expandSuffixes_backslash_diverges fuel stem :
  expandSuffixes fuel "\x" stem = OutOfFuel.
Proof. apply expandSuffixes_loop_backslash_stays. Qed.

(** A word that ends in a single dollar sign panics as well. *)
Lemma expand_ending_in_dollar_panics W vars bt fuel :
  expand W (S fuel) "a$" vars bt = Panic.
Proof. reflexivity. Qed.

(** C10 at the two inputs it names: expanding the word a$$, which ends in
    two dollar signs, slices the one remaining byte from offset 2 and
    panics; suffix-expanding %%, which holds two unescaped percent signs,
    slices input[1:0] and panics. *)
Theorem expand_and_expandSuffixes_panic W vars bt stem fuel :
  expand W (S fuel) "a$$" vars bt = Panic
  /\ expandSuffixes (S (S fuel)) "%%" stem = Panic.
Proof. split; reflexivity. Qed.

(** *** Further laws of the expander *)

Import Notions.

Lemma expand_single_quoted_witness :
  expand bare_world 2 (String "'" ("a $x b" +:+ "'")) x_abc true
  = Ok ["a $x b"].
Proof.
  apply (expand_single_quoted bare_world x_abc true 0 "a $x b");
    [vm_compute; reflexivity|reflexivity].
Defined.

Lemma expand_unbound_braces_witness :
  expand bare_world 2 ("${" +:+ "HOME" +:+ "}") x_abc true
  = Ok ["${" +:+ "HOME" +:+ "}"].
Proof.
  apply (expand_unbound_braces bare_world x_abc true 0 "HOME"); reflexivity.
Defined.

(** X13: a backslash that is the first special character of the input
    and is not followed by a percent sign stops expandSuffixes for good:
    the index is never moved past it, whatever the fuel. *)
Theorem expandSuffixes_backslash_never_returns pre rest stem fuel :
  IndexAny pre "\%" = -1 ->
  fst (DecodeRuneInString rest) <> chr "%" ->
  expandSuffixes fuel (pre +:+ String "\" rest) stem = OutOfFuel.
Proof.
  intros Hpre Hrest. unfold expandSuffixes. generalize "" as expanded.
  induction fuel as [|fuel IH]; intros expanded.
  - reflexivity.
  - rewrite expandSuffixes_loop_eq.
    set (input := pre +:+ String "\" rest).
    pose proof (len_nonneg pre) as Hp0. pose proof (len_nonneg rest) as Hr0.
    assert (Hlen : len input = len pre + len rest + 1).
    { unfold input. rewrite len_append, len_String. lia. }
    replace (0 <? len input) with true by (symmetry; apply Z.ltb_lt; lia).
    rewrite slice_from_0. cbn [bind].
    assert (Hidx : IndexAny input "\%" = len pre).
    { unfold input, IndexAny. apply index_where_app; [exact Hpre|reflexivity]. }
    rewrite Hidx.
    replace (len pre <? 0) with false by (symmetry; apply Z.ltb_ge; lia).
    unfold input at 1. rewrite slice_from_suffix. cbn [bind].
    change (DecodeRuneInString (String "\" rest)) with (92, 1).
    cbv iota beta.
    unfold input at 1. rewrite slice_prefix. cbn [bind].
    change (92 =? chr "%") with false. cbv iota.
    unfold input at 1. rewrite slice_from_after. cbn [bind].
    destruct (DecodeRuneInString rest) as [c w]. cbn [fst] in Hrest.
    replace (c =? chr "%") with false by (symmetry; apply Z.eqb_neq; exact Hrest).
    apply IH.
Qed.

Lemma expandSuffixes_backslash_never_returns_witness :
  expandSuffixes 100 "src\x.c" "stem" = OutOfFuel.
Proof.
  apply (expandSuffixes_backslash_never_returns "src" "x.c" "stem" 100).
  - reflexivity.
  - vm_compute. discriminate.
Defined.

(** expandRecipeSigils on a text without dollar sign and backslash. *)
Lemma expandRecipeSigils_loop_plain W vars fuel input expanded :
  IndexAny input "$\" = -1 ->
  expandRecipeSigils_loop W vars (S fuel) input expanded
  = Ok (expanded +:+ input).
Proof.
  intros Hidx. cbn [expandRecipeSigils_loop]. rewrite Hidx.
  destruct (len input >? 0) eqn:E; [reflexivity|].
  rewrite Z.gtb_ltb in E. apply Z.ltb_ge in E. apply len_zero in E. subst.
  rewrite append_nil_r. reflexivity.
Qed.

(** One round of the loop of expandRecipeSigils that meets an escaped
    dollar sign. *)
Lemma expandRecipeSigils_loop_escaped W vars fuel pre rest expanded :
  IndexAny pre "$\" = -1 ->
  expandRecipeSigils_loop W vars (S fuel)
    (pre +:+ String "\" (String "$" rest)) expanded
  = expandRecipeSigils_loop W vars fuel rest ((expanded +:+ pre) +:+ "$").
Proof.
  intros Hpre.
  set (input := pre +:+ String "\" (String "$" rest)).
  pose proof (len_nonneg pre) as Hp0. pose proof (len_nonneg rest) as Hq0.
  assert (Hlen : len input = len pre + len rest + 2).
  { unfold input. rewrite len_append, !len_String. lia. }
  assert (Hidx : IndexAny input "$\" = len pre).
  { unfold input, IndexAny. apply index_where_app; [exact Hpre|reflexivity]. }
  cbn [expandRecipeSigils_loop].
  rewrite (len_pos_gtb input) by lia. rewrite Hidx.
  replace (len pre <? 0) with false by (symmetry; apply Z.ltb_ge; lia).
  unfold input at 1. rewrite slice_to_prefix. cbn [bind].
  unfold input at 1. rewrite slice_from_suffix. cbn [bind].
  change (DecodeRuneInString (String "\" (String "$" rest))) with (92, 1).
  cbv iota beta.
  change (92 =? chr "$") with false. change (92 =? chr "\") with true. cbv iota.
  rewrite slice_from_1. cbn [bind].
  change (DecodeRuneInString (String "$" rest)) with (36, 1). cbv iota beta.
  change (36 =? chr "$") with true. cbv iota.
  rewrite slice_from_1. reflexivity.
Qed.

(** X14: in a recipe a backslash before a dollar sign is dropped and the
    dollar sign is kept as it is; the text around it, when it holds neither
    of the two characters, is copied. *)
Theorem expandRecipeSigils_escaped_dollar W vars fuel pre post :
  IndexAny pre "$\" = -1 ->
  IndexAny post "$\" = -1 ->
  expandRecipeSigils W (S (S fuel)) (pre +:+ "\$" +:+ post) vars
  = Ok (pre +:+ "$" +:+ post).
Proof.
  intros Hpre Hpost. unfold expandRecipeSigils.
  change (pre +:+ "\$" +:+ post) with (pre +:+ String "\" (String "$" post)).
  rewrite expandRecipeSigils_loop_escaped by exact Hpre.
  rewrite expandRecipeSigils_loop_plain by exact Hpost.
  change ("" +:+ pre) with pre. rewrite append_assoc. reflexivity.
Qed.

Lemma expandRecipeSigils_escaped_dollar_witness :
  expandRecipeSigils bare_world 2 "echo \$HOME" x_abc = Ok "echo $HOME".
Proof.
  apply (expandRecipeSigils_escaped_dollar bare_world x_abc 0 "echo " "HOME");
    reflexivity.
Defined.

(** The sigil of a bracketed name that is bound and is not a namelist: the
    values of the variable. *)
Lemma expandSigil_bound_braces W vars again name vals rest :
  IndexByte name "}" = -1 ->
  namelist_match name = None ->
  isValidVarName W name = true ->
  vars !! name = Some vals ->
  expandSigil W vars again (String "{" (name +:+ String "}" rest))
  = Ok (vals, len name + 2).
Proof.
  intros Hclose Hnl Hvalid Hv. unfold expandSigil.
  change (DecodeRuneInString (String "{" (name +:+ String "}" rest)))
    with (123, 1).
  cbv iota beta.
  change (123 =? chr "$") with false. change (123 =? chr "{") with true.
  cbv iota.
  rewrite slice_from_1. cbn [bind].
  assert (Hidx : IndexByte (name +:+ String "}" rest) "}" = len name).
  { apply index_where_app; [exact Hclose|reflexivity]. }
  rewrite Hidx. pose proof (len_nonneg name) as Hn.
  replace (len name <? 0) with false by (symmetry; apply Z.ltb_ge; lia).
  assert (H2 : slice (String "{" (name +:+ String "}" rest)) 1 (1 + len name)
               = Ok name)
    by exact (slice_middle (str1 "{") name (String "}" rest)).
  rewrite H2. cbn [bind].
  rewrite Hnl. unfold lookup_sigil. rewrite Hvalid, Hv.
  replace (1 + len name + 1) with (len name + 2) by lia. reflexivity.
Qed.

(** X15: in a recipe a bracketed variable is replaced by its values,
    joined by single blanks. *)
Theorem expandRecipeSigils_bound_variable W vars fuel pre name vals post :
  IndexAny pre "$\" = -1 ->
  IndexAny post "$\" = -1 ->
  IndexByte name "}" = -1 ->
  contains_byte name ":" = false ->
  isValidVarName W name = true ->
  vars !! name = Some vals ->
  expandRecipeSigils W (S (S fuel))
    (pre +:+ "${" +:+ name +:+ "}" +:+ post) vars
  = Ok (pre +:+ Join vals " " +:+ post).
Proof.
  intros Hpre Hpost Hclose Hcolon Hvalid Hv. unfold expandRecipeSigils.
  pose proof (namelist_match_needs_colon name Hcolon) as Hnl.
  change (pre +:+ "${" +:+ name +:+ "}" +:+ post)
    with (pre +:+ String "$" (String "{" (name +:+ String "}" post))).
  set (body := String "{" (name +:+ String "}" post)).
  set (input := pre +:+ String "$" body).
  pose proof (len_nonneg pre) as Hp0. pose proof (len_nonneg post) as Hq0.
  pose proof (len_nonneg name) as Hn0.
  assert (Hlen : len input = len pre + len body + 1).
  { unfold input. rewrite len_append, !len_String. lia. }
  pose proof (len_nonneg body) as Hb0.
  assert (Hidx : IndexAny input "$\" = len pre).
  { unfold input, IndexAny. apply index_where_app; [exact Hpre|reflexivity]. }
  assert (Hstep : forall fuel',
    expandRecipeSigils_loop W vars (S fuel') input ""
    = expandRecipeSigils_loop W vars fuel' post (pre +:+ Join vals " ")).
  { intros fuel'. cbn [expandRecipeSigils_loop].
    rewrite (len_pos_gtb input) by lia. rewrite Hidx.
    replace (len pre <? 0) with false by (symmetry; apply Z.ltb_ge; lia).
    unfold input at 1. rewrite slice_to_prefix. cbn [bind].
    unfold input at 1. rewrite slice_from_suffix. cbn [bind].
    change (DecodeRuneInString (String "$" body)) with (36, 1).
    cbv iota beta. change (36 =? chr "$") with true. cbv iota.
    rewrite slice_from_1. cbn [bind].
    unfold body at 1.
    rewrite (expandSigil_bound_braces W vars _ name vals post) by assumption.
    cbn [bind].
    assert (Hrest : slice_from body (len name + 2) = Ok post).
    { unfold body.
      replace (String "{" (name +:+ String "}" post))
        with ((String "{" name) +:+ String "}" post) by reflexivity.
      replace (len name + 2) with (len (String "{" name) + 1)
        by (rewrite len_String; lia).
      apply slice_from_after. }
    rewrite Hrest. reflexivity. }
  rewrite Hstep. rewrite expandRecipeSigils_loop_plain by exact Hpost.
  rewrite append_assoc. reflexivity.
Qed.

Lemma expandRecipeSigils_bound_variable_witness :
  expandRecipeSigils bare_world 2 "echo ${x} done" x_abc = Ok "echo a b c done".
Proof.
  apply (expandRecipeSigils_bound_variable bare_world x_abc 0 "echo " "x"
           ["a"; "b"; "c"] " done"); reflexivity.
Defined.

Lemma contains_byte_specials_quote c :
  contains_byte specials c = false ->
  contains_byte (String dquote "\") c = false.
Proof.
  unfold specials. cbn [contains_byte].
  destruct (Ascii.eqb c dquote); [discriminate|].
  destruct (Ascii.eqb c "'"); [discriminate|].
  destruct (Ascii.eqb c "`"); [discriminate|].
  destruct (Ascii.eqb c "$"); [discriminate|].
  destruct (Ascii.eqb c "\"); [discriminate|reflexivity].
Qed.

(** expandDoubleQuoted on a body without special characters that is
    closed by a quote. *)
Lemma expandDoubleQuoted_plain again body rest bt words :
  IndexAny body specials = -1 ->
  again body bt = Ok words ->
  expandDoubleQuoted again (body +:+ String dquote rest) bt
  = Ok (Join words " ", len body + 1).
Proof.
  intros Hbody Hagain. unfold expandDoubleQuoted.
  set (input := body +:+ String dquote rest).
  assert (Hidx : IndexAny input (String dquote "\") = len body).
  { unfold input, IndexAny. apply index_where_app.
    - apply (index_where_none_weaken (contains_byte specials));
        [apply contains_byte_specials_quote|exact Hbody].
    - unfold dquote. reflexivity. }
  pose proof (len_nonneg body) as Hb0.
  cbn [dq_scan]. rewrite slice_from_0. cbn [bind]. rewrite Hidx.
  replace (len body <? 0) with false by (symmetry; apply Z.ltb_ge; lia).
  replace (len body + 0) with (len body) by lia.
  unfold input at 1. rewrite slice_from_suffix. cbn [bind].
  change (DecodeRuneInString (String dquote rest)) with (34, 1).
  cbv iota beta. change (34 =? chr dquote) with true. cbv iota. cbn [bind].
  unfold input. rewrite slice_to_prefix. cbn [bind].
  rewrite Hagain. reflexivity.
Qed.

(** One round of expand that meets a double quote at the head of the
    input. *)
Lemma expand_loop_double_quote W vars fuel rest parts expanded bt out off rest' :
  expandDoubleQuoted (fun s b => expand_loop W vars fuel s [] "" b) rest bt
  = Ok (out, off) ->
  slice_from rest off = Ok rest' ->
  expand_loop W vars (S fuel) (String dquote rest) parts expanded bt
  = expand_loop W vars fuel rest' parts (expanded +:+ out) bt.
Proof.
  intros Hq Hrest'.
  cbn [expand_loop].
  pose proof (len_nonneg rest) as Hr0.
  rewrite (len_pos_gtb (String dquote rest)) by (rewrite len_String; lia).
  change (IndexAny (String dquote rest) specials) with 0.
  change (0 <? 0) with false. cbv iota.
  change (slice_to (String dquote rest) 0) with (Ok ""). cbn [bind].
  change (at_index (String dquote rest) 0) with (Ok dquote). cbn [bind].
  change (0 + 1) with 1. rewrite slice_from_1. cbn [bind].
  change (Ascii.eqb dquote "\") with false.
  change (Ascii.eqb dquote dquote) with true.
  cbv iota. rewrite Hq. cbn [bind]. rewrite Hrest'.
  rewrite append_nil_r. reflexivity.
Qed.

(** X8: a text in double quotes that holds no special character is one
    word and is taken as it is, blanks included. *)
Theorem expand_double_quoted W vars bt fuel body :
  0 < len body ->
  IndexAny body specials = -1 ->
  expand W (S (S fuel)) (String dquote (body +:+ str1 dquote)) vars bt
  = Ok [body].
Proof.
  intros Hlen Hb. unfold expand.
  rewrite (expand_loop_double_quote W vars (S fuel) (body +:+ str1 dquote)
             [] "" bt body (len body + 1) "").
  - cbn [expand_loop]. change (len "" >? 0) with false. cbv iota.
    change ("" +:+ body) with body.
    rewrite finish_nonempty by exact Hlen. reflexivity.
  - rewrite (expandDoubleQuoted_plain _ body "" bt [body]); [reflexivity|exact Hb|].
    rewrite expand_loop_plain by assumption.
    change ("" +:+ body) with body. rewrite finish_nonempty by exact Hlen.
    reflexivity.
  - replace (len body + 1) with (len (body +:+ str1 dquote))
      by (rewrite len_append; reflexivity).
    apply slice_from_end.
Qed.

Lemma expand_double_quoted_witness :
  expand bare_world 2 (String dquote ("a b" +:+ str1 dquote)) x_abc true
  = Ok ["a b"].
Proof.
  apply (expand_double_quoted bare_world x_abc true 0 "a b"); [|reflexivity].
  vm_compute. reflexivity.
Defined.

(** X9: when backticks are not to be expanded, the first backtick of a
    word is dropped and everything after it is copied as it is, a closing
    backtick and any other special character included. *)
Theorem expand_backtick_off W vars fuel pre rest :
  IndexAny pre specials = -1 ->
  0 < len pre + len rest ->
  expand W (S (S fuel)) (pre +:+ String "`" rest) vars false
  = Ok [pre +:+ rest].
Proof.
  intros Hpre Hlen. unfold expand.
  set (input := pre +:+ String "`" rest).
  pose proof (len_nonneg pre) as Hp0. pose proof (len_nonneg rest) as Hr0.
  assert (Hidx : IndexAny input specials = len pre).
  { unfold input, IndexAny. apply index_where_app; [exact Hpre|reflexivity]. }
  assert (Hstep : forall fuel',
    expand_loop W vars (S fuel') input [] "" false
    = expand_loop W vars fuel' "" [] (pre +:+ rest) false).
  { intros fuel'. cbn [expand_loop].
    rewrite (len_pos_gtb input)
      by (unfold input; rewrite len_append, len_String; lia).
    rewrite Hidx.
    replace (len pre <? 0) with false by (symmetry; apply Z.ltb_ge; lia).
    unfold input at 1. rewrite slice_to_prefix. cbn [bind].
    unfold input at 1. rewrite at_index_app. cbn [bind].
    unfold input at 1. rewrite slice_from_after. cbn [bind].
    change (Ascii.eqb "`" "\") with false.
    change (Ascii.eqb "`" dquote) with false.
    change (Ascii.eqb "`" "'") with false.
    change (Ascii.eqb "`" "`") with true.
    cbv iota. cbn [bind]. rewrite slice_from_end. cbn [bind].
    change ("" +:+ pre) with pre. reflexivity. }
  rewrite Hstep. cbn [expand_loop]. change (len "" >? 0) with false. cbv iota.
  rewrite finish_nonempty; [reflexivity|]. rewrite len_append. lia.
Qed.

Lemma expand_backtick_off_witness :
  expand bare_world 2 "a`date`" x_abc false = Ok ["adate`"].
Proof.
  apply (expand_backtick_off bare_world x_abc 0 "a" "date`"); [reflexivity|].
  vm_compute. reflexivity.
Defined.

(** X11: a bracketed variable with two values or more splits the word
    around it: the text before it goes with the first value, the text after
    it with the last, and the values between them are words of their
    own. *)
Theorem expand_bracketed_variable_splits W vars bt fuel pre name post v0 v1 vs :
  IndexAny pre specials = -1 ->
  IndexAny post specials = -1 ->
  IndexByte name "}" = -1 ->
  contains_byte name ":" = false ->
  isValidVarName W name = true ->
  vars !! name = Some (v0 :: v1 :: vs) ->
  0 < len (List.last (v1 :: vs) "" +:+ post) ->
  expand W (S (S fuel)) (pre +:+ "${" +:+ name +:+ "}" +:+ post) vars bt
  = Ok ((pre +:+ v0) :: List.removelast (v1 :: vs)
        ++ [List.last (v1 :: vs) "" +:+ post])%list.
Proof.
  intros Hpre Hpost Hclose Hcolon Hvalid Hv Hlast. unfold expand.
  pose proof (namelist_match_needs_colon name Hcolon) as Hnl.
  change (pre +:+ "${" +:+ name +:+ "}" +:+ post)
    with (pre +:+ String "$" (String "{" (name +:+ String "}" post))).
  set (body := String "{" (name +:+ String "}" post)).
  pose proof (len_nonneg pre) as Hp0. pose proof (len_nonneg name) as Hn0.
  rewrite (expand_loop_sigil W vars (S fuel) (pre +:+ String "$" body) [] "" bt
             (len pre) pre body (v0 :: v1 :: vs) (len name + 2) post).
  - cbn [splice_sigil]. change ("" +:+ pre) with pre.
    change ([] ++ [pre +:+ v0] ++ List.removelast (v1 :: vs))%list
      with ((pre +:+ v0) :: List.removelast (v1 :: vs)).
    destruct (0 <? len post) eqn:Hpl.
    + apply Z.ltb_lt in Hpl.
      rewrite expand_loop_plain by assumption.
      rewrite finish_nonempty by exact Hlast. reflexivity.
    + apply Z.ltb_ge in Hpl. apply len_zero in Hpl. subst post.
      cbn [expand_loop]. change (len "" >? 0) with false. cbv iota.
      rewrite append_nil_r in Hlast |- *.
      rewrite finish_nonempty by exact Hlast. reflexivity.
  - unfold IndexAny. apply index_where_app; [exact Hpre|reflexivity].
  - exact Hp0.
  - apply slice_to_prefix.
  - apply at_index_app.
  - apply slice_from_after.
  - unfold body. apply expandSigil_bound_braces; assumption.
  - unfold body.
    replace (String "{" (name +:+ String "}" post))
      with ((String "{" name) +:+ String "}" post) by reflexivity.
    replace (len name + 2) with (len (String "{" name) + 1)
      by (rewrite len_String; lia).
    apply slice_from_after.
Qed.

Lemma expand_bracketed_variable_splits_witness :
  expand bare_world 2 ("lib/" +:+ "${" +:+ "x" +:+ "}" +:+ ".o") x_abc true
  = Ok (("lib/" +:+ "a") :: List.removelast ["b"; "c"]
        ++ [List.last ["b"; "c"] "" +:+ ".o"])%list.
Proof.
  apply (expand_bracketed_variable_splits bare_world x_abc true 0 "lib/" "x"
           ".o" "a" "b" ["c"]); try reflexivity.
Defined.

End ExpandFacts.

(** ** Rules *)

Module RulesFacts.
Import Rules.

(** ruleSet.add merges nothing: the rule is appended whatever the rule set
    holds. *)
Lemma add_appends rs r : rules (add rs r) = (rules rs ++ [r])%list.
Proof. reflexivity. Qed.

Lemma add_length rs r :
  length (rules (add rs r)) = S (length (rules rs)).
Proof. rewrite add_appends, length_app. simpl. lia. Qed.

(** parseAttribs reads D as delete-on-failure and E as continue-on-error. *)
Lemma parseAttribs_D r :
  parseAttribs r ["D"]
  = (set_attributes r
       {| delFailed := true; nonstop := nonstop (attributes r);
          forcedTimestamp := forcedTimestamp (attributes r);
          nonvirtual := nonvirtual (attributes r);
          quiet := quiet (attributes r); regex := regex (attributes r);
          update := update (attributes r); virtual := virtual (attributes r);
          exclusive := exclusive (attributes r) |}, None).
Proof. reflexivity. Qed.

Lemma parseAttribs_E r :
  parseAttribs r ["E"]
  = (set_attributes r
       {| delFailed := delFailed (attributes r); nonstop := true;
          forcedTimestamp := forcedTimestamp (attributes r);
          nonvirtual := nonvirtual (attributes r);
          quiet := quiet (attributes r); regex := regex (attributes r);
          update := update (attributes r); virtual := virtual (attributes r);
          exclusive := exclusive (attributes r) |}, None).
Proof. reflexivity. Qed.

(** *** Attributes only add *)

Import Notions StrFacts RuneFacts.

Lemma attribs_le_refl a : attribs_le a a.
Proof. unfold attribs_le. tauto. Qed.

Lemma rule_extends_refl r : rule_extends r r.
Proof.
  unfold rule_extends. split; [apply attribs_le_refl|].
  repeat split; try reflexivity; exists []; rewrite app_nil_r; reflexivity.
Qed.

Lemma rule_extends_trans r1 r2 r3 :
  rule_extends r1 r2 -> rule_extends r2 r3 -> rule_extends r1 r3.
Proof.
  unfold rule_extends, attribs_le.
  intros (Ha & Ht & Hp & Hr & Hm & Hf & Hl & [c1 Hc] & [s1 Hs])
         (Ha' & Ht' & Hp' & Hr' & Hm' & Hf' & Hl' & [c2 Hc'] & [s2 Hs']).
  split; [tauto|].
  repeat split; try congruence.
  - exists (c1 ++ c2)%list. rewrite Hc', Hc, app_assoc. reflexivity.
  - exists (s1 ++ s2)%list. rewrite Hs', Hs, app_assoc. reflexivity.
Qed.

Lemma set_attrib_le a c a' : set_attrib a c = Some a' -> attribs_le a a'.
Proof.
  unfold set_attrib, attribs_le.
  repeat match goal with
         | |- context [if ?b then _ else _] => destruct b
         end; intros [= <-]; cbn; tauto.
Qed.

Lemma parseAttribs_word_extends rs : forall r later,
  match parseAttribs_word r rs later with
  | attribNext r' | attribDone r' | attribError r' _ => rule_extends r r'
  end.
Proof.
  induction rs as [|[c bs] rs IH]; intros r later; cbn [parseAttribs_word].
  - apply rule_extends_refl.
  - destruct (set_attrib (attributes r) c) as [a|] eqn:Ha.
    + apply set_attrib_le in Ha.
      specialize (IH (set_attributes r a) later).
      assert (Hstep : rule_extends r (set_attributes r a)).
      { unfold rule_extends. cbn. split; [exact Ha|].
        repeat split; exists []; rewrite app_nil_r; reflexivity. }
      destruct (parseAttribs_word (set_attributes r a) rs later);
        eapply rule_extends_trans; eauto.
    + destruct (c =? chr "P").
      * unfold rule_extends. cbn. split; [apply attribs_le_refl|].
        repeat split; [eexists; reflexivity|exists []; rewrite app_nil_r; reflexivity].
      * destruct (c =? chr "S").
        -- unfold rule_extends. cbn. split; [apply attribs_le_refl|].
           repeat split; [exists []; rewrite app_nil_r; reflexivity|eexists; reflexivity].
        -- apply rule_extends_refl.
Qed.

(** X3: parseAttribs only adds: whatever the words, and whether or not it
    ends in an error, every flag that was set stays set, the command and
    the shell keep the words they had, and nothing else of the rule is
    touched. *)
Theorem parseAttribs_only_adds inputs : forall r,
  rule_extends r (fst (parseAttribs r inputs)).
Proof.
  induction inputs as [|input later IH]; intros r; cbn [parseAttribs].
  - apply rule_extends_refl.
  - pose proof (parseAttribs_word_extends (runes input) r later) as Hw.
    destruct (parseAttribs_word r (runes input) later) as [r'|r'|r' c]; cbn [fst].
    + eapply rule_extends_trans; [exact Hw|apply IH].
    + exact Hw.
    + exact Hw.
Qed.

(** The attributes P and S take the rest of their word, when there is
    one, and all the words after it. *)
Lemma parseAttribs_P_and_S_take_the_rest r tail later :
  let extra := if 0 <? len tail then [tail] else [] in
  parseAttribs r (String "P" tail :: later)
  = (set_command r (command r ++ extra ++ later)%list, None)
  /\ parseAttribs r (String "S" tail :: later)
     = (set_shell r (shell r ++ extra ++ later)%list, None).
Proof.
  intros extra. split; cbn [parseAttribs];
    rewrite runes_ascii_cons by (vm_compute; reflexivity);
    cbn [parseAttribs_word];
    match goal with
    | |- context [set_attrib ?a ?c] => change (set_attrib a c) with (@None attribSet)
    end; cbv iota; rewrite bytes_of_runes; reflexivity.
Qed.

(** *** The index of a rule set *)

Lemma indexed_insert m s k t x :
  indexed (<[s := (default [] (m !! s) ++ [k])%list]> m) t x
  <-> indexed m t x \/ (t = s /\ x = k).
Proof.
  unfold indexed. destruct (decide (s = t)) as [->|Hne].
  - rewrite lookup_insert_eq. split.
    + intros (ks & [= <-] & Hin). apply in_app_or in Hin as [Hin|[<-|[]]].
      * left. destruct (m !! t) as [ks|]; [exists ks; auto|destruct Hin].
      * right. auto.
    + intros [(ks & Hks & Hin)|[_ ->]].
      * eexists. split; [reflexivity|]. rewrite Hks. apply in_or_app. left. exact Hin.
      * eexists. split; [reflexivity|]. apply in_or_app. right. left. reflexivity.
  - rewrite lookup_insert_ne by exact Hne. split.
    + intros H. left. exact H.
    + intros [H|[-> _]]; [exact H|contradiction].
Qed.

Lemma indexed_fold ts k : forall m t x,
  indexed
    (fold_left
       (fun m p =>
          match rpat p with
          | None => <[spat p := (default [] (m !! spat p) ++ [k])%list]> m
          | Some _ => m
          end) ts m) t x
  <-> indexed m t x
      \/ (x = k /\ exists p, In p ts /\ rpat p = None /\ spat p = t).
Proof.
  induction ts as [|p ts IH]; intros m t x; cbn [fold_left].
  - split; [auto|]. intros [H|(_ & p & [] & _)]. exact H.
  - rewrite IH. destruct (rpat p) eqn:Hp.
    + split.
      * intros [H|(Hx & q & Hq & Hr & Hs)]; [auto|].
        right. split; [exact Hx|]. exists q. split; [right; exact Hq|auto].
      * intros [H|(Hx & q & [<-|Hq] & Hr & Hs)]; [auto|congruence|].
        right. split; [exact Hx|]. exists q. auto.
    + rewrite indexed_insert. split.
      * intros [[H|[-> ->]]|(Hx & q & Hq & Hr & Hs)]; [auto| |].
        -- right. split; [reflexivity|]. exists p. split; [left; reflexivity|auto].
        -- right. split; [exact Hx|]. exists q. split; [right; exact Hq|auto].
      * intros [H|(Hx & q & [<-|Hq] & Hr & Hs)]; [auto| |].
        -- left. right. auto.
        -- right. split; [exact Hx|]. exists q. auto.
Qed.

Lemma listed_app_old rs r t k :
  (k < length rs)%nat -> (listed (rs ++ [r]) t k <-> listed rs t k).
Proof.
  intros Hk. unfold listed. rewrite nth_error_app1 by exact Hk. reflexivity.
Qed.

(** X4: ruleSet.add keeps the index exact: when the index of a rule set
    holds the positions of the rules with a literal target and nothing
    else, it does so after a rule is added. *)
Theorem add_keeps_index_exact rs r :
  index_exact rs -> index_exact (add rs r).
Proof.
  intros Hrs t x. unfold add. cbn [targetrules rules].
  rewrite indexed_fold. rewrite (Hrs t x).
  rewrite List.length_app. cbn [length].
  replace (Z.of_nat (length (rules rs) + 1) - 1) with (Z.of_nat (length (rules rs))) by lia.
  split.
  - intros [(k & -> & Hl)|(-> & p & Hp & Hr & Hs)].
    + exists k. split; [reflexivity|].
      assert (Hk : (k < length (rules rs))%nat).
      { destruct Hl as (r0 & p0 & Hn & _). apply nth_error_Some. congruence. }
      apply listed_app_old; assumption.
    + exists (length (rules rs)). split; [reflexivity|].
      exists r, p. split; [|auto].
      rewrite nth_error_app2 by lia. rewrite Nat.sub_diag. reflexivity.
  - intros (k & -> & Hl).
    destruct (Nat.lt_ge_cases k (length (rules rs))) as [Hk|Hk].
    + left. exists k. split; [reflexivity|]. apply (listed_app_old _ r); assumption.
    + right. destruct Hl as (r0 & p0 & Hn & Hp & Hr & Hs).
      assert (Hk' : k = length (rules rs)).
      { assert (k < length (rules rs ++ [r]))%nat by (apply nth_error_Some; congruence).
        rewrite List.length_app in H. cbn [length] in H. lia. }
      subst k. split; [reflexivity|].
      rewrite nth_error_app2 in Hn by lia. rewrite Nat.sub_diag in Hn.
      cbn in Hn. injection Hn as <-. exists p0. auto.
Qed.

Lemma empty_index_exact vs :
  index_exact {| vars := vs; rules := []; targetrules := empty |}.
Proof.
  intros t x. cbn. split.
  - intros (ks & Hks & _). rewrite lookup_empty in Hks. discriminate.
  - intros (k & _ & r & p & Hn & _). destruct k; discriminate.
Qed.

Lemma add_keeps_index_exact_witness :
  index_exact (add {| vars := empty; rules := []; targetrules := empty |}
                   Sample.out_rule).
Proof. apply add_keeps_index_exact. apply empty_index_exact. Defined.

(** *** equivRecipe *)

Lemma strings_eqb_eq a : forall b, strings_eqb a b = true <-> a = b.
Proof.
  induction a as [|x a IH]; intros [|y b]; cbn [strings_eqb];
    try (split; [discriminate|discriminate]); [split; reflexivity|].
  rewrite andb_true_iff, String.eqb_eq, IH. split.
  - intros [-> ->]. reflexivity.
  - intros [= -> ->]. auto.
Qed.

(** X5: equivRecipe answers true exactly when the two rules have the same
    recipe and the same shell. *)
Theorem equivRecipe_true_iff r r2 :
  equivRecipe r r2 = true <-> recipe r = recipe r2 /\ shell r = shell r2.
Proof.
  unfold equivRecipe.
  destruct (String.eqb (recipe r) (recipe r2)) eqn:Hr; cbn [negb].
  - apply String.eqb_eq in Hr.
    destruct (length (shell r) =? length (shell r2))%nat eqn:Hl; cbn [negb].
    + rewrite strings_eqb_eq. tauto.
    + apply Nat.eqb_neq in Hl. split; [discriminate|].
      intros [_ Hs]. rewrite Hs in Hl. contradiction.
  - apply String.eqb_neq in Hr. split; [discriminate|]. tauto.
Qed.

End RulesFacts.

(** ** Assignments *)

Module AssignFacts.
Import Lex Assign Expand Notions StrFacts.

Lemma assignment_input_words ws : forall prev input,
  (prev = None \/ prev = Some tokenWord) ->
  assignment_input (map word_token ws) prev input = (input ++ ws)%list.
Proof.
  induction ws as [|w ws IH]; intros prev input Hprev; cbn [map assignment_input].
  - rewrite app_nil_r. reflexivity.
  - unfold word_token at 1.
    replace (negb true || match prev with Some p => negb match p with tokenWord => true | _ => false end | None => false end)
      with false by (destruct Hprev as [-> | ->]; reflexivity).
    rewrite IH by (right; reflexivity). rewrite <- app_assoc. reflexivity.
Qed.

Lemma expand_words_fold W fuel vars ws : forall acc,
  Forall plain_word ws ->
  fold_left
    (fun acc str =>
       let* vals := acc in
       let* ws := expand W (S fuel) str vars true in
       Ok (vals ++ ws)%list)
    ws (Ok acc)
  = Ok (acc ++ ws)%list.
Proof.
  induction ws as [|w ws IH]; intros acc Hall; cbn [fold_left].
  - rewrite app_nil_r. reflexivity.
  - inversion Hall as [|? ? [Hlen Hidx] Hrest]; subst.
    cbn [bind]. unfold expand.
    rewrite ExpandFacts.expand_loop_plain by assumption.
    change ("" +:+ w) with w.
    rewrite ExpandFacts.finish_nonempty by exact Hlen.
    cbn [bind app]. rewrite IH by exact Hrest. rewrite <- app_assoc. reflexivity.
Qed.

(** X6: an assignment whose value is made of plain words binds the
    variable to exactly these words, in their order, and changes no other
    variable. *)
Theorem executeAssignment_binds_plain_words W fuel vars ty x ws :
  isValidVarName W x = true ->
  Forall plain_word ws ->
  executeAssignment W (S fuel) vars ((ty, x) :: map word_token ws)
  = Ok (None, <[x := ws]> vars).
Proof.
  intros Hx Hws. unfold executeAssignment. rewrite Hx. cbn [negb].
  rewrite assignment_input_words by (left; reflexivity).
  cbn [app]. rewrite expand_words_fold by exact Hws. reflexivity.
Qed.

Lemma executeAssignment_binds_plain_words_witness :
  executeAssignment Sample.bare_world 1 Sample.x_abc
    ((tokenWord, "CFLAGS") :: map word_token ["-O2"; "-g"])
  = Ok (None, <["CFLAGS" := ["-O2"; "-g"]]> Sample.x_abc).
Proof.
  apply (executeAssignment_binds_plain_words Sample.bare_world 0 Sample.x_abc
           tokenWord "CFLAGS" ["-O2"; "-g"]).
  - reflexivity.
  - repeat constructor.
Defined.

End AssignFacts.


(** ** The graph walker and its reader *)

Module GraphFacts.
Import Graph Path Sample.

(** C4 at the attribute sections D: and E: in parseAttributes, whatever the
    rule: D sets RuleContinue and E sets RuleDelete, the other way around
    from the claim and from the comment above the attributes. *)
Theorem parseAttributes_swaps_D_and_E r :
  parseAttributes r "D:"
  = Ok (set_attrs r (Z.lor (attrs r) RuleContinue), "", None)
  /\ parseAttributes r "E:"
     = Ok (set_attrs r (Z.lor (attrs r) RuleDelete), "", None).
Proof. split; reflexivity. Qed.

(** The same through the reader: the rule of the line foo:D: bar. *)
Lemma parseFile_D_rule H fuel :
  parseFile H (S fuel) empty_graph ["foo:D: bar"] "." "mkfile"
  = Ok (None,
        {| vars := empty;
           rules := [set_attrs (rule_of "foo" ["bar"] "" 1) RuleContinue];
           pos_filename := "mkfile"; pos_linenr := 1 |}).
Proof. reflexivity. Qed.

(** C1 at the mkfile foo: a, foo:, and an indented echo hi: the rule set
    ends with two rules for foo, the first with the prerequisite a and no
    recipe, the second with the recipe and no prerequisite, where the claim
    has one rule with the prerequisite and the recipe. *)
Theorem parseFile_same_targets_two_rules H fuel :
  parseFile H (S fuel) empty_graph ["foo: a"; "foo:"; String tab "echo hi"]
            "." "mkfile"
  = Ok (None,
        {| vars := empty;
           rules := [rule_of "foo" ["a"] "" 1; rule_of "foo" [] "echo hi" 2];
           pos_filename := "mkfile"; pos_linenr := 3 |}).
Proof. reflexivity. Qed.

(** The sample graphs are what the reader makes of their mkfiles. *)
Lemma parseFile_cycle_lines H fuel :
  parseFile H (S fuel) empty_graph cycle_lines "." "mkfile"
  = Ok (None, cycle_graph).
Proof. reflexivity. Qed.

Lemma parseFile_meta_first H fuel :
  parseFile H (S fuel) empty_graph
            ["%.o: %.c"; String tab "cc"; "foo.o: foo.h"; String tab "special"]
            "." "mkfile"
  = Ok (None, meta_first).
Proof. reflexivity. Qed.

(** C2 as stated fails: with the meta-rule for %.o defined before the
    literal rule for foo.o, FindRule answers the meta-rule for foo.o, though
    the literal rule matches it too. *)
Lemma FindRule_meta_rule_defined_first :
  FindRule bare_host meta_first "foo.o" = Ok (Some (meta_rule, "foo", []))
  /\ match_targets bare_host (targets literal_rule) "foo.o" = Ok (Some ("", [])).
Proof. split; reflexivity. Qed.

(** C9 as stated fails: when r is asked for and depends on a, which
    depends on b, which depends on a, the error lists the path from r, not
    from the revisited name a. *)
Lemma Build_cycle_below_root :
  Build bare_host 4 cycle_graph no_files [] "r"
  = Ok (Some "circular dependency: r->a->b->a", no_files).
Proof. reflexivity. Qed.


Lemma find_in_first_match H before r after t stem subm :
  (forall r', In r' before -> match_targets H (targets r') t = Ok None) ->
  match_targets H (targets r) t = Ok (Some (stem, subm)) ->
  find_in H (before ++ r :: after) t = Ok (Some (r, stem, subm)).
Proof.
  intros Hbefore Hr. induction before as [|b before IH]; cbn [app find_in].
  - rewrite Hr. reflexivity.
  - rewrite (Hbefore b) by (left; reflexivity). cbn [bind].
    apply IH. intros r' Hin. apply Hbefore. right. exact Hin.
Qed.

(** C2 as amended: FindRule selects the first rule, in the order of
    definition, one of whose targets matches the name; a literal rule is
    selected when no rule defined before it matches, and a meta-rule defined
    before it is selected in its place. *)
Theorem FindRule_first_match H g before r after t stem subm :
  rules g = (before ++ r :: after)%list ->
  (forall r', In r' before -> match_targets H (targets r') t = Ok None) ->
  match_targets H (targets r) t = Ok (Some (stem, subm)) ->
  FindRule H g t = Ok (Some (r, stem, subm)).
Proof.
  intros Hrules Hbefore Hr. unfold FindRule. rewrite Hrules.
  apply find_in_first_match; assumption.
Qed.

Lemma FindRule_first_match_witness :
  FindRule bare_host literal_first "foo.o" = Ok (Some (literal_rule, "", [])).
Proof.
  apply (FindRule_first_match bare_host literal_first [] literal_rule [meta_rule]).
  - reflexivity.
  - intros r' [].
  - reflexivity.
Defined.

Lemma Contains_In l x : Contains l x = true <-> In x l.
Proof.
  unfold Contains. rewrite existsb_exists. split.
  - intros [y [Hin Heq]]. apply String.eqb_eq in Heq. subst. exact Hin.
  - intros Hin. exists x. split; [exact Hin|]. apply String.eqb_refl.
Qed.

Lemma Contains_false l x : ~ In x l -> Contains l x = false.
Proof.
  intros Hn. destruct (Contains l x) eqn:E; [|reflexivity].
  apply Contains_In in E. contradiction.
Qed.

(** A name that is already on the path is answered with the path and the
    name, before anything else is looked at. *)
Lemma BuildRule_revisit H build g s r history target stem subm :
  In target history ->
  BuildRule H build g s r history target stem subm
  = Ok (Some ("circular dependency: "
              +:+ Join (history ++ [target]) "->"), s).
Proof.
  intros Hin. unfold BuildRule.
  rewrite (proj2 (Contains_In history target) Hin). reflexivity.
Qed.

(** A rule with one prerequisite returns what the build of that
    prerequisite returns, error or nil: the list of errors is not empty, so
    neither isOutdated nor the recipe is reached. *)
Lemma BuildRule_single_prereq H build g s r history target stem subm
      tmpl err s' :
  ~ In target history ->
  prereqs r = [tmpl] ->
  build s (history ++ [target])%list (substitute stem subm tmpl)
  = Ok (err, s') ->
  BuildRule H build g s r history target stem subm = Ok (err, s').
Proof.
  intros Hn Hp Hb. unfold BuildRule.
  rewrite (Contains_false _ _ Hn), Hp. cbn [fold_left bind].
  rewrite Hb. destruct err; reflexivity.
Qed.

Lemma link_of_inv H g t t' :
  link_of H g t = Some t' ->
  exists r stem subm tmpl,
    FindRule H g t = Ok (Some (r, stem, subm))
    /\ prereqs r = [tmpl] /\ substitute stem subm tmpl = t'.
Proof.
  unfold link_of. intros Hl.
  destruct (FindRule H g t) as [[[[r stem] subm]|]| | |]; try discriminate.
  destruct (prereqs r) as [|tmpl [|? ?]] eqn:Hp; try discriminate.
  injection Hl as <-. exists r, stem, subm, tmpl. auto.
Qed.

Lemma Build_step H fuel g s history t r stem subm :
  FindRule H g t = Ok (Some (r, stem, subm)) ->
  Build H (S fuel) g s history t
  = BuildRule H (Build H fuel g) g s r history t stem subm.
Proof. intros Hf. cbn [Build]. rewrite Hf. reflexivity. Qed.

(** C9 as amended: when the names of [path], asked for with [history]
    already on the path, each have the next one as their only prerequisite
    and the last one has [x], a name already on the path that has a rule,
    then with enough fuel the build of the first name returns the error
    circular dependency: followed by the whole path from the first name
    asked for and by [x], joined by arrows, and runs no recipe. *)
Theorem Build_cycle_reports_path H g s path x :
  forall history fuel,
  chain H g path x ->
  List.NoDup (history ++ path) ->
  In x (history ++ path) ->
  has_rule H g x ->
  (length path < fuel)%nat ->
  Build H fuel g s history (hd "" path)
  = Ok (Some ("circular dependency: "
              +:+ Join (history ++ path ++ [x]) "->"), s).
Proof.
  induction path as [|t path IH]; intros history fuel Hchain Hnd Hx Hrule Hfuel.
  - destruct Hchain.
  - assert (Hnot : ~ In t history).
    { intros Hin. apply NoDup_remove_2 in Hnd. apply Hnd.
      apply in_or_app. left. exact Hin. }
    destruct fuel as [|fuel]; [simpl in Hfuel; lia|].
    cbn [hd]. destruct path as [|t' rest].
    + cbn [chain] in Hchain.
      destruct (link_of_inv _ _ _ _ Hchain) as (r & stem & subm & tmpl & Hf & Hp & Hs).
      rewrite (Build_step _ _ _ _ _ _ _ _ _ Hf).
      apply BuildRule_single_prereq with (tmpl := tmpl); [exact Hnot|exact Hp|].
      rewrite Hs. destruct fuel as [|fuel]; [simpl in Hfuel; lia|].
      destruct Hrule as [[[r' stem'] subm'] Hf'].
      rewrite (Build_step _ _ _ _ _ _ _ _ _ Hf').
      rewrite BuildRule_revisit by exact Hx.
      rewrite <- app_assoc. reflexivity.
    + cbn [chain] in Hchain. destruct Hchain as [Hlink Hchain].
      destruct (link_of_inv _ _ _ _ Hlink) as (r & stem & subm & tmpl & Hf & Hp & Hs).
      rewrite (Build_step _ _ _ _ _ _ _ _ _ Hf).
      apply BuildRule_single_prereq with (tmpl := tmpl); [exact Hnot|exact Hp|].
      rewrite Hs.
      specialize (IH (history ++ [t])%list fuel Hchain).
      cbn [hd] in IH. rewrite IH.
      * rewrite <- app_assoc. reflexivity.
      * rewrite <- app_assoc. exact Hnd.
      * rewrite <- app_assoc. exact Hx.
      * exact Hrule.
      * simpl in Hfuel |- *. lia.
Qed.

Lemma Build_cycle_reports_path_witness :
  Build bare_host 3 cycle_graph no_files [] "a"
  = Ok (Some "circular dependency: a->b->a", no_files).
Proof.
  apply (Build_cycle_reports_path bare_host cycle_graph no_files ["a"; "b"] "a" [] 3%nat).
  - split; reflexivity.
  - repeat constructor; simpl; intuition discriminate.
  - left. reflexivity.
  - eexists. reflexivity.
  - simpl. lia.
Defined.


(** The default target is built under the name <default>, so its own name
    is revisited once before the cycle is seen. *)
Lemma BuildRule_default_target_cycle :
  DefaultTarget cycle_graph = Some (rule_of "a" ["b"] ":" 1)
  /\ BuildRule bare_host (Build bare_host 3 cycle_graph) cycle_graph no_files
       (rule_of "a" ["b"] ":" 1) [] "<default>" "" []
     = Ok (Some "circular dependency: <default>->b->a->b", no_files).
Proof. split; reflexivity. Qed.

(** isOutdated answers false for a target that exists and is newer than
    each of its prerequisites, which all exist. *)
Lemma isOutdated_newer_target fs target prereqs ttime :
  fs !! target = Some ttime ->
  (forall p, In p prereqs -> exists ptime, fs !! p = Some ptime /\ ptime < ttime) ->
  isOutdated fs target prereqs = false.
Proof.
  intros Ht Hall. unfold isOutdated. rewrite Ht.
  induction prereqs as [|p ps IH]; [reflexivity|]. cbn [existsb].
  destruct (Hall p) as (ptime & Hp & Hlt); [left; reflexivity|].
  rewrite Hp. replace (ttime <? ptime) with false by (symmetry; apply Z.ltb_ge; lia).
  apply IH. intros q Hq. apply Hall. right. exact Hq.
Qed.

(** X22: BuildRule returns before the recipe for a target without
    prerequisites that exists. *)
Lemma BuildRule_existing_target_not_rebuilt H build g s r history target
      stem subm ttime :
  ~ In target history ->
  prereqs r = [] ->
  files s !! target = Some ttime ->
  BuildRule H build g s r history target stem subm = Ok (None, s).
Proof.
  intros Hn Hp Ht. unfold BuildRule.
  rewrite (Contains_false _ _ Hn), Hp. cbn [fold_left bind length Z.of_nat].
  change (0 <? 0) with false. cbv iota.
  rewrite (isOutdated_newer_target (files s) target [] ttime Ht); [reflexivity|].
  intros p [].
Qed.


(** *** What parseRule can do to the rules *)

Lemma parseAttributes_loop_recipe rounds r text r' text' err :
  parseAttributes_loop rounds r text = Ok (r', text', err) ->
  recipe r' = recipe r.
Proof.
  revert r text. induction rounds as [|rounds IH]; intros r text; cbn [parseAttributes_loop].
  - discriminate.
  - destruct (contains_byte text ":"); [|intros [= <- _ _]; reflexivity].
    destruct (at_index text 0) as [c| | |]; cbn [bind]; try discriminate.
    destruct (attribute_bit c) as [bit|].
    + destruct (slice_from text 1) as [text1| | |]; cbn [bind]; try discriminate.
      intros Hl. apply IH in Hl. exact Hl.
    + destruct (Ascii.eqb c "P").
      * destruct (slice_to text (IndexByte text ":")) as [prog| | |];
          cbn [bind]; try discriminate.
        destruct (slice_from text (IndexByte text ":")) as [text1| | |];
          cbn [bind]; try discriminate.
        intros Hl. apply IH in Hl. exact Hl.
      * destruct (Ascii.eqb c ":").
        -- destruct (slice_from text 1) as [text1| | |]; cbn [bind]; try discriminate.
           apply IH.
        -- destruct (Ascii.eqb c " " || Ascii.eqb c tab); intros [= <- _ _]; reflexivity.
Qed.

Lemma compile_targets_recipe H g names : forall r r' err,
  compile_targets H g r names = Ok (r', err) -> recipe r' = recipe r.
Proof.
  induction names as [|name names IH]; intros r r' err; cbn [compile_targets].
  - intros [= <- _]. reflexivity.
  - destruct (expand H g name false) as [sname| | |]; cbn [bind]; try discriminate.
    destruct (String.eqb sname ""); [apply IH|].
    destruct (CompileTarget H sname (Z.land (attrs r) RuleRegex >? 0))
      as [[t isconst] [e|]].
    + intros [= <- _]. reflexivity.
    + intros Hc. apply IH in Hc. rewrite Hc. destruct (negb isconst); reflexivity.
Qed.

Lemma expand_prereqs_recipe H g names : forall r r',
  expand_prereqs H g r names = Ok r' -> recipe r' = recipe r.
Proof.
  induction names as [|name names IH]; intros r r'; cbn [expand_prereqs].
  - intros [= <-]. reflexivity.
  - destruct (expand H g name false) as [sname| | |]; cbn [bind]; try discriminate.
    destruct (String.eqb sname ""); [apply IH|].
    intros Hc. apply IH in Hc. exact Hc.
Qed.

(** The outcome of the scan for a new rule without a recipe: the new rule
    takes the place of a rule with the same targets and prerequisites, or
    the scan finds nothing; prerequisites are never appended and no
    ambiguity is reported. *)
Lemma rulescan_without_recipe r todo : forall done sc,
  recipe r = "" ->
  rulescan r done todo = Ok sc ->
  match sc with
  | scanMerged rs =>
      exists before existing after,
        (done ++ todo = before ++ existing :: after)%list
        /\ rs = (before ++ r :: after)%list
        /\ same_pats (targets r) (targets existing) = true
        /\ list_string_eqb (prereqs existing) (prereqs r) = true
  | scanAmbiguous _ => False
  | scanNoMatch => True
  end.
Proof.
  induction todo as [|existing todo IH]; intros done sc Hrec; cbn [rulescan].
  - intros [= <-]. exact I.
  - rewrite Hrec. change (TrimSpace "") with "". change (String.eqb "" "") with true.
    cbn [negb]. rewrite !andb_false_r.
    destruct (same_pats (targets r) (targets existing)) eqn:Hpats; cbn [negb].
    + destruct (list_string_eqb (prereqs existing) (prereqs r)) eqn:Hsame.
      * intros [= <-]. exists done, existing, todo. auto.
      * intros Hs. specialize (IH _ _ Hrec Hs). destruct sc; auto.
        destruct IH as (b & e & a & Heq & Hrs & Hp & Hq).
        exists b, e, a. rewrite <- app_assoc in Heq. auto.
    + intros Hs. specialize (IH _ _ Hrec Hs). destruct sc; auto.
      destruct IH as (b & e & a & Heq & Hrs & Hp & Hq).
      exists b, e, a. rewrite <- app_assoc in Heq. auto.
Qed.

(** X27: whatever the line, parseRule hands the scan a rule without a
    recipe; so a rule line either puts its rule in the place of one with the
    same targets and the same prerequisites or appends it. *)
Lemma parseRule_replaces_or_appends H g line idx g' :
  parseRule H g line idx = Ok (None, g') ->
  exists r,
    recipe r = ""
    /\ (rules g' = (rules g ++ [r])%list
        \/ exists before existing after,
             rules g = (before ++ existing :: after)%list
             /\ rules g' = (before ++ r :: after)%list
             /\ same_pats (targets r) (targets existing) = true
             /\ list_string_eqb (prereqs existing) (prereqs r) = true).
Proof.
  unfold parseRule.
  destruct (slice_to line idx) as [targetstr| | |]; cbn [bind]; try discriminate.
  destruct (slice_from line (idx + 1)) as [prereqstr| | |]; cbn [bind]; try discriminate.
  destruct (parseAttributes _ prereqstr) as [[[r1 prereqstr1] err1]| | |] eqn:Hattr;
    cbn [bind]; try discriminate.
  apply parseAttributes_loop_recipe in Hattr. cbn [recipe] in Hattr.
  destruct err1; [discriminate|].
  destruct (compile_targets H g r1 _) as [[r2 err2]| | |] eqn:Hct;
    cbn [bind]; try discriminate.
  apply compile_targets_recipe in Hct.
  destruct err2; [discriminate|].
  destruct (expand_prereqs H g r2 _) as [r3| | |] eqn:Hep; cbn [bind]; try discriminate.
  apply expand_prereqs_recipe in Hep.
  assert (Hrec : recipe r3 = "") by congruence.
  destruct (rulescan r3 [] (rules g)) as [sc| | |] eqn:Hscan; cbn [bind]; try discriminate.
  apply (rulescan_without_recipe _ _ _ _ Hrec) in Hscan.
  destruct sc as [rs|msg|].
  - intros [= <-]. destruct Hscan as (b & e & a & Heq & Hrs & Hp & Hq).
    exists r3. split; [exact Hrec|]. right. exists b, e, a. cbn in Heq. auto.
  - destruct Hscan.
  - intros [= <-]. exists r3. split; [exact Hrec|]. left. reflexivity.
Qed.

(** *** Patterns with a stem *)

Import Notions StrFacts RuneFacts.

(** What CompileTarget answers for a pattern with a percent sign. *)
Lemma CompileTarget_percent H pre post :
  IndexByte pre "%" = -1 ->
  CompileTarget H (pre +:+ String "%" post) false
  = ({| pat := pre +:+ String "%" post; matching := matchStem pre post;
        constant := false |}, false, None).
Proof.
  intros Hpre. unfold CompileTarget.
  change "%"%string with (str1 "%"). rewrite (Cut_at pre "%" post Hpre).
  reflexivity.
Qed.

(** X16: the target compiled from a pattern with a percent sign matches
    every name made of the text before the sign, a stem and the text after
    it, and answers that stem. *)
Theorem CompileTarget_percent_matches_stem H pre post stem :
  IndexByte pre "%" = -1 ->
  target_match H (fst (fst (CompileTarget H (pre +:+ String "%" post) false)))
               (pre +:+ stem +:+ post)
  = Ok (stem, [], true).
Proof.
  intros Hpre. rewrite CompileTarget_percent by exact Hpre. cbn [fst].
  unfold target_match. cbn [matching].
  unfold HasPrefix. rewrite has_prefix_app.
  rewrite <- append_assoc. rewrite HasSuffix_app. cbn [andb].
  rewrite append_assoc.
  replace (len (pre +:+ stem +:+ post) - len post) with (len pre + len stem)
    by (rewrite !len_append; lia).
  rewrite slice_middle. reflexivity.
Qed.

Lemma CompileTarget_percent_matches_stem_witness :
  target_match bare_host (fst (fst (CompileTarget bare_host "lib%.a" false)))
               "libfoo.a"
  = Ok ("foo", [], true).
Proof.
  apply (CompileTarget_percent_matches_stem bare_host "lib" ".a" "foo").
  reflexivity.
Defined.

(** X17: when the target of a pattern with a stem matches a name, the
    name is the text before the sign, the stem that is answered and the text
    after the sign. *)
Theorem target_match_stem_sound H p pre post input stem subm :
  target_match H {| pat := p; matching := matchStem pre post;
                    constant := false |} input
  = Ok (stem, subm, true) ->
  input = pre +:+ stem +:+ post /\ subm = [].
Proof.
  unfold target_match. cbn [matching].
  destruct (HasPrefix input pre) eqn:Hp; [|discriminate].
  destruct (HasSuffix input post) eqn:Hs; [|discriminate].
  cbn [andb]. unfold slice.
  destruct ((0 <=? len pre) && (len pre <=? len input - len post)
            && (len input - len post <=? len input)) eqn:Hb; [|discriminate].
  cbn [bind]. intros [= <- <-]. split; [|reflexivity].
  apply andb_true_iff in Hb as [Hb _]. apply andb_true_iff in Hb as [_ Hb].
  apply Z.leb_le in Hb. unfold len in Hb.
  apply HasSuffix_split in Hs as [Hl Hs].
  unfold HasPrefix in Hp. apply has_prefix_split in Hp.
  set (n := String.length input) in *. set (a := String.length pre) in *.
  set (b := String.length post) in *.
  replace (Z.to_nat (len input - len post - len pre)) with (n - b - a)%nat
    by (unfold len; fold n a b; lia).
  replace (Z.to_nat (len pre)) with a by (unfold len; fold a; lia).
  assert (Hd : drop a input
               = take (n - b - a) (drop a input) +:+ post).
  { rewrite <- (take_drop (n - b - a) (drop a input)) at 1.
    f_equal. rewrite drop_drop.
    replace (a + (n - b - a))%nat with (n - b)%nat by lia.
    apply (append_inj_l (take (n - b) input)).
    rewrite take_drop. exact Hs. }
  rewrite Hp at 1. rewrite <- Hd. reflexivity.
Qed.

Lemma target_match_stem_sound_witness :
  target_match bare_host
    {| pat := "lib%.a"; matching := matchStem "lib" ".a"; constant := false |}
    "libfoo.a"
  = Ok ("foo", [], true)
  /\ "libfoo.a" = "lib" +:+ "foo" +:+ ".a" /\ @nil string = [].
Proof.
  split; [reflexivity|].
  apply (target_match_stem_sound bare_host "lib%.a" "lib" ".a" "libfoo.a"
           "foo" []).
  reflexivity.
Defined.

(** X18: a name that is shorter than the two sides of the pattern
    together and yet begins with the one and ends with the other makes the
    match panic: the slice that is to give the stem ends before it
    begins. *)
Theorem target_match_overlap_panics H p pre post input :
  HasPrefix input pre = true ->
  HasSuffix input post = true ->
  len input < len pre + len post ->
  target_match H {| pat := p; matching := matchStem pre post;
                    constant := false |} input
  = Panic.
Proof.
  intros Hp Hs Hlen. unfold target_match. cbn [matching].
  rewrite Hp, Hs. cbn [andb]. unfold slice.
  replace (len pre <=? len input - len post) with false
    by (symmetry; apply Z.leb_gt; lia).
  rewrite andb_false_r. reflexivity.
Qed.

Lemma target_match_overlap_panics_witness :
  CompileTarget bare_host "ab%bc" false
  = ({| pat := "ab%bc"; matching := matchStem "ab" "bc"; constant := false |},
     false, None)
  /\ target_match bare_host
       {| pat := "ab%bc"; matching := matchStem "ab" "bc"; constant := false |}
       "abc"
     = Panic.
Proof.
  split; [reflexivity|].
  apply (target_match_overlap_panics bare_host "ab%bc" "ab" "bc" "abc");
    [reflexivity|reflexivity|vm_compute; reflexivity].
Defined.

(** *** FindRule *)

Lemma match_targets_sound H ts t found :
  match_targets H ts t = Ok found ->
  match found with
  | Some (stem, subm) =>
      exists tg, In tg ts /\ target_match H tg t = Ok (stem, subm, true)
  | None =>
      forall tg, In tg ts ->
                 exists stem subm, target_match H tg t = Ok (stem, subm, false)
  end.
Proof.
  revert found. induction ts as [|tg ts IH]; intros found; cbn [match_targets].
  - intros [= <-]. intros tg [].
  - destruct (target_match H tg t) as [[[stem subm] ok]| | |] eqn:Hm;
      try discriminate.
    cbn [bind]. destruct ok.
    + intros [= <-]. exists tg. split; [left; reflexivity|exact Hm].
    + intros Hrest. specialize (IH found Hrest).
      destruct found as [[stem' subm']|].
      * destruct IH as (tg' & Hin & Htg'). exists tg'. split; [right; exact Hin|exact Htg'].
      * intros tg' [<-|Hin]; [exists stem, subm; exact Hm|apply IH; exact Hin].
Qed.

(** X19: the rule that FindRule answers is a rule of the graph, and one
    of its targets matches the name with the stem and the submatches that
    are answered; when FindRule answers no rule, no target of any rule of
    the graph matches the name. *)
Theorem FindRule_sound H g t found :
  FindRule H g t = Ok found ->
  match found with
  | Some (r, stem, subm) =>
      In r (rules g)
      /\ exists tg, In tg (targets r)
                    /\ target_match H tg t = Ok (stem, subm, true)
  | None =>
      forall r tg, In r (rules g) -> In tg (targets r) ->
                   exists stem subm,
                     target_match H tg t = Ok (stem, subm, false)
  end.
Proof.
  unfold FindRule. generalize (rules g) as rs. intros rs. revert found.
  induction rs as [|r rs IH]; intros found; cbn [find_in].
  - intros [= <-]. intros r tg [].
  - destruct (match_targets H (targets r) t) as [m| | |] eqn:Hm; try discriminate.
    cbn [bind]. pose proof (match_targets_sound H _ _ _ Hm) as Hs.
    destruct m as [[stem subm]|].
    + intros [= <-]. split; [left; reflexivity|exact Hs].
    + intros Hrest. specialize (IH found Hrest).
      destruct found as [[[r' stem'] subm']|].
      * destruct IH as [Hin Htg]. split; [right; exact Hin|exact Htg].
      * intros r' tg [<-|Hin] Htg; [apply Hs; exact Htg|].
        apply (IH r' tg Hin Htg).
Qed.

Lemma FindRule_sound_witness :
  FindRule bare_host meta_first "foo.o" = Ok (Some (meta_rule, "foo", []))
  /\ In meta_rule (rules meta_first)
  /\ exists tg, In tg (targets meta_rule)
                /\ target_match bare_host tg "foo.o" = Ok ("foo", [], true).
Proof.
  split; [reflexivity|].
  apply (FindRule_sound bare_host meta_first "foo.o"
           (Some (meta_rule, "foo", []))).
  reflexivity.
Defined.

(** *** isOutdated *)

(** X20: a target is up to date exactly when it exists and every
    prerequisite exists and is not newer than it. *)
Theorem isOutdated_false_iff fs target prereqs :
  isOutdated fs target prereqs = false
  <-> exists ttime,
        fs !! target = Some ttime
        /\ Forall (fun p => exists ptime,
                              fs !! p = Some ptime /\ ptime <= ttime) prereqs.
Proof.
  unfold isOutdated. destruct (fs !! target) as [ttime|].
  - split.
    + intros Hex. exists ttime. split; [reflexivity|].
      induction prereqs as [|p ps IH]; [constructor|].
      cbn [existsb] in Hex. apply orb_false_iff in Hex as [Hp Hps].
      constructor; [|apply IH; exact Hps].
      destruct (fs !! p) as [ptime|]; [|discriminate].
      exists ptime. split; [reflexivity|]. apply Z.ltb_ge in Hp. exact Hp.
    + intros (tt' & [= <-] & Hall).
      induction Hall as [|p ps (ptime & Hp & Hle) _ IH]; [reflexivity|].
      cbn [existsb]. rewrite Hp, IH.
      replace (ttime <? ptime) with false by (symmetry; apply Z.ltb_ge; lia).
      reflexivity.
  - split; [discriminate|]. intros (tt' & Hn & _). discriminate.
Qed.

(** *** Prerequisites *)

Lemma replace_percent_none new s :
  IndexByte s "%" = -1 -> replace_go "%" new 0 s = s.
Proof.
  induction s as [|c s IH]; [reflexivity|].
  unfold IndexByte. cbn [index_where replace_go].
  destruct (Ascii.eqb "%" c) eqn:Hc; [discriminate|].
  pose proof (index_where_lower (Ascii.eqb "%") s) as Hlow.
  destruct (index_where (Ascii.eqb "%") s <? 0) eqn:E; [|lia].
  apply Z.ltb_lt in E. intros _.
  cbn [has_prefix]. rewrite Hc. cbn [andb].
  rewrite IH by (unfold IndexByte; lia). reflexivity.
Qed.

Lemma replace_percent_app new pre post :
  IndexByte pre "%" = -1 ->
  replace_go "%" new 0 (pre +:+ String "%" post)
  = pre +:+ new +:+ replace_go "%" new 0 post.
Proof.
  induction pre as [|c pre IH].
  - intros _. change ("" +:+ String "%" post) with (String "%" post).
    cbn [replace_go has_prefix String.length Nat.sub]. reflexivity.
  - unfold IndexByte. cbn [index_where].
    destruct (Ascii.eqb "%" c) eqn:Hc; [discriminate|].
    pose proof (index_where_lower (Ascii.eqb "%") pre) as Hlow.
    destruct (index_where (Ascii.eqb "%") pre <? 0) eqn:E; [|lia].
    apply Z.ltb_lt in E. intros _.
    change (String c pre +:+ String "%" post)
      with (String c (pre +:+ String "%" post)).
    cbn [replace_go has_prefix]. rewrite Hc. cbn [andb].
    rewrite IH by (unfold IndexByte; lia). reflexivity.
Qed.

(** X21: a stem that is not empty takes the place of the percent sign of
    a prerequisite, and the text around the sign stays. *)
Theorem substitute_fills_stem stem pre post :
  stem <> "" ->
  IndexByte pre "%" = -1 ->
  IndexByte post "%" = -1 ->
  substitute stem [] (pre +:+ String "%" post) = pre +:+ stem +:+ post.
Proof.
  intros Hs Hpre Hpost. unfold substitute. cbn [fold_left snd].
  replace (String.eqb stem "") with false
    by (symmetry; apply String.eqb_neq; exact Hs).
  cbn [negb]. unfold ReplaceAll.
  rewrite replace_percent_app by exact Hpre.
  rewrite replace_percent_none by exact Hpost. reflexivity.
Qed.

Lemma substitute_fills_stem_witness :
  substitute "foo" [] ("src/" +:+ String "%" ".c") = "src/" +:+ "foo" +:+ ".c".
Proof.
  apply (substitute_fills_stem "foo" "src/" ".c");
    [discriminate|reflexivity|reflexivity].
Defined.

(** *** Build *)

Lemma BuildRule_existing_target_not_rebuilt_witness :
  BuildRule bare_host (Build bare_host 0 copy_graph) copy_graph src_only leaf_rule []
            "src" "" []
  = Ok (None, src_only).
Proof.
  apply (BuildRule_existing_target_not_rebuilt bare_host (Build bare_host 0 copy_graph)
           copy_graph src_only leaf_rule [] "src" "" [] 10).
  - intros [].
  - reflexivity.
  - reflexivity.
Defined.

(** The rule that the loop of FindRule answers is one of the rules. *)
Lemma find_in_In H rs t r stem subm :
  find_in H rs t = Ok (Some (r, stem, subm)) -> In r rs.
Proof.
  induction rs as [|r0 rs IH]; cbn [find_in]; [discriminate|].
  destruct (match_targets H (targets r0) t) as [[[stem0 subm0]|]| | |];
    try discriminate; cbn [bind].
  - intros [= <- _ _]. left. reflexivity.
  - intros Hr. right. apply IH. exact Hr.
Qed.

Lemma BuildRule_prereqs_fold
      (build : sys -> list string -> string -> result (error * sys))
      history stem subm s0 tmpls :
  (forall s h t e s', build s h t = Ok (e, s') -> s' = s) ->
  forall ps errs ps' errs' s',
    fold_left
      (fun acc tmpl =>
         let* '(prereqs, errs, s) := acc in
         let p := substitute stem subm tmpl in
         let* '(err, s) := build s history p in
         Ok ((prereqs ++ [p])%list, (errs ++ [err])%list, s))
      tmpls (Ok (ps, errs, s0))
    = Ok (ps', errs', s') ->
    s' = s0 /\ length errs' = (length errs + length tmpls)%nat.
Proof.
  intros Hbuild. induction tmpls as [|tmpl tmpls IH]; intros ps errs ps' errs' s'.
  - cbn [fold_left]. intros [= <- <- <-]. split; [reflexivity|cbn; lia].
  - cbn [fold_left bind].
    destruct (build s0 history (substitute stem subm tmpl))
      as [[err s1]| | |] eqn:Hb.
    + cbn [bind]. apply Hbuild in Hb. subst s1. intros Hf.
      apply IH in Hf as [Hs Hl]. split; [exact Hs|].
      rewrite Hl, List.length_app. cbn [length]. lia.
    + cbn [bind]. intros Hf. exfalso. revert Hf. clear.
      induction tmpls as [|x xs IHx]; cbn [fold_left bind]; [discriminate|exact IHx].
    + cbn [bind]. intros Hf. exfalso. revert Hf. clear.
      induction tmpls as [|x xs IHx]; cbn [fold_left bind]; [discriminate|exact IHx].
    + cbn [bind]. intros Hf. exfalso. revert Hf. clear.
      induction tmpls as [|x xs IHx]; cbn [fold_left bind]; [discriminate|exact IHx].
Qed.

Lemma BuildRule_runs_nothing H
      (build : sys -> list string -> string -> result (error * sys))
      g s r history target stem subm e s' :
  (forall s h t e s', build s h t = Ok (e, s') -> s' = s) ->
  (prereqs r = [] -> recipe r = "") ->
  BuildRule H build g s r history target stem subm = Ok (e, s') ->
  s' = s.
Proof.
  intros Hbuild Hr. unfold BuildRule.
  destruct (Contains history target); [intros [= _ <-]; reflexivity|].
  match goal with
  | |- context [fold_left ?f ?l ?a] => destruct (fold_left f l a) as [[[ps errs] s1]| | |] eqn:Hf
  end; try discriminate.
  cbn [bind]. apply (BuildRule_prereqs_fold build) in Hf as [Hs Hl]; [|exact Hbuild].
  subst s1. cbn [length] in Hl.
  destruct (0 <? Z.of_nat (length errs)) eqn:Hn; [intros [= _ <-]; reflexivity|].
  apply Z.ltb_ge in Hn.
  assert (Hp : prereqs r = []).
  { destruct (prereqs r); [reflexivity|]. cbn [length] in Hl. lia. }
  rewrite (Hr Hp).
  destruct (negb (isOutdated (files s) target ps)); [intros [= _ <-]; reflexivity|].
  change (len "" =? 0) with true. cbv iota. intros [= _ <-]. reflexivity.
Qed.

(** X23: Build runs the recipe of no rule that has prerequisites: in a
    graph whose rules without prerequisites have no recipe, a build that
    returns has run nothing and has left the files as they were. *)
Theorem Build_runs_only_rules_without_prereqs H g fuel s history target e s' :
  (forall r, In r (rules g) -> prereqs r = [] -> recipe r = "") ->
  Build H fuel g s history target = Ok (e, s') ->
  s' = s.
Proof.
  intros Hg. revert s history target e s'.
  induction fuel as [|fuel IH]; intros s history target e s'; [discriminate|].
  cbn [Build].
  destruct (FindRule H g target) as [found| | |] eqn:Hf; try discriminate.
  cbn [bind]. destruct found as [[[r stem] subm]|].
  - pose proof (find_in_In H (rules g) target r stem subm Hf) as Hin.
    intros Hb.
    apply (BuildRule_runs_nothing H (Build H fuel g) g s r history target stem
             subm e s'); [exact IH|apply Hg; exact Hin|exact Hb].
  - destruct (files s !! target); intros [= _ <-]; reflexivity.
Qed.

Lemma Build_runs_only_rules_without_prereqs_witness :
  Build bare_host 2 copy_graph src_only [] "out" = Ok (None, src_only)
  /\ src_only = src_only.
Proof.
  split; [reflexivity|].
  apply (Build_runs_only_rules_without_prereqs bare_host copy_graph 2 src_only
           [] "out" None src_only).
  - intros r [<-|[]] Hp. discriminate Hp.
  - reflexivity.
Defined.

(** *** The reader *)

(** X12: a bracketed reference with a pattern, made of the name, a colon,
    one character, a text, a percent sign and a second text: the character
    after the colon is skipped; when the value begins with the first text,
    the answer is the second text with its percent signs replaced by the
    rest of the value, and otherwise it is the value as it is. No suffix of
    the value is ever looked at. *)
Theorem parseExpr_pattern H g name x lhs rhs rest val keep :
  IndexByte (name +:+ String ":" (String x (lhs +:+ String "%" rhs))) "}" = -1 ->
  IndexByte name ":" = -1 ->
  IndexByte lhs "%" = -1 ->
  vars g !! name = Some val ->
  parseExpr H g
    (String "{" (name +:+ String ":" (String x (lhs +:+ String "%" rhs)))
     +:+ String "}" rest) keep
  = Ok (if HasPrefix val lhs
        then ReplaceAll rhs "%" (drop (String.length lhs) val)
        else val,
        len name + len lhs + len rhs + 5).
Proof.
  intros Hclose Hcolon Hperc Hval.
  set (inner := name +:+ String ":" (String x (lhs +:+ String "%" rhs))) in *.
  set (text := String "{" inner +:+ String "}" rest).
  pose proof (len_nonneg name) as Hn0. pose proof (len_nonneg lhs) as Hl0.
  pose proof (len_nonneg rhs) as Hr0. pose proof (len_nonneg rest) as Hq0.
  assert (Hinner : len inner = len name + len lhs + len rhs + 3).
  { unfold inner. rewrite len_append, !len_String, len_append, len_String. lia. }
  assert (Htext : len text = len inner + len rest + 2).
  { unfold text. rewrite len_append, !len_String. lia. }
  unfold parseExpr.
  replace (len text =? 0) with false by (symmetry; apply Z.eqb_neq; lia).
  change (at_index text 0) with (Ok "{"%char). cbn [bind].
  change (Ascii.eqb "{" "{") with true. cbv iota.
  assert (Hfin : IndexByte text "}" = len inner + 1).
  { unfold text.
    replace (len inner + 1) with (len (String "{" inner))
      by (rewrite len_String; reflexivity).
    apply index_where_app; [|reflexivity].
    unfold IndexByte in Hclose |- *. cbn [index_where].
    change (Ascii.eqb "}" "{") with false. rewrite Hclose. reflexivity. }
  rewrite Hfin.
  replace (len inner + 1 =? -1) with false by (symmetry; apply Z.eqb_neq; lia).
  assert (Hsl : slice text 1 (len inner + 1) = Ok inner).
  { replace (len inner + 1) with (1 + len inner) by lia.
    exact (slice_middle (str1 "{") inner (String "}" rest)). }
  rewrite Hsl. cbn [bind].
  change ":"%string with (str1 ":").
  unfold inner at 1. rewrite (Cut_at name ":" _ Hcolon).
  rewrite Hval.
  replace (0 <? len (String x (lhs +:+ String "%" rhs))) with true
    by (symmetry; apply Z.ltb_lt; rewrite len_String, len_append, len_String; lia).
  rewrite slice_from_1. cbn [bind].
  change "%"%string with (str1 "%").
  rewrite (Cut_at lhs "%" rhs Hperc). cbn [negb].
  rewrite (Cut_none lhs "%" Hperc).
  rewrite HasSuffix_nil, andb_true_r.
  replace (len inner + 1 + 1) with (len name + len lhs + len rhs + 5) by lia.
  destruct (HasPrefix val lhs) eqn:Hp; [|reflexivity].
  change (len "") with 0. rewrite Z.sub_0_r.
  assert (Hle : len lhs <= len val).
  { unfold HasPrefix in Hp. apply has_prefix_split in Hp.
    rewrite Hp, len_append. pose proof (len_nonneg (drop (String.length lhs) val)).
    lia. }
  fold (slice_from val (len lhs)).
  rewrite slice_from_drop by lia. cbn [bind].
  unfold len. rewrite Nat2Z.id. reflexivity.
Qed.

Lemma parseExpr_pattern_witness :
  parseExpr bare_host objs_graph
    (String "{" ("SRC" +:+ String ":" (String "%" (".c=" +:+ String "%" ".o")))
     +:+ String "}" "")
    false
  = Ok ("main.c", 13).
Proof.
  apply (parseExpr_pattern bare_host objs_graph "SRC" "%"%char ".c=" ".o" ""
           "main.c" false); reflexivity.
Defined.

Lemma findNextUnquoted_from_sound chrs text : forall q i c k,
  findNextUnquoted_from text chrs q i = (Some c, k) ->
  i <= k < i + len text
  /\ at_index text (k - i) = Ok c
  /\ contains_byte chrs c = true
  /\ contains_byte Quotes c = false.
Proof.
  induction text as [|d text IH]; intros q i c k; cbn [findNextUnquoted_from].
  - discriminate.
  - pose proof (len_nonneg text) as Ht. rewrite len_String.
    assert (Hnext : forall q',
      findNextUnquoted_from text chrs q' (i + 1) = (Some c, k) ->
      i <= k < i + (len text + 1)
      /\ at_index (String d text) (k - i) = Ok c
      /\ contains_byte chrs c = true
      /\ contains_byte Quotes c = false).
    { intros q' Hq. apply IH in Hq as (Hk & Hat & Hc & Hnq).
      repeat split; try lia; try assumption.
      unfold at_index in Hat |- *.
      destruct ((0 <=? k - (i + 1)) && (k - (i + 1) <? len text)) eqn:E;
        [|discriminate].
      replace ((0 <=? k - i) && (k - i <? len (String d text))) with true
        by (symmetry; rewrite len_String; apply andb_true_iff; split;
            [apply Z.leb_le|apply Z.ltb_lt]; lia).
      replace (Z.to_nat (k - i)) with (S (Z.to_nat (k - (i + 1)))) by lia.
      exact Hat. }
    destruct q as [q|].
    + destruct (Ascii.eqb q d); apply Hnext.
    + destruct (contains_byte Quotes d) eqn:Hq; [apply Hnext|].
      destruct (contains_byte chrs d) eqn:Hc; [|apply Hnext].
      intros [= <- <-]. repeat split; try lia; try assumption.
      replace (i - i) with 0 by lia. reflexivity.
Qed.

(** X24: the character that findNextUnquoted answers stands at the offset
    that is answered with it, is one of the characters looked for and is
    not a quote. *)
Theorem findNextUnquoted_sound text chrs c k :
  findNextUnquoted text chrs = (Some c, k) ->
  0 <= k < len text
  /\ at_index text k = Ok c
  /\ contains_byte chrs c = true
  /\ contains_byte Quotes c = false.
Proof.
  unfold findNextUnquoted. intros Hf.
  apply findNextUnquoted_from_sound in Hf as (Hk & Hat & Hc & Hq).
  rewrite Z.sub_0_r in Hat. repeat split; try lia; assumption.
Qed.

Lemma findNextUnquoted_sound_witness :
  findNextUnquoted "a 'b:c':d" ":<=" = (Some ":"%char, 7)
  /\ 0 <= 7 < len "a 'b:c':d"
  /\ at_index "a 'b:c':d" 7 = Ok ":"%char
  /\ contains_byte ":<=" ":" = true
  /\ contains_byte Quotes ":" = false.
Proof.
  split; [reflexivity|].
  apply (findNextUnquoted_sound "a 'b:c':d" ":<=" ":"%char 7). reflexivity.
Defined.

Lemma findNextUnquoted_from_none chrs text : forall q i k,
  findNextUnquoted_from text chrs q i = (None, k) -> k = -1.
Proof.
  induction text as [|d text IH]; intros q i k; cbn [findNextUnquoted_from].
  - intros [= <-]. reflexivity.
  - destruct q as [q|].
    + destruct (Ascii.eqb q d); apply IH.
    + destruct (contains_byte Quotes d); [apply IH|].
      destruct (contains_byte chrs d); [discriminate|apply IH].
Qed.

Lemma blank_only_cons c ws :
  blank_only (String c ws) = true ->
  (c = " "%char \/ c = tab) /\ blank_only ws = true.
Proof.
  cbn [blank_only]. intros Hb. apply andb_true_iff in Hb as [Hc Hb].
  split; [|exact Hb]. apply orb_true_iff in Hc as [Hc|Hc];
    apply Ascii.eqb_eq in Hc; auto.
Qed.

Lemma drop_spaces_blanks ws :
  blank_only ws = true -> drop_spaces (runes ws) = [].
Proof.
  induction ws as [|c ws IH]; intros Hb; [reflexivity|].
  apply blank_only_cons in Hb as [Hc Hb].
  rewrite runes_ascii_cons by (destruct Hc as [-> | ->]; vm_compute; reflexivity).
  cbn [drop_spaces].
  replace (IsSpace (byte_val c)) with true
    by (destruct Hc as [-> | ->]; reflexivity).
  apply IH. exact Hb.
Qed.

Lemma TrimSpace_blanks ws : blank_only ws = true -> TrimSpace ws = "".
Proof.
  intros Hb. unfold TrimSpace. rewrite drop_spaces_blanks by exact Hb.
  reflexivity.
Qed.

Lemma findNextUnquoted_from_blanks ws text : forall i,
  blank_only ws = true ->
  findNextUnquoted_from (ws +:+ String "#" text) "#" None i
  = (Some "#"%char, i + len ws).
Proof.
  induction ws as [|c ws IH]; intros i Hb.
  - change ("" +:+ String "#" text) with (String "#" text).
    change (len "") with 0. rewrite Z.add_0_r. reflexivity.
  - change (String c ws +:+ String "#" text)
      with (String c (ws +:+ String "#" text)).
    cbn [findNextUnquoted_from].
    apply blank_only_cons in Hb as [Hc Hb].
    replace (contains_byte Quotes c) with false
      by (destruct Hc as [-> | ->]; reflexivity).
    replace (contains_byte "#" c) with false
      by (destruct Hc as [-> | ->]; reflexivity).
    rewrite IH by exact Hb.
    rewrite len_String. f_equal. lia.
Qed.

(** X25: a line that holds nothing but blanks and tabs before a number
    sign changes nothing, whatever follows the sign. *)
Theorem parseLine_comment_line H parsefile g ws text dir :
  blank_only ws = true ->
  parseLine H parsefile g (ws +:+ String "#" text) dir = Ok (None, g).
Proof.
  intros Hb. unfold parseLine, findNextUnquoted.
  rewrite findNextUnquoted_from_blanks by exact Hb. cbn [snd].
  pose proof (len_nonneg ws) as Hw.
  replace (0 + len ws =? -1) with false by (symmetry; apply Z.eqb_neq; lia).
  cbn [negb]. rewrite Z.add_0_l. rewrite slice_to_prefix. cbn [bind].
  rewrite TrimSpace_blanks by exact Hb. reflexivity.
Qed.

Lemma parseLine_comment_line_witness :
  parseLine bare_host (parseFile bare_host 0) copy_graph
            ("  " +:+ String "#" " all: clean") "."
  = Ok (None, copy_graph).
Proof.
  apply (parseLine_comment_line bare_host (parseFile bare_host 0) copy_graph
           "  " " all: clean" ".").
  reflexivity.
Defined.

Lemma update_last_app {A} (f : A -> A) before x :
  update_last f (before ++ [x])%list = (before ++ [f x])%list.
Proof.
  induction before as [|y before IH]; [reflexivity|].
  cbn [app update_last]. rewrite IH.
  destruct (before ++ [x])%list eqn:E; [|reflexivity].
  destruct before; discriminate.
Qed.

(** X26: once a rule is there, a line that begins with a blank or a tab
    and holds more than white space and no unquoted number sign is added to
    the recipe of the rule defined last, without its first character; the
    rules before it stay as they are. *)
Theorem parseLine_recipe_line H parsefile g c text dir before lastr :
  c = " "%char \/ c = tab ->
  rules g = (before ++ [lastr])%list ->
  snd (findNextUnquoted (String c text) "#") = -1 ->
  TrimSpace (String c text) <> "" ->
  parseLine H parsefile g (String c text) dir
  = Ok (None, set_rules g (before ++ [append_recipe lastr text])%list).
Proof.
  intros Hc Hrules Hhash Hne. unfold parseLine. rewrite Hhash.
  change (negb (-1 =? -1)) with false. cbv iota. cbn [bind].
  destruct (String.eqb (TrimSpace (String c text)) "") eqn:E.
  { apply String.eqb_eq in E. contradiction. }
  change (at_index (String c text) 0) with (Ok c). cbn [bind].
  rewrite Hrules, List.length_app. cbn [length].
  replace (0 <? Z.of_nat (length before + 1)) with true
    by (symmetry; apply Z.ltb_lt; lia).
  replace (Ascii.eqb c " " || Ascii.eqb c tab) with true
    by (destruct Hc as [-> | ->]; reflexivity).
  cbn [andb]. rewrite slice_from_1. cbn [bind].
  rewrite update_last_app. reflexivity.
Qed.

Lemma parseLine_recipe_line_witness :
  parseLine bare_host (parseFile bare_host 0) copy_graph
            (String tab "touch out") "."
  = Ok (None,
        set_rules copy_graph
          ([] ++ [append_recipe (rule_of "out" ["src"] "cp src out" 1)
                                "touch out"])%list).
Proof.
  apply (parseLine_recipe_line bare_host (parseFile bare_host 0) copy_graph
           tab "touch out" "." [] (rule_of "out" ["src"] "cp src out" 1)).
  - right. reflexivity.
  - reflexivity.
  - reflexivity.
  - vm_compute. discriminate.
Defined.

Lemma parseRule_replaces_or_appends_witness :
  exists r,
    recipe r = ""
    /\ (rules out_retargeted = (rules copy_graph ++ [r])%list
        \/ exists before existing after,
             rules copy_graph = (before ++ existing :: after)%list
             /\ rules out_retargeted = (before ++ r :: after)%list
             /\ same_pats (targets r) (targets existing) = true
             /\ list_string_eqb (prereqs existing) (prereqs r) = true).
Proof.
  apply (parseRule_replaces_or_appends bare_host copy_graph "out: src" 3).
  reflexivity.
Defined.

End GraphFacts.

(** ** The scheduler *)

Module MkFacts.
Import Rules Mk Sample.

Lemma lookup_nodes_all s ps (P : node -> bool) :
  (forall p, In p ps -> exists pn, nodes s !! p = Some pn /\ P pn = true) ->
  exists pns, lookup_nodes s ps = Ok pns /\ forallb P pns = true.
Proof.
  induction ps as [|p ps IH]; intros Hall.
  - exists []. split; reflexivity.
  - destruct IH as (pns & Hl & Hf).
    { intros q Hq. apply Hall. right. exact Hq. }
    destruct (Hall p) as (pn & Hp & HP); [left; reflexivity|].
    exists (pn :: pns). split.
    + unfold lookup_nodes in *. cbn [fold_right]. rewrite Hl. cbn [bind].
      rewrite Hp. reflexivity.
    + cbn [forallb]. rewrite HP, Hf. reflexivity.
Qed.

Lemma nodeStatus_eqb_false a b : a <> b -> nodeStatus_eqb a b = false.
Proof. destruct a, b; intros Hne; try reflexivity; contradiction. Qed.

(** C3: let the node [k] be unclaimed, with an edge whose rule is not
    virtual, no force flag set for it; let the prerequisites have been seen
    to, leaving the state [s1], in which the target is a file with the
    modification time [mt], and every prerequisite node has an earlier time
    and a status other than Done. Then mkNode returns, hands no recipe to
    dorecipe (the list of made targets and the files are those of [s1]), and
    leaves the node with the status Nop. *)
Theorem mkNode_uptodate_is_Nop D fuel s k u rl dryrun required st1 s1 u1 mt :
  nodes s !! k = Some u ->
  status u = nodeStatusReady \/ status u = nodeStatusNop ->
  prereqs u <> [] ->
  select_edge (prereqs u) = Some rl ->
  virtual (attributes rl) = false ->
  rebuildall D = false ->
  rebuildtargets D !! name u = None ->
  mkNodePrereqs (mkNode D fuel)
    (set_node s k (set_status u nodeStatusStarted))
    (prereq_names (prereqs u)) dryrun
    (required && (virtual (attributes rl) || negb (node_exists u)))
  = Ok (st1, s1) ->
  nodes s1 !! k = Some u1 ->
  files s1 !! name u1 = Some mt ->
  (forall p, In p (prereq_names (prereqs u)) ->
     exists pn, nodes s1 !! p = Some pn /\ t pn < mt
                /\ status pn <> nodeStatusDone) ->
  exists s' u',
    mkNode D (S fuel) s k dryrun required = Ok s'
    /\ made s' = made s1
    /\ files s' = files s1
    /\ nodes s' !! k = Some u'
    /\ status u' = nodeStatusNop.
Proof.
  intros Hk Hst Hne Hedge Hvirt Hall Htargets Hpre Hk1 Hfile Hnewer.
  set (u2 := updateTimestamp s1 u1).
  assert (Hu2 : u2 = {| name := name u1; node_r := node_r u1;
                        node_exists := true; t := mt; status := status u1;
                        prereqs := prereqs u1 |}).
  { unfold u2, updateTimestamp. rewrite Hfile. reflexivity. }
  set (s2 := set_node s1 k u2).
  destruct (lookup_nodes_all s2 (prereq_names (prereqs u))
              (fun p => negb ((t u2 <? t p)
                              || nodeStatus_eqb (status p) nodeStatusDone)))
    as (pns & Hpns & Hforall).
  { intros p Hp. destruct (Hnewer p Hp) as (pn & Hpn & Hlt & Hdone).
    destruct (decide (k = p)) as [<-|Hkp].
    - exists u2. split; [apply lookup_insert_eq|].
      rewrite Hk1 in Hpn. injection Hpn as <-.
      rewrite Hu2. cbn [t status]. rewrite Z.ltb_irrefl.
      rewrite nodeStatus_eqb_false by exact Hdone. reflexivity.
    - exists pn. split.
      + unfold s2, set_node. cbn [nodes]. rewrite lookup_insert_ne by exact Hkp.
        exact Hpn.
      + rewrite Hu2. cbn [t].
        replace (mt <? t pn) with false by (symmetry; apply Z.ltb_ge; lia).
        rewrite nodeStatus_eqb_false by exact Hdone. reflexivity. }
  exists (set_node s2 k (set_status u2 nodeStatusNop)),
         (set_status u2 nodeStatusNop).
  split; [|repeat split; [apply lookup_insert_eq]].
  cbn [mkNode]. rewrite Hk.
  assert (Hclaim : negb (nodeStatus_eqb (status u) nodeStatusReady)
                   && negb (nodeStatus_eqb (status u) nodeStatusNop) = false).
  { destruct Hst as [-> | ->]; reflexivity. }
  rewrite Hclaim.
  destruct (prereqs u) as [|e es] eqn:Hes; [contradiction|].
  rewrite Hedge, Hpre. cbn [bind]. rewrite Hvirt. cbn [negb].
  rewrite Hk1. fold u2. fold s2. rewrite Hpns. cbn [bind].
  assert (Hup : uptodate_files u2 required pns = true).
  { unfold uptodate_files.
    replace (node_exists u2) with true by (rewrite Hu2; reflexivity).
    cbn [negb andb orb]. exact Hforall. }
  rewrite Hup, Htargets, Hall. cbn [orb negb andb bind].
  unfold finished. unfold s2 at 1. unfold set_node at 1. cbn [nodes].
  rewrite lookup_insert_eq. reflexivity.
Qed.

Lemma mkNode_uptodate_is_Nop_witness :
  exists s' u',
    mkNode plain_driver 2 fresh_state "out" false true = Ok s'
    /\ made s' = made checked_state
    /\ files s' = files checked_state
    /\ nodes s' !! "out" = Some u'
    /\ status u' = nodeStatusNop.
Proof.
  apply (mkNode_uptodate_is_Nop plain_driver 1 fresh_state "out" out_node
           out_rule false true nodeStatusDone checked_state
           (set_status out_node nodeStatusStarted) 20).
  - reflexivity.
  - left. reflexivity.
  - discriminate.
  - reflexivity.
  - reflexivity.
  - reflexivity.
  - reflexivity.
  - vm_compute. reflexivity.
  - vm_compute. reflexivity.
  - vm_compute. reflexivity.
  - intros p [<-|[]]. exists (set_status src_node nodeStatusNop).
    split; [vm_compute; reflexivity|].
    split; [vm_compute; reflexivity|discriminate].
Defined.

(** The same target when it is older than its prerequisite: the recipe is
    handed to dorecipe, whose failure is the status of the node. *)
Lemma mkNode_outdated_runs_recipe :
  exists s' u',
    mkNode plain_driver 2
      {| nodes := nodes fresh_state;
         files := {[ "out" := 5; "src" := 10 ]}; made := [] |}
      "out" false true = Ok s'
    /\ made s' = ["out"]
    /\ nodes s' !! "out" = Some u'
    /\ status u' = nodeStatusFailed.
Proof. eexists. eexists. split; [vm_compute; reflexivity|]. repeat split. Qed.

(** *** Dry runs and final statuses *)

Import Notions.

Lemma returns_bind {A B} (m : result A) (k : A -> result B) (P : B -> Prop) :
  returns m (fun a => returns (k a) P) -> returns (bind m k) P.
Proof. destruct m; cbn; trivial. Qed.

Lemma fold_left_stops {A B} (f : result A -> B -> result A) (l : list B)
      (e : result A) :
  (forall b, f e b = e) -> fold_left f l e = e.
Proof.
  intros He. induction l as [|b l IH]; cbn [fold_left]; [reflexivity|].
  rewrite He. exact IH.
Qed.

Lemma finished_files s k st :
  returns (finished s k st) (fun s' => files s' = files s).
Proof. unfold finished. destruct (nodes s !! k); cbn; trivial. Qed.

Lemma mkNodePrereqs_files
      (mk : state -> string -> bool -> bool -> result state) ps :
  (forall s p required,
      returns (mk s p true required) (fun s' => files s' = files s)) ->
  forall s0 st0 s required,
    files s0 = files s ->
    returns
      (fold_left
         (fun acc p =>
            let* '(st, s) := acc in
            match nodes s !! p with
            | None => Panic
            | Some pn =>
                match status pn with
                | nodeStatusReady | nodeStatusNop =>
                    let* s' := mk s p true required in
                    match nodes s' !! p with
                    | Some pn' =>
                        Ok (if nodeStatus_eqb (status pn') nodeStatusFailed
                            then nodeStatusFailed else st, s')
                    | None => Panic
                    end
                | nodeStatusStarted => OutOfFuel
                | _ => Ok (st, s)
                end
            end)
         ps (Ok (st0, s0)))
      (fun '(_, s') => files s' = files s).
Proof.
  intros Hmk. induction ps as [|p ps IH]; intros s0 st0 s required Hs0.
  - cbn. exact Hs0.
  - cbn [fold_left bind].
    destruct (nodes s0 !! p) as [pn|];
      [|rewrite fold_left_stops by reflexivity; exact I].
    pose proof (Hmk s0 p required) as Hp.
    destruct (status pn);
      try (apply IH; exact Hs0);
      try (rewrite fold_left_stops by reflexivity; exact I).
    + destruct (mk s0 p true required) as [s1| | |];
        try (cbn [bind]; rewrite fold_left_stops by reflexivity; exact I).
      cbn [bind]. cbn in Hp.
      destruct (nodes s1 !! p);
        [|rewrite fold_left_stops by reflexivity; exact I].
      apply IH. congruence.
    + destruct (mk s0 p true required) as [s1| | |];
        try (cbn [bind]; rewrite fold_left_stops by reflexivity; exact I).
      cbn [bind]. cbn in Hp.
      destruct (nodes s1 !! p);
        [|rewrite fold_left_stops by reflexivity; exact I].
      apply IH. congruence.
Qed.

(** X28: a dry run changes no file: whatever the graph, the flags and
    the recipe runner, the files are the same after mkNode as before it. *)
Theorem mkNode_dry_run_keeps_files D fuel s k required s' :
  mkNode D fuel s k true required = Ok s' -> files s' = files s.
Proof.
  intros Hm.
  enough (Hr : returns (mkNode D fuel s k true required)
                       (fun s' => files s' = files s))
    by (rewrite Hm in Hr; exact Hr).
  clear Hm s'. revert s k required.

  induction fuel as [|fuel IH]; intros s k required; [exact I|].
  cbn [mkNode].
  destruct (nodes s !! k) as [u|]; [|exact I].
  destruct (negb (nodeStatus_eqb (status u) nodeStatusReady)
            && negb (nodeStatus_eqb (status u) nodeStatusNop));
    [reflexivity|].
  set (s1 := set_node s k (set_status u nodeStatusStarted)).
  assert (Hs1 : files s1 = files s) by reflexivity.
  destruct (prereqs u) as [|e0 es] eqn:Hps.
  { destruct (negb (virtual_rule (node_r u)) && negb (node_exists u));
      [exact I|].
    pose proof (finished_files s1 k nodeStatusNop) as Hf.
    destruct (finished s1 k nodeStatusNop); cbn in Hf |- *; congruence. }
  destruct (select_edge (e0 :: es)) as [rl|]; [|exact I].
  apply returns_bind.
  pose proof (mkNodePrereqs_files (mkNode D fuel) (prereq_names (e0 :: es)) IH
                s1 nodeStatusDone s
                (required && (virtual (attributes rl) || negb (node_exists u)))
                Hs1) as H1.
  unfold mkNodePrereqs.
  match type of H1 with
  | returns ?m _ => destruct m as [[st2 s2]| | |]; try exact I
  end.
  cbn in H1. cbn [returns].
  apply returns_bind.
  assert (H3 : returns
    (if negb (virtual (attributes rl))
     then match nodes s2 !! k with
          | None => Panic
          | Some u0 =>
              let u1 := updateTimestamp s2 u0 in
              let s3 := set_node s2 k u1 in
              let* pns := lookup_nodes s3 (prereq_names (e0 :: es)) in
              Ok (s3, uptodate_files u1 required pns)
          end
     else Ok (s2, false))
    (fun '(s3, _) => files s3 = files s)).
  { destruct (negb (virtual (attributes rl))); [|exact H1].
    destruct (nodes s2 !! k) as [u0|]; [|exact I]. cbv zeta.
    destruct (lookup_nodes _ _); cbn; trivial. }
  match type of H3 with
  | returns ?m _ => destruct m as [[s3 upd]| | |]; try exact I
  end.
  cbn in H3. cbn [returns].
  set (uptodate :=
         if match rebuildtargets D !! name u with Some _ => true | None => false end
            || rebuildall D
         then false else upd).
  apply returns_bind.
  assert (H4 : returns
    (if negb uptodate
     then mkNodePrereqs (mkNode D fuel) s3 (prereq_names (e0 :: es)) true true
     else Ok (nodeStatusDone, s3))
    (fun '(_, s4) => files s4 = files s)).
  { destruct (negb uptodate); [|exact H3].
    apply (mkNodePrereqs_files (mkNode D fuel) _ IH s3 nodeStatusDone s true H3). }
  unfold mkNodePrereqs in H4.
  match type of H4 with
  | returns ?m _ => destruct m as [[st4 s4]| | |]; try exact I
  end.
  cbn in H4. cbn [returns].
  destruct (negb uptodate
            && negb (nodeStatus_eqb nodeStatusDone nodeStatusFailed)
            && (0 <? len (recipe rl))).
  - destruct (nodes s4 !! k) as [u4|]; [|exact I].
    cbn [dorecipe].
    match goal with
    | |- returns (finished ?sx k ?st) _ =>
        pose proof (finished_files sx k st) as Hf;
        destruct (finished sx k st); cbn in Hf |- *; trivial
    end.
    rewrite Hf. exact H4.
  - cbn [nodeStatus_eqb negb].
    pose proof (finished_files s4 k nodeStatusNop) as Hf.
    destruct (finished s4 k nodeStatusNop); cbn in Hf |- *; congruence.
Qed.

Lemma mkNode_dry_run_keeps_files_witness :
  mkNode plain_driver 2 stale_state "out" true true = Ok stale_dry_run
  /\ files stale_dry_run = files stale_state.
Proof.
  assert (Hrun : mkNode plain_driver 2 stale_state "out" true true
                 = Ok stale_dry_run) by (vm_compute; reflexivity).
  split; [exact Hrun|].
  exact (mkNode_dry_run_keeps_files plain_driver 2 stale_state "out" true
           stale_dry_run Hrun).
Defined.

Lemma finished_status s k st s' :
  finished s k st = Ok s' ->
  exists u', nodes s' !! k = Some u' /\ status u' = st.
Proof.
  unfold finished. destruct (nodes s !! k) as [u|]; [|discriminate].
  intros [= <-]. exists (set_status u st). split; [|reflexivity].
  unfold set_node. cbn [nodes]. apply lookup_insert_eq.
Qed.

(** X29: a node that mkNode has claimed, one that was Ready or Nop, is
    left in one of the statuses Nop, Done and Failed when mkNode returns:
    never Ready and never Started. *)
Theorem mkNode_leaves_final_status D fuel s k dryrun required u s' :
  nodes s !! k = Some u ->
  status u = nodeStatusReady \/ status u = nodeStatusNop ->
  mkNode D fuel s k dryrun required = Ok s' ->
  exists u', nodes s' !! k = Some u' /\ final_status (status u') = true.
Proof.
  intros Hu Hst. destruct fuel as [|fuel]; [discriminate|].
  cbn [mkNode]. rewrite Hu.
  replace (negb (nodeStatus_eqb (status u) nodeStatusReady)
           && negb (nodeStatus_eqb (status u) nodeStatusNop)) with false
    by (destruct Hst as [-> | ->]; reflexivity).
  assert (Hfin : forall sx st, final_status st = true ->
            finished sx k st = Ok s' ->
            exists u', nodes s' !! k = Some u' /\ final_status (status u') = true).
  { intros sx st Hfs Hf. apply finished_status in Hf as (u' & Hu' & Hs').
    exists u'. split; [exact Hu'|]. rewrite Hs'. exact Hfs. }
  destruct (prereqs u) as [|e0 es].
  { destruct (negb (virtual_rule (node_r u)) && negb (node_exists u));
      [discriminate|]. apply Hfin. reflexivity. }
  destruct (select_edge (e0 :: es)) as [rl|]; [|discriminate].
  destruct (mkNodePrereqs _ _ _ _ _) as [[st2 s2]| | |]; try discriminate.
  cbn [bind].
  match goal with
  | |- context [bind ?m _] => destruct m as [[s3 upd]| | |]; try discriminate
  end.
  cbn [bind].
  match goal with
  | |- context [bind ?m _] => destruct m as [[st4 s4]| | |]; try discriminate
  end.
  cbn [bind].
  match goal with
  | |- context [if ?c then _ else _] => destruct c
  end.
  - destruct (nodes s4 !! k) as [u4|]; [|discriminate].
    destruct (dorecipe D s4 u4 rl dryrun) as [ok s5].
    apply Hfin. destruct ok; reflexivity.
  - cbn [nodeStatus_eqb negb]. apply Hfin. reflexivity.
Qed.

Lemma mkNode_leaves_final_status_witness :
  mkNode plain_driver 2 stale_state "out" true true = Ok stale_dry_run
  /\ exists u', nodes stale_dry_run !! "out" = Some u'
                /\ final_status (status u') = true.
Proof.
  split; [vm_compute; reflexivity|].
  apply (mkNode_leaves_final_status plain_driver 2 stale_state "out" true true
           out_node stale_dry_run).
  - reflexivity.
  - left. reflexivity.
  - vm_compute. reflexivity.
Defined.

End MkFacts.

(** ** The lexer *)

Module LexFacts.
Import Lex Sample.

(** onlyWhitespace answers true exactly when no rune is white space. *)
Lemma onlyWhitespace_true_iff s :
  onlyWhitespace s = true <-> Forall (fun c => IsSpace c = false) s.
Proof.
  unfold onlyWhitespace. rewrite negb_true_iff. induction s as [|c s IH]; cbn [existsb].
  - split; [constructor|reflexivity].
  - rewrite orb_false_iff, IH. split.
    + intros [Hc Hs]. constructor; assumption.
    + intros Hf. inversion Hf; subst. split; assumption.
Qed.

Lemma onlyWhitespace_examples :
  onlyWhitespace [12; 10] = false /\ onlyWhitespace [120] = true
  /\ onlyWhitespace [] = true.
Proof. repeat split; reflexivity. Qed.

(** lexRecipe emits its token exactly when the body holds a white space
    rune. *)
Lemma run_lexRecipe_emits eof fuel l body :
  recipe_loop eof fuel l = Ok body ->
  run_lexRecipe eof fuel l
  = Ok (if existsb IsSpace (value body) then emit body tokenRecipe else body,
        Some lexTopLevel).
Proof.
  intros Hloop. unfold run_lexRecipe. rewrite Hloop. cbn [bind].
  unfold onlyWhitespace. rewrite negb_involutive. reflexivity.
Qed.

(** C8 at a mkfile whose rule a: is followed by an indented line made of a
    form feed: the body of the recipe block is a form feed and a newline,
    white space only, and the lexer emits a Recipe token for it, where the
    claim has none. onlyWhitespace answers false for it, against its own
    comment. *)
Theorem lex_formfeed_body_gives_Recipe eof fuel :
  first_tokens eof 4 (10 + fuel) (fst (lex formfeed_mkfile false))
               (snd (lex formfeed_mkfile false))
  = Ok [{| typ := tokenWord; val := [97]; tok_line := 1; tok_col := 0 |};
        {| typ := tokenColon; val := [58]; tok_line := 1; tok_col := 0 |};
        {| typ := tokenNewline; val := [10]; tok_line := 2; tok_col := 0 |};
        {| typ := tokenRecipe; val := [12; 10]; tok_line := 3; tok_col := 1 |}].
Proof. reflexivity. Qed.

(** *** Bare words *)

Import Notions.




End LexFacts.
